(** * astro-rag: the retrieval-augmented query pipeline, embedded in Rocq

    The development follows two source files of the repository:
    - the worker entry point (the [RAGWorkflow] class with [chunkText] and
      [chunkTextWithMetadata], and the [/query] route), and
    - the query-handling module ([retrieveDocs], [buildContextSnippet],
      [callGeminiWithContext], [dbQueryTool], [googleSearchTool],
      [runAgent], [answerQuery]).

    Conventions of the embedding.
    - A JavaScript string is the list of its UTF-16 code units ([jsstr]).
    - JavaScript numbers that hold lengths, indices, ids and counts are [Z].
    - JavaScript numbers that hold similarity scores and thresholds are
      exact rationals ([Q]): every finite double is a rational and [<], [>]
      on doubles are the exact comparisons.  Products such as
      [chunkSize * 0.7] and [score * 1000] are taken exactly, without the
      rounding of IEEE-754 arithmetic.
    - [async] functions live in a small monad [M] that threads the log of
      the calls made to the outside world and carries thrown errors. *)

From Stdlib Require Import Ascii String DecimalString.
From Stdlib Require Import List ZArith QArith Qround Lia Bool Sorted.
Import ListNotations.
Local Open Scope Z_scope.

(* ===================================================================== *)
(** * JavaScript strings                                                   *)
(* ===================================================================== *)

Module Js.

Definition jschar := N.
Definition jsstr := list jschar.

(** A string literal of the source, as code units (ASCII text only). *)
Definition lit (s : string) : jsstr := map N_of_ascii (list_ascii_of_string s).

(** The double-quote character, which a literal above cannot hold. *)
Definition dquote : jsstr := [34%N].

Definition strlen (s : jsstr) : Z := Z.of_nat (length s).

Definition jsstr_eqb (a b : jsstr) : bool :=
  if list_eq_dec N.eq_dec a b then true else false.

(** [!s] is false exactly for the non-empty string. *)
Definition truthy (s : jsstr) : bool :=
  match s with [] => false | _ => true end.

(** [String.prototype.slice(start, end)]: negative arguments count from the
    end of the string, both are clamped to [0, length]. *)
Definition slice_index (len i : Z) : Z :=
  if i <? 0 then Z.max (len + i) 0 else Z.min i len.

Definition slice (s : jsstr) (start stop : Z) : jsstr :=
  let len := strlen s in
  let from := slice_index len start in
  let to := slice_index len stop in
  firstn (Z.to_nat (Z.max (to - from) 0)) (skipn (Z.to_nat from) s).

(** [String.prototype.substring(start, end)]: arguments are clamped to
    [0, length] and swapped when out of order. *)
Definition substring (s : jsstr) (start stop : Z) : jsstr :=
  let len := strlen s in
  let a := Z.min (Z.max start 0) len in
  let b := Z.min (Z.max stop 0) len in
  let from := Z.min a b in
  let to := Z.max a b in
  firstn (Z.to_nat (to - from)) (skipn (Z.to_nat from) s).

(** [s.lastIndexOf(c, fromIndex)] for a one-character search string: the
    largest index [k <= max(fromIndex, 0)] with [s[k] = c], or [-1]. *)
Fixpoint lastIndexOf_from (c : jschar) (s : jsstr) (i bound acc : Z) : Z :=
  match s with
  | [] => acc
  | x :: r =>
      lastIndexOf_from c r (i + 1) bound
        (if (N.eqb x c && (i <=? bound))%bool then i else acc)
  end.

Definition lastIndexOf (s : jsstr) (c : jschar) (fromIndex : Z) : Z :=
  lastIndexOf_from c s 0 (Z.max fromIndex 0) (-1).

(** White space and line terminators, as [String.prototype.trim] sees them. *)
Definition is_ws (c : jschar) : bool :=
  match c with
  | 9 | 10 | 11 | 12 | 13 | 32 | 160 | 5760 | 8232 | 8233 | 8239 | 8287
  | 12288 | 65279 => true
  | _ => ((8192 <=? c) && (c <=? 8202))%N
  end%N.

Fixpoint trimStart (s : jsstr) : jsstr :=
  match s with
  | c :: r => if is_ws c then trimStart r else s
  | [] => []
  end.

Definition trimEnd (s : jsstr) : jsstr := rev (trimStart (rev s)).

Definition trim (s : jsstr) : jsstr := trimEnd (trimStart s).

(** [Array.prototype.join]. *)
Fixpoint join (sep : jsstr) (parts : list jsstr) : jsstr :=
  match parts with
  | [] => []
  | [p] => p
  | p :: rest => p ++ sep ++ join sep rest
  end.

(** [Array.prototype.map] with the index argument. *)
Fixpoint mapi_from {A B : Type} (f : A -> Z -> B) (i : Z) (l : list A) : list B :=
  match l with
  | [] => []
  | a :: r => f a i :: mapi_from f (i + 1) r
  end.

Definition mapi {A B : Type} (f : A -> Z -> B) (l : list A) : list B :=
  mapi_from f 0 l.

(** [Math.max] of three integers. *)
Definition max3 (a b c : Z) : Z := Z.max (Z.max a b) c.

(** Decimal rendering of an integer ([Number.prototype.toString] on an
    integer-valued number, template-literal interpolation). *)
Definition Z_toString (z : Z) : jsstr := lit (NilZero.string_of_int (Z.to_int z)).

(** Strict order on rationals as a boolean. *)
Definition Qltb (x y : Q) : bool := negb (Qle_bool y x).

(** [Math.round]: the nearest integer, halves towards plus infinity. *)
Definition Math_round (x : Q) : Z := Qfloor (x + (1 # 2)).

(** Left-pads a digit string with zeros up to [n] characters. *)
Definition pad_zeros (n : nat) (s : jsstr) : jsstr :=
  repeat 48%N (n - length s) ++ s.

(** [Number.prototype.toFixed(f)]: the sign is split off, the magnitude is
    rounded to the nearest multiple of [10^-f] (the larger one on a tie),
    and rendered with exactly [f] fractional digits.  This is the rendering
    for magnitudes below [10^21], which similarity scores are. *)
Definition toFixed (x : Q) (f : nat) : jsstr :=
  let neg := Qltb x 0 in
  let ax := if neg then Qopp x else x in
  let n := Qfloor (ax * inject_Z (10 ^ Z.of_nat f) + (1 # 2)) in
  let m := pad_zeros (S f) (Z_toString n) in
  let k := (length m - f)%nat in
  (if neg then lit "-" else []) ++ firstn k m ++
  (match f with O => [] | _ => lit "." ++ skipn k m end).

(** Drops the zeros at the end of a fractional digit string. *)
Definition strip_trailing_zeros (s : jsstr) : jsstr :=
  rev ((fix go (r : jsstr) : jsstr :=
          match r with
          | 48%N :: r' => go r'
          | _ => r
          end) (rev s)).

(** Template interpolation of a number that is a multiple of [1/1000], the
    only non-integer numbers the source interpolates without [toFixed]: the
    shortest decimal, no trailing zeros, no decimal point for an integer. *)
Definition milli_toString (x : Q) : jsstr :=
  let n := Qfloor (x * inject_Z 1000) in
  let neg := n <? 0 in
  let a := Z.abs n in
  let frac := strip_trailing_zeros (pad_zeros 3 (Z_toString (a mod 1000))) in
  (if neg then lit "-" else []) ++ Z_toString (a / 1000) ++
  (match frac with [] => [] | _ => lit "." ++ frac end).

End Js.
Export Js.

(* ===================================================================== *)
(** * The chunker ([RAGWorkflow.chunkText], [chunkTextWithMetadata])       *)
(* ===================================================================== *)

Module Chunker.

(** [start + chunkSize * ratio], the earliest position a boundary may not
    fall on or before. *)
Definition boundary_floor (start chunkSize : Z) (ratio : Q) : Q :=
  (inject_Z start + inject_Z chunkSize * ratio)%Q.

(** [Math.max(sentenceEnd, questionEnd, exclamationEnd)] for a candidate
    boundary [stop]. *)
Definition lastSentenceEnd (text : jsstr) (stop : Z) : Z :=
  let sentenceEnd := lastIndexOf text 46%N stop in
  let questionEnd := lastIndexOf text 63%N stop in
  let exclamationEnd := lastIndexOf text 33%N stop in
  max3 sentenceEnd questionEnd exclamationEnd.

(** The value of [end] when the body of the loop reaches [text.slice]. *)
Definition window_end (text : jsstr) (chunkSize start : Z) : Z :=
  let stop := start + chunkSize in
  if stop <? strlen text then
    let lse := lastSentenceEnd text stop in
    if Qltb (boundary_floor start chunkSize (7 # 10)) (inject_Z lse) then
      lse + 1
    else
      let lastSpace := lastIndexOf text 32%N stop in
      if Qltb (boundary_floor start chunkSize (8 # 10)) (inject_Z lastSpace)
      then lastSpace
      else stop
  else stop.

(** One pass through the body of the [while] loop, up to and including the
    assignment [start = end - overlap]; the state is [(start, chunks)]. *)
Definition chunk_iter (text : jsstr) (chunkSize overlap : Z)
    (st : Z * list jsstr) : Z * list jsstr :=
  let '(start, chunks) := st in
  let stop := window_end text chunkSize start in
  let chunk := trim (slice text start stop) in
  (stop - overlap, if 0 <? strlen chunk then chunks ++ [chunk] else chunks).

(** The [while] loop.  Each pass costs one unit of fuel; [None] means that
    the fuel ran out before the loop was left. *)
Fixpoint chunk_loop (fuel : nat) (text : jsstr) (chunkSize overlap : Z)
    (st : Z * list jsstr) : option (list jsstr) :=
  if fst st <? strlen text then
    match fuel with
    | O => None
    | S fuel' =>
        let st' := chunk_iter text chunkSize overlap st in
        if fst st' >=? strlen text then Some (snd st')
        else chunk_loop fuel' text chunkSize overlap st'
    end
  else Some (snd st).

Definition chunkText (fuel : nat) (text : jsstr) (chunkSize overlap : Z)
    : option (list jsstr) :=
  if (negb (truthy text) || (strlen text <=? chunkSize))%bool then Some [text]
  else chunk_loop fuel text chunkSize overlap (0, []).

Record ChunkMetadata := {
  cm_filename : jsstr;
  cm_chunkIndex : Z;
  cm_totalChunks : Z;
  cm_chunkSize : Z;
  cm_originalTextLength : Z
}.

Record ChunkWithMetadata := {
  cwm_text : jsstr;
  cwm_metadata : ChunkMetadata
}.

Definition decorate (text filename : jsstr) (chunks : list jsstr)
    : list ChunkWithMetadata :=
  mapi (fun chunk index =>
          {| cwm_text := chunk;
             cwm_metadata :=
               {| cm_filename := filename;
                  cm_chunkIndex := index;
                  cm_totalChunks := Z.of_nat (length chunks);
                  cm_chunkSize := strlen chunk;
                  cm_originalTextLength := strlen text |} |})
       chunks.

Definition chunkTextWithMetadata (fuel : nat) (text filename : jsstr)
    (chunkSize overlap : Z) : option (list ChunkWithMetadata) :=
  match chunkText fuel text chunkSize overlap with
  | Some chunks => Some (decorate text filename chunks)
  | None => None
  end.

(** The loop state after [n] passes, and the windows [(start, end)] the
    passes cut: the raw material of the statements below. *)
Fixpoint state_after (n : nat) (text : jsstr) (chunkSize overlap : Z)
    (st : Z * list jsstr) : Z * list jsstr :=
  match n with
  | O => st
  | S n' => state_after n' text chunkSize overlap
              (chunk_iter text chunkSize overlap st)
  end.

(** A string with no white space at either end. *)
Definition trimmed (s : jsstr) : Prop :=
  match s with [] => True | c :: _ => is_ws c = false end /\
  match rev s with [] => True | c :: _ => is_ws c = false end.


End Chunker.

(* ===================================================================== *)
(** * Effects: thrown errors and the log of outside calls                  *)
(* ===================================================================== *)

Module Effects.

Record JsError := { message : jsstr }.

Inductive outcome (A : Type) : Type :=
| Returned (a : A)
| Thrown (e : JsError).
Arguments Returned {A} a.
Arguments Thrown {A} e.

(** What a query does to the outside world, in the order it happens. *)
Inductive event :=
| CallEmbedding (apiKey text : jsstr)
| CallVectorize (vector : option (list Q)) (topK : Z)
| CallDatabase (sql : jsstr) (binds : list jsstr)
| CallCompletion (apiKey prompt : jsstr) (temperature : Q) (maxOutputTokens : Z)
| CallWebSearch (apiKey cseId query : jsstr)
| ConsoleError (label : jsstr) (e : JsError)
| ConsoleLog (msg : jsstr).

Definition trace := list event.

(** An [async] computation: it extends the trace and returns or throws. *)
Definition M (A : Type) : Type := trace -> outcome A * trace.

Definition ret {A} (a : A) : M A := fun t => (Returned a, t).

Definition throw {A} (e : JsError) : M A := fun t => (Thrown e, t).

Definition bind {A B} (m : M A) (k : A -> M B) : M B :=
  fun t =>
    match m t with
    | (Returned a, t') => k a t'
    | (Thrown e, t') => (Thrown e, t')
    end.

(** [try { body } catch (error) { handler }]. *)
Definition tryCatch {A} (body : M A) (handler : JsError -> M A) : M A :=
  fun t =>
    match body t with
    | (Returned a, t') => (Returned a, t')
    | (Thrown e, t') => handler e t'
    end.

Definition emit (ev : event) : M unit := fun t => (Returned tt, t ++ [ev]).

(** An awaited call to a collaborator: the call is logged, then its
    outcome (a value or a rejection) is delivered. *)
Definition call {A} (ev : event) (o : outcome A) : M A :=
  fun t => (o, t ++ [ev]).

(** Awaiting something that makes no call of its own. *)
Definition await {A} (o : outcome A) : M A := fun t => (o, t).

Definition run {A} (m : M A) : outcome A * trace := m [].

End Effects.
Export Effects.

Declare Scope js_scope.
Notation "x <- m ;; k" := (bind m (fun x => k))
  (at level 61, m at next level, right associativity) : js_scope.
Notation "m ;;; k" := (bind m (fun _ => k))
  (at level 61, right associativity) : js_scope.
Local Open Scope js_scope.

(* ===================================================================== *)
(** * The query-handling module                                            *)
(* ===================================================================== *)

Module QueryHandling.

Definition nl : jsstr := [10%N].

(** ** Configuration *)

Module CONFIG.
Definition CF_INDEX_NAME : jsstr := lit "my-index".
Definition EMBEDDING_MODEL : jsstr := lit "text-embedding-004".
Definition GEMINI_MODEL : jsstr := lit "gemini-2.0-flash-exp".
Definition DEFAULT_TOP_K : Z := 8.
Definition DEFAULT_SCORE_THRESHOLD : Q := 72 # 100.
Definition MAX_CONTEXT_CHARS : Z := 1500.
End CONFIG.

(** ** System prompts *)

Definition SYSTEM_PROMPT_DB_ONLY : jsstr :=
  nl ++
  lit "You are an assistant that MUST ONLY use the provided documents below to answer the user's question." ++ nl ++
  lit "Do NOT use any external knowledge beyond these documents. If the documents do NOT contain enough" ++ nl ++
  lit "information to answer the question, reply exactly: " ++ dquote ++ lit "NOT_IN_DB" ++ dquote ++
  lit ". Provide a short justification" ++ nl ++
  lit "(one sentence) referencing which documents you used, and include the doc ids used." ++ nl.

Definition SYSTEM_PROMPT_HYBRID : jsstr :=
  nl ++
  lit "You are an assistant that SHOULD PRIORITIZE the provided vector_db tool when answering." ++ nl ++
  lit "You MAY use external knowledge and the google_search to help if the vector_db doesn't fully answer the question," ++ nl ++
  lit "- Rephrase the user's query if needed before calling google_search, but give priority to the vector_db results. " ++ nl ++
  lit "- When using vector_db content, you MUST cite the doc id(s)." ++ nl ++
  lit "- If the vector_db is sufficient, do not add external facts unless they are directly relevant." ++ nl.

Definition NOT_IN_DB : jsstr := lit "NOT_IN_DB".

(** ** The outside world *)

(** What [fetch] resolves to, with the body already typed by endpoint. *)
Record Response (D : Type) := {
  ok : bool;
  status : Z;
  statusText : jsstr;
  json : outcome D
}.
Arguments ok {D} _.
Arguments status {D} _.
Arguments statusText {D} _.
Arguments json {D} _.

(** A match of the vector index. *)
Record VMatch := { vm_id : jsstr; vm_score : Q }.

(** A row of the [pdfs] table. *)
Record Row := {
  row_id : Z;
  row_text : jsstr;
  row_filename : option jsstr;
  row_chunk_index : Z;
  row_total_chunks : Z
}.

(** The body of the completion endpoint: [completion_text] is the value at
    [candidates[0].content.parts[0].text], [None] when that path does not
    exist (reading it then raises a [TypeError]). *)
Record GeminiData := {
  completion_text : option jsstr;
  completion_payload : jsstr
}.

Record SearchItem := { title : jsstr; link : jsstr; snippet : jsstr }.

(** The worker's bindings and secrets, and the answers of the services
    behind them. *)
Record Env := {
  GOOGLE_API_KEY : jsstr;
  GEMINI_API_KEY : jsstr;
  GOOGLE_SEARCH_API_KEY : option jsstr;
  GOOGLE_CSE_ID : option jsstr;
  (** the embedding endpoint; the body is [data.embedding], [None] when the
      field is missing, holding [values] *)
  embedding_fetch : jsstr -> outcome (Response (option (option (list Q))));
  VECTORIZE_query : option (list Q) -> Z -> outcome (option (list VMatch));
  database_run : jsstr -> list jsstr -> outcome (option (list Row));
  completion_fetch : jsstr -> Q -> Z -> outcome (Response GeminiData);
  (** the search endpoint, by key, engine id and query; the body is
      [data.items]; a rejection also stands for a request that could not be
      built ([encodeURIComponent] throwing) *)
  search_fetch : jsstr -> jsstr -> jsstr ->
                 outcome (Response (option (list SearchItem)));
  (** [new Date().toISOString()] *)
  clock : jsstr
}.

(** [!env.KEY] for a secret that may be unset. *)
Definition secret_truthy (k : option jsstr) : bool :=
  match k with Some s => truthy s | None => false end.

Definition secret_text (k : option jsstr) : jsstr :=
  match k with Some s => s | None => lit "undefined" end.

Definition TypeError_undefined : JsError :=
  {| message := lit "Cannot read properties of undefined" |}.

(** ** Retrieval *)

Definition generateEmbeddings (text : jsstr) (env : Env) : M (option (list Q)) :=
  tryCatch
    (response <- call (CallEmbedding (GOOGLE_API_KEY env) text)
                      (embedding_fetch env text) ;;
     if negb (ok response) then
       throw {| message := lit "Embedding API error: " ++
                           Z_toString (status response) ++ lit " " ++
                           statusText response |}
     else
       data <- await (json response) ;;
       match data with
       | Some values => ret values
       | None => throw TypeError_undefined
       end)
    (fun error =>
       emit (ConsoleError (lit "Error generating embeddings:") error) ;;;
       throw error).

Record Metadata := {
  id : Z;
  source : option jsstr;
  chunk_index : Z;
  total_chunks : Z
}.

Record Document := { page_content : jsstr; metadata : Metadata }.

Record Match := { document : Document; score : Q }.

(** The loop that combines vector scores with document data: one pass per
    index match, a push only when [results.find] finds the row. *)
Fixpoint combine_matches (results : list Row) (vmatches : list VMatch)
    (matches : list Match) : list Match :=
  match vmatches with
  | [] => matches
  | m :: rest =>
      match find (fun r => jsstr_eqb (Z_toString (row_id r)) (vm_id m)) results with
      | Some doc =>
          combine_matches results rest
            (matches ++
             [{| document :=
                   {| page_content := row_text doc;
                      metadata := {| id := row_id doc;
                                     source := row_filename doc;
                                     chunk_index := row_chunk_index doc;
                                     total_chunks := row_total_chunks doc |} |};
                 score := vm_score m |}])
      | None => combine_matches results rest matches
      end
  end.

(** The statement that fetches the rows of the matched ids: one [?] per id. *)
Definition query_sql (chunkIds : list jsstr) : jsstr :=
  let placeholders := join (lit ",") (map (fun _ => lit "?") chunkIds) in
  lit "SELECT * FROM pdfs WHERE id IN (" ++ placeholders ++
  lit ") ORDER BY chunk_index ASC".

Definition retrieveDocs (query : jsstr) (topK : Z) (env : Env) : M (list Match) :=
  tryCatch
    (queryEmbeddings <- generateEmbeddings query env ;;
     vectorQuery <- call (CallVectorize queryEmbeddings topK)
                         (VECTORIZE_query env queryEmbeddings topK) ;;
     match vectorQuery with
     | None | Some [] => ret []
     | Some vmatches =>
         let chunkIds := map vm_id vmatches in
         let sql := query_sql chunkIds in
         results <- call (CallDatabase sql chunkIds)
                         (database_run env sql chunkIds) ;;
         match results with
         | None => ret []
         | Some rows => ret (combine_matches rows vmatches [])
         end
     end)
    (fun error =>
       emit (ConsoleError (lit "Error retrieving documents:") error) ;;;
       throw error).

(** ** Context building *)

Record ProvenanceEntry := {
  pe_id : Z;
  pe_score : Q;
  pe_source : option jsstr
}.

Definition ELLIPSIS : jsstr := [32%N; 8230%N].

(** [text.trim()], then the truncation to [includeLimitChars]. *)
Definition context_text (page_content : jsstr) (includeLimitChars : Z) : jsstr :=
  let text := trim page_content in
  if strlen text >? includeLimitChars
  then substring text 0 includeLimitChars ++ ELLIPSIS
  else text.

(** [doc.metadata.id || 'unknown'], interpolated. *)
Definition id_or_unknown (i : Z) : jsstr :=
  if i =? 0 then lit "unknown" else Z_toString i.

Definition context_part (i : Z) (m : Match) (includeLimitChars : Z) : jsstr :=
  lit "--- DOC " ++ Z_toString (i + 1) ++
  lit " (id=" ++ id_or_unknown (id (metadata (document m))) ++
  lit ", score=" ++ toFixed (score m) 4 ++ lit ") ---" ++ nl ++
  context_text (page_content (document m)) includeLimitChars ++ nl.

Definition provenance_of (m : Match) : ProvenanceEntry :=
  {| pe_id := id (metadata (document m));
     pe_score := score m;
     pe_source := source (metadata (document m)) |}.

(** The [for] loop of [buildContextSnippet], from index [i] on. *)
Fixpoint build_loop (matches : list Match) (includeLimitChars : Z) (i : Z)
    (parts : list jsstr) (provenance : list ProvenanceEntry)
    : list jsstr * list ProvenanceEntry :=
  match matches with
  | [] => (parts, provenance)
  | m :: rest =>
      build_loop rest includeLimitChars (i + 1)
        (parts ++ [context_part i m includeLimitChars])
        (provenance ++ [provenance_of m])
  end.

Record ContextSnippet := {
  contextText : jsstr;
  provenance : list ProvenanceEntry
}.

Definition buildContextSnippet (matches : list Match) (includeLimitChars : Z)
    : ContextSnippet :=
  let '(parts, prov) := build_loop matches includeLimitChars 0 [] [] in
  {| contextText := join (nl ++ nl) parts; provenance := prov |}.

(** ** The completion service *)

Record Completion := { text : jsstr; raw : GeminiData }.

Definition build_prompt (systemPrompt userQuery context : jsstr) : jsstr :=
  systemPrompt ++ nl ++ nl ++ lit "CONTEXT:" ++ nl ++ context ++ nl ++ nl ++
  lit "USER QUERY:" ++ nl ++ userQuery ++ nl ++ nl ++ lit "Answer:".

Definition callGeminiWithContext (systemPrompt userQuery context : jsstr)
    (env : Env) (temperature : Q) (maxOutputTokens : Z) : M Completion :=
  tryCatch
    (let prompt := build_prompt systemPrompt userQuery context in
     response <- call (CallCompletion (GEMINI_API_KEY env) prompt
                                      temperature maxOutputTokens)
                      (completion_fetch env prompt temperature maxOutputTokens) ;;
     if negb (ok response) then
       throw {| message := lit "Gemini API error: " ++
                           Z_toString (status response) ++ lit " " ++
                           statusText response |}
     else
       data <- await (json response) ;;
       match completion_text data with
       | Some t => ret {| text := t; raw := data |}
       | None => throw TypeError_undefined
       end)
    (fun error =>
       emit (ConsoleError (lit "Error calling Gemini:") error) ;;;
       throw error).

(** The call with the default [temperature = 0.0], [maxOutputTokens = 512]. *)
Definition callGemini (systemPrompt userQuery context : jsstr) (env : Env)
    : M Completion :=
  callGeminiWithContext systemPrompt userQuery context env 0%Q 512.

(** ** Tools *)

(** [doc.metadata.id || `unknown_${i}`]: a number or a string. *)
Inductive DocId :=
| DocIdNumber (n : Z)
| DocIdString (s : jsstr).

Definition DocId_toString (d : DocId) : jsstr :=
  match d with
  | DocIdNumber n => Z_toString n
  | DocIdString s => s
  end.

Record DbResult := {
  doc_id : DocId;
  dr_score : Q;
  dr_source : jsstr;
  dr_snippet : jsstr
}.

(** [Math.round(score * 1000) / 1000]. *)
Definition round3 (s : Q) : Q :=
  (inject_Z (Math_round (s * inject_Z 1000)) / inject_Z 1000)%Q.

Definition format_result (m : Match) (i : Z) : DbResult :=
  let doc := document m in
  {| doc_id := if id (metadata doc) =? 0
               then DocIdString (lit "unknown_" ++ Z_toString i)
               else DocIdNumber (id (metadata doc));
     dr_score := round3 (score m);
     dr_source := match source (metadata doc) with
                  | Some s => if truthy s then s else lit "unknown"
                  | None => lit "unknown"
                  end;
     dr_snippet := substring (page_content doc) 0 300 ++ lit "..." |}.

Definition dbQueryTool (query : jsstr) (topK : Z) (env : Env) : M (list DbResult) :=
  tryCatch
    (results <- retrieveDocs query topK env ;;
     ret (mapi format_result results))
    (fun error =>
       emit (ConsoleError (lit "Error in dbQueryTool:") error) ;;;
       ret []).

Definition googleSearchTool (query : jsstr) (env : Env) : M (list SearchItem) :=
  tryCatch
    (if (negb (secret_truthy (GOOGLE_SEARCH_API_KEY env)) ||
         negb (secret_truthy (GOOGLE_CSE_ID env)))%bool then
       throw {| message := lit "Google API credentials not configured" |}
     else
       let key := secret_text (GOOGLE_SEARCH_API_KEY env) in
       let cx := secret_text (GOOGLE_CSE_ID env) in
       response <- call (CallWebSearch key cx query) (search_fetch env key cx query) ;;
       if negb (ok response) then
         throw {| message := lit "Google Search API error: " ++
                             Z_toString (status response) ++ lit " " ++
                             statusText response |}
       else
         data <- await (json response) ;;
         match data with
         | Some items =>
             ret (map (fun item => {| title := title item;
                                      link := link item;
                                      snippet := snippet item |}) items)
         | None => ret []
         end)
    (fun error =>
       emit (ConsoleError (lit "Error in googleSearchTool:") error) ;;;
       ret []).

(** ** The agent *)

Definition db_result_line (r : DbResult) : jsstr :=
  lit "Doc ID: " ++ DocId_toString (doc_id r) ++
  lit ", Source: " ++ dr_source r ++
  lit ", Score: " ++ milli_toString (dr_score r) ++ nl ++ dr_snippet r.

Definition web_result_line (r : SearchItem) : jsstr :=
  title r ++ nl ++ snippet r ++ nl ++ link r.

(** The "Database Results" block of the hybrid context. *)
Definition database_block (dbResults : list DbResult) : jsstr :=
  lit "Database Results:" ++ nl ++
  join (nl ++ nl) (map db_result_line dbResults) ++ nl ++ nl.

(** The "Web Search Results" block of the hybrid context. *)
Definition web_block (webResults : list SearchItem) : jsstr :=
  lit "Web Search Results:" ++ nl ++
  join (nl ++ nl) (map web_result_line webResults).

(** [dbResults.length === 0 || dbResults[0].score < CONFIG.DEFAULT_SCORE_THRESHOLD] *)
Definition db_insufficient (dbResults : list DbResult) : bool :=
  match dbResults with
  | [] => true
  | top :: _ => Qltb (dr_score top) CONFIG.DEFAULT_SCORE_THRESHOLD
  end.

Definition runAgent (query mode : jsstr) (env : Env) : M jsstr :=
  tryCatch
    (dbResults <- dbQueryTool query 5 env ;;
     if jsstr_eqb mode (lit "db-only") then
       match dbResults with
       | [] => ret NOT_IN_DB
       | top :: _ =>
           let topScore := dr_score top in
           if Qltb topScore CONFIG.DEFAULT_SCORE_THRESHOLD then ret NOT_IN_DB
           else
             let context := join (nl ++ nl) (map db_result_line dbResults) in
             c <- callGemini SYSTEM_PROMPT_DB_ONLY query context env ;;
             ret (text c)
       end
     else
       let context0 : jsstr := [] in
       let context1 :=
         match dbResults with
         | [] => context0
         | _ => context0 ++ database_block dbResults
         end in
       context2 <-
         (if db_insufficient dbResults then
            webResults <- googleSearchTool query env ;;
            match webResults with
            | [] => ret context1
            | _ => ret (context1 ++ web_block webResults)
            end
          else ret context1) ;;
       c <- callGemini SYSTEM_PROMPT_HYBRID query context2 env ;;
       ret (text c))
    (fun error =>
       emit (ConsoleError (lit "Error in runAgent:") error) ;;;
       throw error).

(** ** The main query function *)

Record QueryResult := {
  answer : jsstr;
  qr_provenance : option (list ProvenanceEntry);
  qr_raw : option GeminiData
}.

Definition answerQuery (query mode : jsstr) (topK : Z) (scoreThreshold : Q)
    (env : Env) : M QueryResult :=
  tryCatch
    (if jsstr_eqb mode (lit "db-only") then
       matches <- retrieveDocs query topK env ;;
       match matches with
       | [] => ret {| answer := NOT_IN_DB; qr_provenance := Some [];
                      qr_raw := None |}
       | top :: _ =>
           let topScore := score top in
           let snippet := buildContextSnippet matches CONFIG.MAX_CONTEXT_CHARS in
           if Qltb topScore scoreThreshold then
             ret {| answer := NOT_IN_DB;
                    qr_provenance := Some (provenance snippet);
                    qr_raw := None |}
           else
             c <- callGemini SYSTEM_PROMPT_DB_ONLY query (contextText snippet) env ;;
             ret {| answer := text c;
                    qr_provenance := Some (provenance snippet);
                    qr_raw := Some (raw c) |}
       end
     else if jsstr_eqb mode (lit "hybrid") then
       a <- runAgent query mode env ;;
       ret {| answer := a; qr_provenance := None; qr_raw := None |}
     else
       throw {| message := lit "mode must be 'db-only' or 'hybrid'" |})
    (fun error =>
       emit (ConsoleError (lit "Error in answerQuery:") error) ;;;
       throw error).

End QueryHandling.

(* ===================================================================== *)
(** * The worker's [/query] route                                          *)
(* ===================================================================== *)

Module Worker.
Import QueryHandling.

Record SourceDetail := {
  docId : Z;
  sd_source : option jsstr;
  sd_score : Q;
  relevance : jsstr
}.

Record QueryResponse := {
  resp_query : jsstr;
  resp_answer : jsstr;
  resp_sources : list ProvenanceEntry;
  resp_mode : jsstr;
  resp_timestamp : jsstr;
  resp_sourceDetails : option (list SourceDetail)
}.

Inductive HttpReply :=
| JsonReply (body : QueryResponse)
| JsonErrorReply (httpStatus : Z) (error errorMessage : jsstr).

(** [c.req.query(name) || fallback] for a string parameter. *)
Definition param_or (p : option jsstr) (fallback : jsstr) : jsstr :=
  match p with
  | Some s => if truthy s then s else fallback
  | None => fallback
  end.

(** [parseInt(...) || fallback]; [None] stands for [NaN]. *)
Definition int_or (p : option Z) (fallback : Z) : Z :=
  match p with
  | Some n => if n =? 0 then fallback else n
  | None => fallback
  end.

(** [parseFloat(...) || fallback]; [None] stands for [NaN]. *)
Definition float_or (p : option Q) (fallback : Q) : Q :=
  match p with
  | Some x => if Qeq_bool x 0 then fallback else x
  | None => fallback
  end.

Definition relevance_of (s : Q) : jsstr :=
  if Qltb (8 # 10) s then lit "High"
  else if Qltb (6 # 10) s then lit "Medium"
  else lit "Low".

Definition source_detail (src : ProvenanceEntry) : SourceDetail :=
  {| docId := pe_id src;
     sd_source := pe_source src;
     sd_score := pe_score src;
     relevance := relevance_of (pe_score src) |}.

(** The response object built from the result of [answerQuery]. *)
Definition format_response (question mode : jsstr) (result : QueryResult)
    (env : Env) : QueryResponse :=
  {| resp_query := question;
     resp_answer := answer result;
     resp_sources := match qr_provenance result with
                     | Some p => p
                     | None => []
                     end;
     resp_mode := mode;
     resp_timestamp := clock env;
     resp_sourceDetails :=
       match qr_provenance result with
       | Some (e :: rest) => Some (map source_detail (e :: rest))
       | _ => None
       end |}.

(** [app.get("/query", ...)], on the raw query parameters [text], [mode],
    [topK] and [scoreThreshold] (the numeric ones already parsed). *)
Definition query_route (p_text p_mode : option jsstr) (p_topK : option Z)
    (p_scoreThreshold : option Q) (env : Env) : M HttpReply :=
  tryCatch
    (let question := param_or p_text (lit "What is the square root of 9?") in
     let mode := param_or p_mode (lit "hybrid") in
     let topK := int_or p_topK 8 in
     let scoreThreshold := float_or p_scoreThreshold (72 # 100) in
     emit (ConsoleLog (lit "Processing query: " ++ dquote ++ question ++ dquote ++
                       lit " with mode: " ++ mode)) ;;;
     result <- answerQuery question mode topK scoreThreshold env ;;
     ret (JsonReply (format_response question mode result env)))
    (fun error =>
       emit (ConsoleError (lit "Error processing query:") error) ;;;
       ret (JsonErrorReply 500 (lit "Failed to process query") (message error))).

End Worker.

(* ===================================================================== *)
(** * Vocabulary of the statements                                         *)
(* ===================================================================== *)

Module Observations.
Import QueryHandling Worker.

(** What a computation started on an empty log returns, and what it logs. *)
Definition result_of {A} (m : M A) : outcome A := fst (run m).
Definition events_of {A} (m : M A) : trace := snd (run m).

(** A computation only appends to the log, and does the same whatever the
    log held before. *)
Definition extends {A} (m : M A) : Prop :=
  forall t, m t = (result_of m, t ++ events_of m).

(** The events that show that [googleSearchTool] ran: the call to the
    search endpoint, or the error the tool logs when it gives up. *)
Definition web_search_event (ev : event) : bool :=
  match ev with
  | CallWebSearch _ _ _ => true
  | ConsoleError label _ => jsstr_eqb label (lit "Error in googleSearchTool:")
  | _ => false
  end.

Definition web_search_attempted (tr : trace) : bool := existsb web_search_event tr.

Definition completion_event (ev : event) : bool :=
  match ev with
  | CallCompletion _ _ _ _ => true
  | _ => false
  end.

(** The prompts handed to the completion service, in order. *)
Definition completion_prompts (tr : trace) : list jsstr :=
  flat_map (fun ev => match ev with
                      | CallCompletion _ prompt _ _ => [prompt]
                      | _ => []
                      end) tr.

(** The context string of the hybrid flow for given tool results. *)
Definition hybrid_context (dbResults : list DbResult) (webResults : list SearchItem)
    : jsstr :=
  (match dbResults with [] => [] | _ => database_block dbResults end) ++
  (match webResults with [] => [] | _ => web_block webResults end).

(** What the two tools of the hybrid flow hand to the agent. *)
Definition db_results (query : jsstr) (env : Env) : list DbResult :=
  match result_of (dbQueryTool query 5 env) with
  | Returned r => r
  | Thrown _ => []
  end.

Definition web_results (query : jsstr) (env : Env) : list SearchItem :=
  match result_of (googleSearchTool query env) with
  | Returned r => r
  | Thrown _ => []
  end.

(** The web results that reach the hybrid context: those of the search
    when the agent runs it, none otherwise. *)
Definition hybrid_web (query : jsstr) (env : Env) : list SearchItem :=
  if db_insufficient (db_results query env) then web_results query env else [].

(** A log without web search and without completion calls. *)
Definition quiet (tr : trace) : Prop :=
  web_search_attempted tr = false /\ completion_prompts tr = [].

(** The web search service fails for a query: credentials are missing, the
    request is rejected, the reply is not OK, or its body cannot be read. *)
Definition search_fails (env : Env) (query : jsstr) : Prop :=
  secret_truthy (GOOGLE_SEARCH_API_KEY env) = false \/
  secret_truthy (GOOGLE_CSE_ID env) = false \/
  (exists e, search_fetch env (secret_text (GOOGLE_SEARCH_API_KEY env))
                          (secret_text (GOOGLE_CSE_ID env)) query = Thrown e) \/
  (exists r, search_fetch env (secret_text (GOOGLE_SEARCH_API_KEY env))
                          (secret_text (GOOGLE_CSE_ID env)) query = Returned r /\
             (ok r = false \/ exists e, json r = Thrown e)).

(** At least one match, and a top match at or above the threshold. *)
Definition sufficient (matches : list Match) (scoreThreshold : Q) : Prop :=
  match matches with
  | [] => False
  | top :: _ => (scoreThreshold <= score top)%Q
  end.

(** Zero matches, or a top match strictly below the threshold. *)
Definition insufficient (matches : list Match) (scoreThreshold : Q) : Prop :=
  match matches with
  | [] => True
  | top :: _ => (score top < scoreThreshold)%Q
  end.

(** The store record of an index match, when the store has one. *)
Definition hydrate (rows : list Row) (m : VMatch) : list Match :=
  match find (fun r => jsstr_eqb (Z_toString (row_id r)) (vm_id m)) rows with
  | Some doc =>
      [{| document :=
            {| page_content := row_text doc;
               metadata := {| id := row_id doc;
                              source := row_filename doc;
                              chunk_index := row_chunk_index doc;
                              total_chunks := row_total_chunks doc |} |};
          score := vm_score m |}]
  | None => []
  end.

(** Scores in descending order. *)
Definition descending {A} (f : A -> Q) (l : list A) : Prop :=
  StronglySorted (fun a b => (f b <= f a)%Q) l.

(** [p] is the last index at or before [bound] whose character satisfies
    [P], or [-1] when there is none. *)
Definition last_position (P : jschar -> bool) (s : jsstr) (bound p : Z) : Prop :=
  (p = -1 \/ (0 <= p <= bound /\ exists c, nth_error s (Z.to_nat p) = Some c /\ P c = true)) /\
  (forall k c, p < k <= bound -> 0 <= k ->
               nth_error s (Z.to_nat k) = Some c -> P c = false).

Definition is_terminal (c : jschar) : bool :=
  (N.eqb c 46 || N.eqb c 63 || N.eqb c 33)%bool.

Definition is_space (c : jschar) : bool := N.eqb c 32.

(** The windows [(start, end)] that the first [n] passes of the chunking
    loop cut, the chunk a window yields, and the test that keeps a chunk. *)
Fixpoint windows (n : nat) (text : jsstr) (chunkSize overlap start : Z)
    : list (Z * Z) :=
  match n with
  | O => []
  | S n' =>
      let stop := Chunker.window_end text chunkSize start in
      (start, stop) :: windows n' text chunkSize overlap (stop - overlap)
  end.

Definition cut (text : jsstr) (w : Z * Z) : jsstr :=
  trim (slice text (fst w) (snd w)).

Definition nonempty (s : jsstr) : bool := 0 <? strlen s.

(** A decimal digit. *)
Definition is_digit (c : jschar) : bool := ((48 <=? c) && (c <=? 57))%N.

End Observations.

(* ===================================================================== *)
(** * Sample inputs                                                        *)
(* ===================================================================== *)

Module Samples.
Import Chunker QueryHandling Worker Observations.



(** Twenty-one characters with a full stop at index 8. *)
Definition text_stop_at_8 : jsstr := lit "aaaaaaaa.aaaaaaaaaaaa".

Definition three_sentences : jsstr :=
  lit "Sentence one. Sentence two. Sentence three.".

Definition padded_hi : jsstr := lit "  hi  ".

(** A small world: one stored chunk about Mars, an index that ranks the
    given matches, a completion service with a fixed reply, and a search
    service with the given behaviour. *)
Definition question : jsstr := lit "How many moons does Mars have?".

Definition mars_row : Row :=
  {| row_id := 7;
     row_text := lit "  Mars has two moons, Phobos and Deimos.  ";
     row_filename := Some (lit "mars.pdf");
     row_chunk_index := 0;
     row_total_chunks := 2 |}.

Definition venus_row : Row :=
  {| row_id := 9;
     row_text := lit "Venus has no moons.";
     row_filename := Some (lit "venus.pdf");
     row_chunk_index := 1;
     row_total_chunks := 2 |}.

Definition ok_response {D : Type} (d : D) : Response D :=
  {| ok := true; status := 200; statusText := lit "OK"; json := Returned d |}.

Definition moon_item : SearchItem :=
  {| title := lit "Moons of Mars";
     link := lit "https://example.org/mars";
     snippet := lit "Mars has two small moons." |}.

Definition reply_data : GeminiData :=
  {| completion_text := Some (lit "Two: Phobos and Deimos (doc 7).");
     completion_payload := lit "{}" |}.

Definition world (vmatches : list VMatch) (rows : list Row)
    (keys : option jsstr)
    (search : outcome (Response (option (list SearchItem)))) : Env :=
  {| GOOGLE_API_KEY := lit "embedding-key";
     GEMINI_API_KEY := lit "completion-key";
     GOOGLE_SEARCH_API_KEY := keys;
     GOOGLE_CSE_ID := keys;
     embedding_fetch := fun _ => Returned (ok_response (Some (Some [1 # 2; 1 # 4])));
     VECTORIZE_query := fun _ topK =>
       Returned (Some (firstn (Z.to_nat topK) vmatches));
     database_run := fun _ ids =>
       Returned (Some (filter (fun r => existsb (jsstr_eqb (Z_toString (row_id r))) ids)
                              rows));
     completion_fetch := fun _ _ _ => Returned (ok_response reply_data);
     search_fetch := fun _ _ _ => search;
     clock := lit "2025-01-01T00:00:00.000Z" |}.

Definition search_finds_moons : outcome (Response (option (list SearchItem))) :=
  Returned (ok_response (Some [moon_item])).

Definition search_finds_nothing : outcome (Response (option (list SearchItem))) :=
  Returned (ok_response (Some [])).

(** One match for the Mars chunk, with the given score; search works. *)
Definition env_score (s : Q) : Env :=
  world [{| vm_id := lit "7"; vm_score := s |}] [mars_row]
        (Some (lit "search-key")) search_finds_moons.

(** The same world without search credentials. *)
Definition env_no_credentials : Env :=
  world [{| vm_id := lit "7"; vm_score := 5 # 10 |}] [mars_row]
        None search_finds_moons.

(** Nothing stored, nothing found on the web. *)
Definition env_empty : Env :=
  world [] [] (Some (lit "search-key")) search_finds_nothing.

(** Three index matches, the middle one without a stored record. *)
Definition env_partial_store : Env :=
  world [{| vm_id := lit "7"; vm_score := 9 # 10 |};
         {| vm_id := lit "8"; vm_score := 8 # 10 |};
         {| vm_id := lit "9"; vm_score := 6 # 10 |}]
        [venus_row; mars_row]
        (Some (lit "search-key")) search_finds_moons.

Definition mars_match (s : Q) : Match :=
  {| document :=
       {| page_content := lit "  Mars has two moons, Phobos and Deimos.  ";
          metadata := {| id := 7; source := Some (lit "mars.pdf");
                         chunk_index := 0; total_chunks := 2 |} |};
     score := s |}.

Definition venus_match (s : Q) : Match :=
  {| document :=
       {| page_content := lit "Venus has no moons.";
          metadata := {| id := 9; source := Some (lit "venus.pdf");
                         chunk_index := 1; total_chunks := 2 |} |};
     score := s |}.

(** A match whose chunk id is the number 0. *)
Definition match_id_zero : Match :=
  {| document :=
       {| page_content := lit "zero";
          metadata := {| id := 0; source := Some (lit "z.pdf");
                         chunk_index := 0; total_chunks := 1 |} |};
     score := 9 # 10 |}.

(** A match with a chunk of the given text. *)
Definition match_with_text (t : jsstr) : Match :=
  {| document :=
       {| page_content := t;
          metadata := {| id := 3; source := Some (lit "long.pdf");
                         chunk_index := 0; total_chunks := 1 |} |};
     score := 1 # 2 |}.

End Samples.

(* ===================================================================== *)
(** * Further vocabulary                                                   *)
(* ===================================================================== *)

Module MoreObservations.
Import Chunker QueryHandling Worker Observations.

(** [c] is a contiguous part of [s]. *)
Definition occurs_in (c s : jsstr) : Prop :=
  exists pre post, s = pre ++ c ++ post.

(** The number of occurrences of a character. *)
Definition count_char (c : jschar) (s : jsstr) : nat :=
  length (filter (N.eqb c) s).

(** Kinds of outside calls. *)
Definition is_embedding_call (ev : event) : bool :=
  match ev with CallEmbedding _ _ => true | _ => false end.

Definition is_vectorize_call (ev : event) : bool :=
  match ev with CallVectorize _ _ => true | _ => false end.

Definition is_database_call (ev : event) : bool :=
  match ev with CallDatabase _ _ => true | _ => false end.

Definition is_search_call (ev : event) : bool :=
  match ev with CallWebSearch _ _ _ => true | _ => false end.

(** Any call that leaves the worker. *)
Definition is_outside_call (ev : event) : bool :=
  match ev with
  | ConsoleError _ _ | ConsoleLog _ => false
  | _ => true
  end.

(** Every event of the log satisfies [P]. *)
Definition only {A} (P : event -> Prop) (m : M A) : Prop :=
  Forall P (events_of m).

(** A database call binds as many values as its statement has [?]. *)
Definition binds_match_placeholders (ev : event) : Prop :=
  match ev with
  | CallDatabase sql binds => count_char 63%N sql = length binds
  | _ => True
  end.

(** An event that is no trace of a web search. *)
Definition no_web_search (ev : event) : Prop := web_search_event ev = false.


End MoreObservations.

(* ===================================================================== *)
(** * The ingestion side of the worker                                     *)
(* ===================================================================== *)

(** The [/ingest] route, [RAGWorkflow.getActualPdfUrl] and
    [RAGWorkflow.run].  Their calls to the outside (the workflow engine,
    [fetch], the database, the embedding client, the vector index) are
    logged in a trace of their own.  A [console.log] line is recorded by
    its fixed text; the object printed after it is left out. *)

Module Ingestion.
Import Chunker QueryHandling.

(** A value bound to a statement. *)
Inductive SqlValue :=
| SqlText (s : jsstr)
| SqlInteger (n : Z)
| SqlNull.

(** What [VECTORIZE.upsert] receives for one chunk. *)
Record Vector := { v_id : jsstr; v_values : list Q }.

Inductive wevent :=
| WorkflowCreate (text filename pdfUrl : option jsstr)
| StepDo (name : jsstr)
| FetchHead (url : jsstr)
| DatabaseInsert (sql : jsstr) (binds : list SqlValue)
| EmbeddingClient (model : jsstr)
| EmbedQuery (text : jsstr)
| VectorizeUpsert (vectors : list Vector)
| WLog (msg : jsstr)
| WError (label : jsstr) (e : JsError).

Definition wtrace := list wevent.

Definition W (A : Type) : Type := wtrace -> outcome A * wtrace.

Definition wret {A} (a : A) : W A := fun t => (Returned a, t).

Definition wthrow {A} (e : JsError) : W A := fun t => (Thrown e, t).

Definition wbind {A B} (m : W A) (k : A -> W B) : W B :=
  fun t =>
    match m t with
    | (Returned a, t') => k a t'
    | (Thrown e, t') => (Thrown e, t')
    end.

Definition wtry {A} (body : W A) (handler : JsError -> W A) : W A :=
  fun t =>
    match body t with
    | (Returned a, t') => (Returned a, t')
    | (Thrown e, t') => handler e t'
    end.

Definition wemit (ev : wevent) : W unit := fun t => (Returned tt, t ++ [ev]).

Definition wcall {A} (ev : wevent) (o : outcome A) : W A :=
  fun t => (o, t ++ [ev]).

Definition wrun {A} (m : W A) : outcome A * wtrace := m [].

Declare Scope w_scope.
Notation "x <~ m ;; k" := (wbind m (fun x => k))
  (at level 61, m at next level, right associativity) : w_scope.
Notation "m ;;~ k" := (wbind m (fun _ => k))
  (at level 61, right associativity) : w_scope.
Local Open Scope w_scope.

(** The bindings the ingestion side uses, and the answers behind them. *)
Record IngestEnv := {
  (** [RAG_WORKFLOW.create({ params })] *)
  workflow_create : option jsstr -> option jsstr -> option jsstr -> outcome unit;
  (** [fetch(url, { method: 'HEAD' })], by the [content-type] header of the
      reply ([None] when the reply has none) *)
  head_fetch : jsstr -> outcome (option jsstr);
  (** [database.prepare(sql).bind(...).run()], by its [results] *)
  database_insert : jsstr -> list SqlValue -> outcome (option (list Row));
  (** [new GoogleGenerativeAIEmbeddings({ model })] *)
  embedding_client : jsstr -> outcome unit;
  (** [embeddingModel.embedQuery(text)] *)
  embedQuery : jsstr -> outcome (option (list Q));
  VECTORIZE_upsert : list Vector -> outcome unit
}.

(** [!x] for a field of the request body or of the payload. *)
Definition present (o : option jsstr) : bool :=
  match o with Some s => truthy s | None => false end.

Definition text_of (o : option jsstr) : jsstr :=
  match o with Some s => s | None => lit "undefined" end.

(** ** [app.post("/ingest")] *)

Record TextReply := { reply_body : jsstr; reply_status : Z }.

Definition ingest_route (text filename pdfUrl : option jsstr) (env : IngestEnv)
    : W TextReply :=
  if (negb (present text) && negb (present pdfUrl))%bool then
    wret {| reply_body := lit "Missing text or pdfUrl"; reply_status := 400 |}
  else if (present pdfUrl && negb (present filename))%bool then
    wret {| reply_body := lit "Missing filename for PDF"; reply_status := 400 |}
  else
    wcall (WorkflowCreate text filename pdfUrl)
          (workflow_create env text filename pdfUrl) ;;~
    let message := if present pdfUrl
                   then lit "Created PDF note: " ++ text_of filename
                   else lit "Created note" in
    wret {| reply_body := message; reply_status := 201 |}.

(** ** [getActualPdfUrl] *)

Fixpoint starts_with (prefix s : jsstr) : bool :=
  match prefix, s with
  | [], _ => true
  | a :: p, b :: r => (N.eqb a b && starts_with p r)%bool
  | _ :: _, [] => false
  end.

(** [String.prototype.includes]. *)
Fixpoint includes (s needle : jsstr) : bool :=
  (starts_with needle s ||
   match s with
   | [] => false
   | _ :: r => includes r needle
   end)%bool.

(** The longest run of decimal digits at the start of a string. *)
Fixpoint leading_digits (s : jsstr) : jsstr :=
  match s with
  | c :: r => if Observations.is_digit c then c :: leading_digits r else []
  | [] => []
  end.

(** [s.match(/PMC(\d+)/)], by its capture group: the digits after the
    leftmost ["PMC"] that a digit follows. *)
Fixpoint match_PMC (s : jsstr) : option jsstr :=
  match s with
  | [] => None
  | _ :: r =>
      if (starts_with (lit "PMC") s &&
          match skipn 3 s with
          | d :: _ => Observations.is_digit d
          | [] => false
          end)%bool
      then Some (leading_digits (skipn 3 s))
      else match_PMC r
  end.

Definition europepmc_url (pmcId : jsstr) : jsstr :=
  lit "https://europepmc.org/articles/PMC" ++ pmcId ++ lit "/pdf/PMC" ++
  pmcId ++ lit ".pdf".

(** The [for] loop over [possibleUrls]: the first URL whose HEAD reply is a
    PDF, or [None] when the loop runs out. *)
Fixpoint try_urls (urls : list jsstr) (env : IngestEnv) : W (option jsstr) :=
  match urls with
  | [] => wret None
  | url :: rest =>
      found <~ wtry
        (wemit (WLog (lit "Testing PDF URL: " ++ url)) ;;~
         header <~ wcall (FetchHead url) (head_fetch env url) ;;
         let contentType := match header with
                            | Some h => if truthy h then h else []
                            | None => []
                            end in
         if includes contentType (lit "application/pdf") then
           wemit (WLog (lit "Found valid PDF URL: " ++ url)) ;;~
           wret (Some url)
         else wret None)
        (fun error =>
           wemit (WLog (lit "URL " ++ url ++ lit " failed:")) ;;~
           wret None) ;;
      match found with
      | Some u => wret (Some u)
      | None => try_urls rest env
      end
  end.

Definition getActualPdfUrl (viewerUrl : jsstr) (env : IngestEnv) : W (option jsstr) :=
  wtry
    (if includes viewerUrl (lit "pmc.ncbi.nlm.nih.gov") then
       match match_PMC viewerUrl with
       | Some pmcId =>
           let possibleUrls := [europepmc_url pmcId] in
           found <~ try_urls possibleUrls env ;;
           match found with
           | Some u => wret (Some u)
           | None => wret None
           end
       | None => wret None
       end
     else wret None)
    (fun error =>
       wemit (WError (lit "Error getting actual PDF URL:") error) ;;~
       wret None).

(** ** [run] *)

Record Payload := {
  p_text : option jsstr;
  p_filename : option jsstr;
  p_pdfUrl : option jsstr
}.

(** [step.do(name, callback)]: the engine is told the step, the callback
    runs, and what it returns or throws is handed back.  The retries of the
    engine are not part of the model. *)
Definition step_do {A} (name : jsstr) (callback : W A) : W A :=
  wemit (StepDo name) ;;~ callback.

(** The first step.  [pdf_branch] is the body of its [try] block, which
    fetches the document and runs the extractors; it is a parameter of the
    model. *)
Definition extract_step (pdf_branch : jsstr -> W jsstr) (payload : Payload)
    : W (option jsstr) :=
  match p_pdfUrl payload with
  | Some url =>
      if truthy url then
        wtry (t <~ pdf_branch url ;; wret (Some t))
             (fun error =>
                wemit (WError (lit "Error processing PDF:") error) ;;~
                wthrow {| message := lit "Failed to process PDF: " ++ message error |})
      else wret (p_text payload)
  | None => wret (p_text payload)
  end.

(** [this.chunkTextWithMetadata(extractedText, filenameToStore, 8000, 500)].
    The loop of [chunkText] ends within [len(text)] passes for these sizes,
    so that much fuel is given. *)
Definition chunk_pieces (extractedText filenameToStore : jsstr)
    : list ChunkWithMetadata :=
  match chunkTextWithMetadata (length extractedText) extractedText
          filenameToStore 8000 500 with
  | Some pieces => pieces
  | None => []
  end.

Definition chunk_step (extractedText : option jsstr) (payload : Payload)
    : W (list ChunkWithMetadata) :=
  let filenameToStore := match p_filename payload with
                         | Some f => if truthy f then f else lit "untitled"
                         | None => lit "untitled"
                         end in
  match extractedText with
  | Some t =>
      let chunkedData := chunk_pieces t filenameToStore in
      wemit (WLog (lit "Text chunked into " ++
                   Z_toString (Z.of_nat (length chunkedData)) ++
                   lit " chunks (8k chunks to minimize API calls)")) ;;~
      wret chunkedData
  | None => wthrow TypeError_undefined
  end.

Definition INSERT_SQL : jsstr :=
  lit "INSERT INTO pdfs (text, filename, pdf_url, chunk_index, total_chunks, chunk_size, original_text_length) VALUES (?, ?, ?, ?, ?, ?, ?) RETURNING *".

Definition insert_binds (pdfUrlToStore : SqlValue) (chunkData : ChunkWithMetadata)
    : list SqlValue :=
  [SqlText (cwm_text chunkData);
   SqlText (cm_filename (cwm_metadata chunkData));
   pdfUrlToStore;
   SqlInteger (cm_chunkIndex (cwm_metadata chunkData));
   SqlInteger (cm_totalChunks (cwm_metadata chunkData));
   SqlInteger (cm_chunkSize (cwm_metadata chunkData));
   SqlInteger (cm_originalTextLength (cwm_metadata chunkData))].

(** The [for] loop of the third step. *)
Fixpoint insert_loop (pdfUrlToStore : SqlValue) (chunks : list ChunkWithMetadata)
    (records : list Row) (env : IngestEnv) : W (list Row) :=
  match chunks with
  | [] => wret records
  | chunkData :: rest =>
      wemit (WLog (lit "Inserting chunk into database:")) ;;~
      results <~ wcall (DatabaseInsert INSERT_SQL (insert_binds pdfUrlToStore chunkData))
                       (database_insert env INSERT_SQL
                          (insert_binds pdfUrlToStore chunkData)) ;;
      match results with
      | None => wthrow TypeError_undefined
      | Some [] =>
          wthrow {| message := lit "Failed to create chunk record - no record returned" |}
      | Some (record :: _) =>
          insert_loop pdfUrlToStore rest (records ++ [record]) env
      end
  end.

Definition records_step (chunks : list ChunkWithMetadata) (payload : Payload)
    (env : IngestEnv) : W (list Row) :=
  wtry
    (let pdfUrlToStore := match p_pdfUrl payload with
                          | Some u => if truthy u then SqlText u else SqlNull
                          | None => SqlNull
                          end in
     records <~ insert_loop pdfUrlToStore chunks [] env ;;
     wemit (WLog (lit "Created " ++ Z_toString (Z.of_nat (length records)) ++
                  lit " database records for chunks")) ;;~
     wret records)
    (fun error =>
       wemit (WError (lit "Database insertion error:") error) ;;~
       wthrow error).

Record ChunkEmbedding := {
  ce_id : jsstr;
  ce_values : list Q;
  ce_chunkIndex : Z;
  ce_filename : jsstr
}.

(** The [for] loop of the fourth step, from index [i] on. *)
Fixpoint embed_loop (chunks : list ChunkWithMetadata) (i : Z) (total : Z)
    (records : list Row) (chunkEmbeddings : list ChunkEmbedding) (env : IngestEnv)
    : W (list ChunkEmbedding) :=
  match chunks with
  | [] => wret chunkEmbeddings
  | chunk :: rest =>
      wemit (WLog (lit "Generating embedding for chunk " ++ Z_toString (i + 1) ++
                   lit "/" ++ Z_toString total ++ lit ":")) ;;~
      values <~ wcall (EmbedQuery (cwm_text chunk)) (embedQuery env (cwm_text chunk)) ;;
      match values with
      | None =>
          wthrow {| message := lit "Failed to generate vector embedding for chunk " ++
                               Z_toString (i + 1) |}
      | Some vals =>
          match nth_error records (Z.to_nat i) with
          | None => wthrow TypeError_undefined
          | Some record =>
              embed_loop rest (i + 1) total records
                (chunkEmbeddings ++
                 [{| ce_id := Z_toString (row_id record);
                     ce_values := vals;
                     ce_chunkIndex := cm_chunkIndex (cwm_metadata chunk);
                     ce_filename := cm_filename (cwm_metadata chunk) |}])
                env
          end
      end
  end.

Definition embeddings_step (chunks : list ChunkWithMetadata) (records : list Row)
    (env : IngestEnv) : W (list ChunkEmbedding) :=
  wtry
    (wemit (WLog (lit "Generating embeddings for " ++
                  Z_toString (Z.of_nat (length chunks)) ++ lit " chunks")) ;;~
     wcall (EmbeddingClient (lit "text-embedding-004"))
           (embedding_client env (lit "text-embedding-004")) ;;~
     chunkEmbeddings <~ embed_loop chunks 0 (Z.of_nat (length chunks)) records [] env ;;
     wemit (WLog (lit "Embeddings generated successfully for " ++
                  Z_toString (Z.of_nat (length chunkEmbeddings)) ++
                  lit " chunks, dimensions:")) ;;~
     wret chunkEmbeddings)
    (fun error =>
       wemit (WError (lit "Embedding generation error:") error) ;;~
       wthrow error).

Definition vectors_step (embeddings : list ChunkEmbedding) (env : IngestEnv)
    : W unit :=
  wtry
    (let vectorData := map (fun embedding => {| v_id := ce_id embedding;
                                                v_values := ce_values embedding |})
                           embeddings in
     wemit (WLog (lit "Inserting " ++ Z_toString (Z.of_nat (length vectorData)) ++
                  lit " vectors into Vectorize")) ;;~
     wcall (VectorizeUpsert vectorData) (VECTORIZE_upsert env vectorData))
    (fun error =>
       wemit (WError (lit "Vector insertion error:") error) ;;~
       wthrow error).

Definition run (pdf_branch : jsstr -> W jsstr) (payload : Payload) (env : IngestEnv)
    : W unit :=
  wemit (WLog (lit "RAGWorkflow started with payload:")) ;;~
  extractedText <~ step_do (lit "extract text from PDF")
                           (extract_step pdf_branch payload) ;;
  chunks <~ step_do (lit "chunk text") (chunk_step extractedText payload) ;;
  records <~ step_do (lit "create database records for chunks")
                     (records_step chunks payload env) ;;
  embeddings <~ step_do (lit "generate embeddings for chunks")
                        (embeddings_step chunks records env) ;;
  step_do (lit "insert vectors for all chunks") (vectors_step embeddings env).

End Ingestion.

(* ===================================================================== *)
(** * Vocabulary for the ingestion side                                    *)
(* ===================================================================== *)

Module IngestionObservations.
Import Chunker QueryHandling Ingestion Observations.

Definition w_result {A} (m : W A) : outcome A := fst (wrun m).
Definition w_events {A} (m : W A) : wtrace := snd (wrun m).

Definition wextends {A} (m : W A) : Prop :=
  forall t, m t = (w_result m, t ++ w_events m).

(** The calls to the services, without the log lines and step marks. *)
Definition is_service_call (ev : wevent) : bool :=
  match ev with
  | WLog _ | WError _ _ | StepDo _ => false
  | _ => true
  end.

Definition service_calls (tr : wtrace) : wtrace := filter is_service_call tr.

Definition insert_call (pdfUrlToStore : SqlValue) (piece : ChunkWithMetadata)
    : wevent :=
  DatabaseInsert INSERT_SQL (insert_binds pdfUrlToStore piece).

Definition embed_call (piece : ChunkWithMetadata) : wevent :=
  EmbedQuery (cwm_text piece).

(** The insert of a piece returned [record] as its first row. *)
Definition inserted (env : IngestEnv) (pdfUrlToStore : SqlValue)
    (piece : ChunkWithMetadata) (record : Row) : Prop :=
  exists more,
    database_insert env INSERT_SQL (insert_binds pdfUrlToStore piece)
      = Returned (Some (record :: more)).

(** The embedding of a piece returned [values]. *)
Definition embedded (env : IngestEnv) (piece : ChunkWithMetadata)
    (values : list Q) : Prop :=
  embedQuery env (cwm_text piece) = Returned (Some values).

(** The vector of a piece: the id of its record, the values of its
    embedding. *)
Definition vector_of (record : Row) (values : list Q) : Vector :=
  {| v_id := Z_toString (row_id record); v_values := values |}.

Fixpoint vectors_of (records : list Row) (valuess : list (list Q)) : list Vector :=
  match records, valuess with
  | r :: rs, v :: vs => vector_of r v :: vectors_of rs vs
  | _, _ => []
  end.

(** What the last step makes of an embedding. *)
Definition as_vector (embedding : ChunkEmbedding) : Vector :=
  {| v_id := ce_id embedding; v_values := ce_values embedding |}.

(** [filename || 'untitled']: the name the chunks are stored under. *)
Definition stored_filename (payload : Payload) : jsstr :=
  match p_filename payload with
  | Some f => if truthy f then f else lit "untitled"
  | None => lit "untitled"
  end.

(** The service calls of a run over [pieces] in which every insert gave
    its record and every embedding its values: the inserts in order, the
    embedding client, the embeddings in order, one upsert. *)
Definition workflow_calls (pieces : list ChunkWithMetadata) (records : list Row)
    (valuess : list (list Q)) : wtrace :=
  map (insert_call SqlNull) pieces ++
  [EmbeddingClient (lit "text-embedding-004")] ++
  map embed_call pieces ++
  [VectorizeUpsert (vectors_of records valuess)].

(** A branch for payloads that have no document to fetch. *)
Definition no_pdf_branch (url : jsstr) : W jsstr :=
  wthrow {| message := lit "unreachable" |}.

End IngestionObservations.

(* ===================================================================== *)
(** * Further sample inputs                                                *)
(* ===================================================================== *)

Module MoreSamples.
Import QueryHandling Worker Observations Samples.

Definition bad_gateway {D : Type} : Response D :=
  {| ok := false; status := 502; statusText := lit "Bad Gateway";
     json := Thrown {| message := lit "no body" |} |}.

Definition timeout_error : JsError := {| message := lit "network timeout" |}.

(** The world of [env] with another embedding service. *)
Definition with_embedding (env : Env)
    (f : jsstr -> outcome (Response (option (option (list Q))))) : Env :=
  {| GOOGLE_API_KEY := GOOGLE_API_KEY env;
     GEMINI_API_KEY := GEMINI_API_KEY env;
     GOOGLE_SEARCH_API_KEY := GOOGLE_SEARCH_API_KEY env;
     GOOGLE_CSE_ID := GOOGLE_CSE_ID env;
     embedding_fetch := f;
     VECTORIZE_query := VECTORIZE_query env;
     database_run := database_run env;
     completion_fetch := completion_fetch env;
     search_fetch := search_fetch env;
     clock := clock env |}.

(** The world of [env] with another completion service. *)
Definition with_completion (env : Env)
    (f : jsstr -> Q -> Z -> outcome (Response GeminiData)) : Env :=
  {| GOOGLE_API_KEY := GOOGLE_API_KEY env;
     GEMINI_API_KEY := GEMINI_API_KEY env;
     GOOGLE_SEARCH_API_KEY := GOOGLE_SEARCH_API_KEY env;
     GOOGLE_CSE_ID := GOOGLE_CSE_ID env;
     embedding_fetch := embedding_fetch env;
     VECTORIZE_query := VECTORIZE_query env;
     database_run := database_run env;
     completion_fetch := f;
     search_fetch := search_fetch env;
     clock := clock env |}.

(** The embedding service answers 502. *)
Definition env_embedding_down : Env :=
  with_embedding (env_score (9 # 10)) (fun _ => Returned bad_gateway).

(** The embedding service cannot be reached. *)
Definition env_embedding_unreachable : Env :=
  with_embedding (env_score (9 # 10)) (fun _ => Thrown timeout_error).

(** The completion service answers 502. *)
Definition env_completion_down : Env :=
  with_completion (env_score (9 # 10)) (fun _ _ _ => Returned bad_gateway).

(** An ingestion world: the database numbers the rows from [first_id] on in
    the order of [chunk_index], every text embeds to the same vector, and
    every service answers. *)
Definition stored_row (first_id : Z) (binds : list Ingestion.SqlValue) : Row :=
  match binds with
  | [Ingestion.SqlText t; Ingestion.SqlText f; _; Ingestion.SqlInteger i;
     Ingestion.SqlInteger n; _; _] =>
      {| row_id := first_id + i; row_text := t; row_filename := Some f;
         row_chunk_index := i; row_total_chunks := n |}
  | _ => mars_row
  end.

Definition ingest_world : Ingestion.IngestEnv :=
  {| Ingestion.workflow_create := fun _ _ _ => Returned tt;
     Ingestion.head_fetch := fun _ => Returned (Some (lit "application/pdf"));
     Ingestion.database_insert := fun _ binds => Returned (Some [stored_row 41 binds]);
     Ingestion.embedding_client := fun _ => Returned tt;
     Ingestion.embedQuery := fun _ => Returned (Some [1 # 2; 1 # 4]);
     Ingestion.VECTORIZE_upsert := fun _ => Returned tt |}.

(** The same world with a database that returns no row. *)
Definition ingest_world_no_row : Ingestion.IngestEnv :=
  {| Ingestion.workflow_create := fun _ _ _ => Returned tt;
     Ingestion.head_fetch := fun _ => Returned (Some (lit "application/pdf"));
     Ingestion.database_insert := fun _ _ => Returned (Some []);
     Ingestion.embedding_client := fun _ => Returned tt;
     Ingestion.embedQuery := fun _ => Returned (Some [1 # 2; 1 # 4]);
     Ingestion.VECTORIZE_upsert := fun _ => Returned tt |}.

Definition note_payload : Ingestion.Payload :=
  {| Ingestion.p_text := Some (lit "Mars has two moons.");
     Ingestion.p_filename := Some (lit "mars.txt");
     Ingestion.p_pdfUrl := None |}.

Definition pmc_viewer_url : jsstr :=
  lit "https://pmc.ncbi.nlm.nih.gov/articles/PMC1234567/".

End MoreSamples.

(* ===================================================================== *)
(** * Properties of the string primitives                                  *)
(* ===================================================================== *)

Import Chunker QueryHandling Worker Observations Samples.

Section StringFacts.

Lemma strlen_nonneg (s : jsstr) : 0 <= strlen s.
Proof. unfold strlen. lia. Qed.

Lemma strlen_zero_nil (s : jsstr) : strlen s = 0 -> s = [].
Proof. destruct s; [reflexivity | unfold strlen; simpl; lia]. Qed.

Lemma trimStart_head (s : jsstr) :
  match trimStart s with [] => True | c :: _ => is_ws c = false end.
Proof.
  induction s as [|c r IH]; simpl; [exact I|].
  destruct (is_ws c) eqn:E; [exact IH | exact E].
Qed.

Lemma trimStart_suffix (s : jsstr) : exists pre, s = pre ++ trimStart s.
Proof.
  induction s as [|c r [pre IH]]; simpl.
  - exists []. reflexivity.
  - destruct (is_ws c).
    + exists (c :: pre). simpl. f_equal. exact IH.
    + exists []. reflexivity.
Qed.

Lemma trimEnd_prefix (s : jsstr) : exists post, s = trimEnd s ++ post.
Proof.
  unfold trimEnd. destruct (trimStart_suffix (rev s)) as [pre H].
  exists (rev pre). rewrite <- rev_app_distr, <- H, rev_involutive. reflexivity.
Qed.

Lemma trim_trimmed (s : jsstr) : trimmed (trim s).
Proof.
  unfold trimmed, trim. split.
  - destruct (trimEnd_prefix (trimStart s)) as [post H].
    destruct (trimEnd (trimStart s)) as [|c u] eqn:E; [exact I|].
    pose proof (trimStart_head s) as Hh. rewrite H in Hh. exact Hh.
  - unfold trimEnd. rewrite rev_involutive. apply trimStart_head.
Qed.

Lemma trimStart_fixed (s : jsstr) :
  match s with [] => True | c :: _ => is_ws c = false end -> trimStart s = s.
Proof. destruct s as [|c r]; simpl; [reflexivity|]. intros ->. reflexivity. Qed.

Lemma trim_fixed (s : jsstr) : trimmed s -> trim s = s.
Proof.
  intros [Hh Ht]. unfold trim, trimEnd.
  rewrite (trimStart_fixed s Hh), (trimStart_fixed (rev s) Ht).
  apply rev_involutive.
Qed.

(** [lastIndexOf] finds the last occurrence at or before the bound. *)
Lemma lastIndexOf_from_spec (c : jschar) (s : jsstr) :
  forall i bound acc, acc < i ->
    let r := lastIndexOf_from c s i bound acc in
    (r = acc \/ (i <= r <= bound /\ nth_error s (Z.to_nat (r - i)) = Some c)) /\
    (forall k, r < k <= bound -> i <= k ->
               nth_error s (Z.to_nat (k - i)) <> Some c).
Proof.
  induction s as [|x rest IH]; intros i bound acc Hacc; cbn zeta.
  - simpl. split; [left; reflexivity|].
    intros k _ _. destruct (Z.to_nat (k - i)); discriminate.
  - cbn [lastIndexOf_from].
    set (acc' := if (N.eqb x c && (i <=? bound))%bool then i else acc).
    assert (Hacc' : acc' < i + 1).
    { unfold acc'. destruct (N.eqb x c && (i <=? bound))%bool; lia. }
    destruct (IH (i + 1) bound acc' Hacc') as [H1 H2].
    set (r := lastIndexOf_from c rest (i + 1) bound acc') in *.
    split.
    + destruct H1 as [H1 | [H1 H1']].
      * rewrite H1. unfold acc'.
        destruct (N.eqb x c) eqn:Ex; simpl; [|left; reflexivity].
        destruct (i <=? bound) eqn:Eb; [|left; reflexivity].
        right. apply N.eqb_eq in Ex. apply Z.leb_le in Eb. subst x.
        replace (i - i) with 0 by lia. simpl. split; [lia | reflexivity].
      * right. split; [lia|].
        replace (Z.to_nat (r - i)) with (S (Z.to_nat (r - (i + 1)))) by lia.
        exact H1'.
    + intros k Hk Hik.
      assert (Hr : acc' <= r) by (destruct H1 as [-> | [? _]]; lia).
      destruct (Z.eq_dec k i) as [-> | Hne].
      * replace (i - i) with 0 by lia. simpl. intros E. injection E as ->.
        unfold acc' in Hr. rewrite N.eqb_refl in Hr.
        destruct (i <=? bound) eqn:Eb; simpl in Hr; [lia|].
        apply Z.leb_gt in Eb. lia.
      * replace (Z.to_nat (k - i)) with (S (Z.to_nat (k - (i + 1)))) by lia.
        simpl. apply H2; lia.
Qed.

Lemma lastIndexOf_last_position (s : jsstr) (c : jschar) (bound : Z) :
  0 <= bound ->
  last_position (fun x => N.eqb x c) s bound (lastIndexOf s c bound).
Proof.
  intros Hb. unfold lastIndexOf. rewrite Z.max_l by lia.
  destruct (lastIndexOf_from_spec c s 0 bound (-1) ltac:(lia)) as [H1 H2].
  set (r := lastIndexOf_from c s 0 bound (-1)) in *.
  split.
  - destruct H1 as [H1 | [H1 H1']]; [left; exact H1|].
    right. split; [lia|]. exists c. rewrite Z.sub_0_r in H1'.
    split; [exact H1' | apply N.eqb_refl].
  - intros k x Hk Hk0 Hx. destruct (N.eqb x c) eqn:E; [|reflexivity].
    apply N.eqb_eq in E. subst x. exfalso.
    apply (H2 k); [lia | lia |]. rewrite Z.sub_0_r. exact Hx.
Qed.

Lemma last_position_lower (P : jschar -> bool) s bound p :
  last_position P s bound p -> -1 <= p.
Proof. intros [[-> | [H _]] _]; lia. Qed.

Lemma last_position_max (P R : jschar -> bool) s bound p q :
  last_position P s bound p -> last_position R s bound q ->
  last_position (fun c => (P c || R c)%bool) s bound (Z.max p q).
Proof.
  intros Hp Hq.
  pose proof (last_position_lower _ _ _ _ Hp) as Lp.
  pose proof (last_position_lower _ _ _ _ Hq) as Lq.
  destruct Hp as [Hp1 Hp2], Hq as [Hq1 Hq2]. split.
  - destruct (Z.max_spec p q) as [[_ ->] | [_ ->]].
    + destruct Hq1 as [-> | [Hq1 [c [Hc Hc']]]]; [left; reflexivity|].
      right. split; [exact Hq1|]. exists c. rewrite Hc'.
      split; [exact Hc | apply orb_true_r].
    + destruct Hp1 as [-> | [Hp1 [c [Hc Hc']]]]; [left; reflexivity|].
      right. split; [exact Hp1|]. exists c. rewrite Hc'.
      split; [exact Hc | reflexivity].
  - intros k c Hk Hk0 Hc.
    rewrite (Hp2 k c), (Hq2 k c); auto; lia.
Qed.


Lemma last_position_ext (P R : jschar -> bool) s bound p :
  (forall c, P c = R c) -> last_position P s bound p -> last_position R s bound p.
Proof.
  intros E [H1 H2]. split.
  - destruct H1 as [-> | [H1 [c [Hc Hc']]]]; [left; reflexivity|].
    right. split; [exact H1|]. exists c. rewrite <- E. auto.
  - intros k c Hk Hk0 Hc. rewrite <- E. eauto.
Qed.

End StringFacts.

(* ===================================================================== *)
(** * The chunker: boundary search                                         *)
(* ===================================================================== *)

Lemma Qltb_lt (x y : Q) : Qltb x y = true <-> (x < y)%Q.
Proof.
  unfold Qltb. rewrite negb_true_iff. split.
  - intros H. apply Qnot_le_lt. intros L. apply Qle_bool_iff in L. congruence.
  - intros H. destruct (Qle_bool y x) eqn:E; [|reflexivity].
    apply Qle_bool_iff in E. exfalso. exact (Qlt_not_le _ _ H E).
Qed.

Lemma Qltb_ge (x y : Q) : Qltb x y = false <-> (y <= x)%Q.
Proof.
  unfold Qltb. rewrite negb_false_iff. apply Qle_bool_iff.
Qed.

Lemma floor_lt_7 (start chunkSize p : Z) :
  Qltb (boundary_floor start chunkSize (7 # 10)) (inject_Z p) = true <->
  10 * start + 7 * chunkSize < 10 * p.
Proof.
  rewrite Qltb_lt. unfold boundary_floor, Qlt, Qplus, Qmult, inject_Z.
  cbn [Qnum Qden Pos.mul]. lia.
Qed.


Lemma floor_lt_8 (start chunkSize p : Z) :
  Qltb (boundary_floor start chunkSize (8 # 10)) (inject_Z p) = true <->
  10 * start + 8 * chunkSize < 10 * p.
Proof.
  rewrite Qltb_lt. unfold boundary_floor, Qlt, Qplus, Qmult, inject_Z.
  cbn [Qnum Qden Pos.mul]. lia.
Qed.


Lemma lastSentenceEnd_last_position (text : jsstr) (stop : Z) :
  0 <= stop -> last_position is_terminal text stop (lastSentenceEnd text stop).
Proof.
  intros H. unfold lastSentenceEnd, max3.
  apply (last_position_ext
           (fun c => ((N.eqb c 46 || N.eqb c 63) || N.eqb c 33)%bool)).
  - intros c. reflexivity.
  - apply (last_position_max (fun c => (N.eqb c 46 || N.eqb c 63)%bool)).
    + apply (last_position_max (fun c => N.eqb c 46) (fun c => N.eqb c 63));
        apply lastIndexOf_last_position; exact H.
    + apply lastIndexOf_last_position; exact H.
Qed.

Lemma lastSpace_last_position (text : jsstr) (stop : Z) :
  0 <= stop -> last_position is_space text stop (lastIndexOf text 32%N stop).
Proof. intros H. apply lastIndexOf_last_position. exact H. Qed.




(* ===================================================================== *)
(** * The chunker: the loop                                                *)
(* ===================================================================== *)

Section ChunkLoop.
Variables (text : jsstr) (chunkSize overlap : Z).


Lemma state_after_S (n : nat) (st : Z * list jsstr) :
  state_after (S n) text chunkSize overlap st =
  state_after n text chunkSize overlap (chunk_iter text chunkSize overlap st).
Proof. reflexivity. Qed.

(** What the loop returns is the chunk list of the state after some number
    of passes, the first state whose [start] is at or past the end. *)
Lemma chunk_loop_some (fuel : nat) :
  forall st chunks,
    chunk_loop fuel text chunkSize overlap st = Some chunks ->
    exists n, (n <= fuel)%nat /\
              snd (state_after n text chunkSize overlap st) = chunks /\
              strlen text <= fst (state_after n text chunkSize overlap st) /\
              forall m, (m < n)%nat ->
                fst (state_after m text chunkSize overlap st) < strlen text.
Proof.
  induction fuel as [|fuel IH]; intros st chunks H; simpl in H.
  - destruct (fst st <? strlen text) eqn:E; [discriminate|].
    injection H as <-. exists O. apply Z.ltb_ge in E.
    repeat split; auto. intros m Hm. lia.
  - destruct (fst st <? strlen text) eqn:E.
    + destruct (fst (chunk_iter text chunkSize overlap st) >=? strlen text) eqn:E'.
      * injection H as <-. exists 1%nat. apply Z.geb_le in E'.
        repeat split; auto; [lia|]. intros m Hm.
        assert (m = O) by lia. subst m. apply Z.ltb_lt in E. exact E.
      * destruct (IH _ _ H) as [n [Hn [H1 [H2 H3]]]].
        exists (S n). rewrite state_after_S.
        repeat split; auto; [lia|]. intros [|m] Hm.
        -- apply Z.ltb_lt in E. exact E.
        -- rewrite state_after_S. apply H3. lia.
    + injection H as <-. exists O. apply Z.ltb_ge in E.
      repeat split; auto; [lia|]. intros m Hm. lia.
Qed.

(** The chunk list after [n] passes: the kept cuts of the first [n] windows. *)
Lemma state_after_windows (n : nat) :
  forall start acc,
    snd (state_after n text chunkSize overlap (start, acc)) =
    acc ++ filter nonempty (map (cut text) (windows n text chunkSize overlap start)).
Proof.
  induction n as [|n IH]; intros start acc.
  - simpl. rewrite app_nil_r. reflexivity.
  - rewrite state_after_S. unfold chunk_iter at 1. cbn [windows map filter].
    rewrite IH. unfold cut at 2, nonempty at 2. cbn [fst snd].
    destruct (0 <? strlen (trim (slice text start
                (window_end text chunkSize start)))).
    + rewrite <- app_assoc. reflexivity.
    + reflexivity.
Qed.

Lemma kept_cuts_trimmed (ws : list (Z * Z)) :
  Forall (fun c => trimmed c /\ c <> [])
         (filter nonempty (map (cut text) ws)).
Proof.
  induction ws as [|w ws IH]; simpl; [constructor|].
  destruct (nonempty (cut text w)) eqn:E; [|exact IH].
  constructor; [|exact IH]. split.
  - apply trim_trimmed.
  - intros Hnil. rewrite Hnil in E. discriminate.
Qed.

(** Under the progress condition every pass moves [start] forward. *)
Lemma window_end_progress (start : Z) :
  0 < chunkSize -> 10 * overlap <= 7 * chunkSize ->
  start < window_end text chunkSize start - overlap.
Proof.
  intros Hc Ho. unfold window_end. cbn zeta.
  destruct (start + chunkSize <? strlen text); [|lia].
  destruct (Qltb _ (inject_Z (lastSentenceEnd _ _))) eqn:E1.
  - apply floor_lt_7 in E1. lia.
  - destruct (Qltb _ (inject_Z (lastIndexOf _ _ _))) eqn:E2; [|lia].
    apply floor_lt_8 in E2. lia.
Qed.

Lemma chunk_loop_terminates (fuel : nat) :
  0 < chunkSize -> 10 * overlap <= 7 * chunkSize ->
  forall st, strlen text - fst st <= Z.of_nat fuel ->
    exists chunks, chunk_loop fuel text chunkSize overlap st = Some chunks.
Proof.
  intros Hc Ho. induction fuel as [|fuel IH]; intros [start acc] Hf;
    cbn [fst] in Hf; cbn [chunk_loop fst].
  - destruct (start <? strlen text) eqn:E; [|eauto].
    apply Z.ltb_lt in E. lia.
  - destruct (start <? strlen text) eqn:E; [|eauto].
    destruct (fst (chunk_iter text chunkSize overlap (start, acc)) >=? strlen text);
      [eauto|].
    apply IH. unfold chunk_iter. cbn [fst].
    pose proof (window_end_progress start Hc Ho). lia.
Qed.

End ChunkLoop.

Lemma mapi_from_length {A B} (f : A -> Z -> B) (l : list A) :
  forall i, length (mapi_from f i l) = length l.
Proof. induction l as [|a r IH]; intros i; simpl; [|rewrite IH]; reflexivity. Qed.

Lemma decorate_texts (text filename : jsstr) (chunks : list jsstr) :
  map cwm_text (decorate text filename chunks) = chunks.
Proof.
  unfold decorate, mapi. generalize 0. generalize (Z.of_nat (length chunks)).
  induction chunks as [|c r IH]; intros n i; simpl; [|rewrite IH]; reflexivity.
Qed.

Lemma decorate_totals (text filename : jsstr) (chunks : list jsstr) :
  Forall (fun m => cm_totalChunks (cwm_metadata m) = Z.of_nat (length chunks))
         (decorate text filename chunks).
Proof.
  unfold decorate, mapi. generalize 0. generalize (Z.of_nat (length chunks)).
  induction chunks as [|c r IH]; intros n i; simpl; constructor; auto.
Qed.

(* ===================================================================== *)
(** * The chunker: progress, termination, shape of the chunks              *)
(* ===================================================================== *)

(** C5, as amended.  For every text and every configuration with a
    positive [chunkSize] and an [overlap] of at most [0.7 * chunkSize],
    every pass of the loop moves [start] strictly forward, and
    [chunkText] returns once it has as much fuel as the text has
    characters; for a text longer than [chunkSize] the loop is left at the
    first state whose [start] has reached [len(text)]. *)
Theorem chunkText_progress_and_termination (text : jsstr) (chunkSize overlap : Z) :
  0 < chunkSize ->
  10 * overlap <= 7 * chunkSize ->
  (forall start chunks,
     start < fst (chunk_iter text chunkSize overlap (start, chunks))) /\
  (exists chunks,
     (forall fuel, (length text <= fuel)%nat ->
        chunkText fuel text chunkSize overlap = Some chunks) /\
     (chunkSize < strlen text ->
        exists n, (n <= length text)%nat /\
          snd (state_after n text chunkSize overlap (0, [])) = chunks /\
          strlen text <= fst (state_after n text chunkSize overlap (0, [])) /\
          forall m, (m < n)%nat ->
            fst (state_after m text chunkSize overlap (0, [])) < strlen text)).
Proof.
  intros Hc Ho. split.
  - intros start chunks. unfold chunk_iter. cbn [fst].
    apply window_end_progress; assumption.
  - unfold chunkText.
    destruct (negb (truthy text) || (strlen text <=? chunkSize))%bool eqn:E.
    + exists [text]. split; [reflexivity|].
      intros Hlong. apply orb_true_iff in E. destruct E as [E | E].
      * destruct text; [unfold strlen in Hlong; simpl in Hlong; lia | discriminate].
      * apply Z.leb_le in E. lia.
    + destruct (chunk_loop_terminates text chunkSize overlap (length text) Hc Ho
                  (0, [])) as [chunks Hrun].
      { cbn [fst]. unfold strlen. lia. }
      destruct (chunk_loop_some _ _ _ _ _ _ Hrun) as [n [Hn [H1 [H2 H3]]]].
      exists chunks. split.
      * intros fuel Hfuel.
        destruct (chunk_loop_terminates text chunkSize overlap fuel Hc Ho
                    (0, [])) as [chunks' Hrun'].
        { cbn [fst]. unfold strlen. lia. }
        rewrite Hrun'. f_equal.
        destruct (chunk_loop_some _ _ _ _ _ _ Hrun') as [n' [_ [H1' [H2' H3']]]].
        assert (n = n').
        { destruct (Nat.lt_trichotomy n n') as [L | [L | L]]; [| exact L |].
          - specialize (H3' n L). lia.
          - specialize (H3 n' L). lia. }
        subst n'. rewrite <- H1, <- H1'. reflexivity.
      * intros _. exists n. auto.
Qed.

Lemma chunkText_progress_and_termination_witness :
  (forall start chunks,
     start < fst (chunk_iter three_sentences 20 5 (start, chunks))) /\
  exists chunks,
    chunkText (length three_sentences) three_sentences 20 5 = Some chunks.
Proof.
  destruct (chunkText_progress_and_termination three_sentences 20 5
              ltac:(lia) ltac:(lia)) as [Hprog [chunks [Hrun _]]].
  split; [exact Hprog|]. exists chunks. apply Hrun. apply Nat.le_refl.
Defined.

(** C5, as stated, fails.  With [chunkSize = 10] and [overlap = 9] (strictly
    less), on a text whose first window ends after the full stop at index
    8, the pass leaves [start] at 0 and the loop never ends. *)
Lemma chunkText_overlap_below_size_stalls :
  9 < 10 /\
  fst (chunk_iter text_stop_at_8 10 9 (0, [])) = 0 /\
  (forall fuel, chunkText fuel text_stop_at_8 10 9 = None).
Proof.
  assert (E : forall chunks,
             chunk_iter text_stop_at_8 10 9 (0, chunks) =
             (0, chunks ++ [lit "aaaaaaaa."])).
  { intros chunks. unfold chunk_iter.
    replace (window_end text_stop_at_8 10 0) with 9 by (vm_compute; reflexivity).
    replace (trim (slice text_stop_at_8 0 9)) with (lit "aaaaaaaa.")
      by (vm_compute; reflexivity).
    reflexivity. }
  split; [lia|]. split; [rewrite E; reflexivity|].
  intros fuel. unfold chunkText.
  change (negb (truthy text_stop_at_8) || (strlen text_stop_at_8 <=? 10))%bool
    with false. cbv iota.
  generalize (@nil jsstr). induction fuel as [|fuel IH]; intros chunks.
  - reflexivity.
  - cbn [chunk_loop fst]. change (0 <? strlen text_stop_at_8) with true. cbv iota.
    rewrite E. cbn [fst snd].
    change (0 >=? strlen text_stop_at_8) with false. cbv iota. apply IH.
Qed.

(** C6, as amended.  For every [chunkSize >= 0] and every text longer than
    [chunkSize]: whenever [chunkText] returns, every chunk of the result
    has no white space at either end and is not empty, the result is the
    sequence of trimmed window cuts with the empty ones left out, and the
    [totalChunks] that [chunkTextWithMetadata] attaches to every piece is
    the number of chunks of that result; and [chunkText] does return when
    [chunkSize] is positive and [overlap] is at most [0.7 * chunkSize]. *)
Theorem chunkText_chunks_trimmed (text : jsstr) (chunkSize overlap : Z) :
  0 <= chunkSize ->
  chunkSize < strlen text ->
  (forall fuel chunks,
     chunkText fuel text chunkSize overlap = Some chunks ->
     Forall (fun c => trimmed c /\ c <> []) chunks /\
     (exists n, chunks = filter nonempty
                           (map (cut text) (windows n text chunkSize overlap 0))) /\
     (forall filename, exists pieces,
        chunkTextWithMetadata fuel text filename chunkSize overlap = Some pieces /\
        map cwm_text pieces = chunks /\
        Forall (fun m => cm_totalChunks (cwm_metadata m) = Z.of_nat (length chunks))
               pieces)) /\
  (0 < chunkSize -> 10 * overlap <= 7 * chunkSize ->
   exists chunks, chunkText (length text) text chunkSize overlap = Some chunks).
Proof.
  intros Hc Hlong.
  assert (Hguard : (negb (truthy text) || (strlen text <=? chunkSize))%bool = false).
  { apply orb_false_iff. split.
    - destruct text; [unfold strlen in Hlong; simpl in Hlong; lia | reflexivity].
    - apply Z.leb_gt. exact Hlong. }
  split.
  - intros fuel chunks Hrun.
    assert (Hloop : chunk_loop fuel text chunkSize overlap (0, []) = Some chunks).
    { unfold chunkText in Hrun. rewrite Hguard in Hrun. exact Hrun. }
    destruct (chunk_loop_some _ _ _ _ _ _ Hloop) as [n [_ [H1 _]]].
    rewrite state_after_windows in H1. simpl in H1.
    split; [|split].
    + rewrite <- H1. apply kept_cuts_trimmed.
    + exists n. symmetry. exact H1.
    + intros filename. exists (decorate text filename chunks).
      unfold chunkTextWithMetadata. rewrite Hrun.
      split; [reflexivity|]. split; [apply decorate_texts | apply decorate_totals].
  - intros Hpos Hov. unfold chunkText. rewrite Hguard.
    apply chunk_loop_terminates; [exact Hpos | exact Hov |].
    cbn [fst]. unfold strlen. lia.
Qed.

Lemma chunkText_chunks_trimmed_witness :
  Forall (fun c => trimmed c /\ c <> [])
         [lit "Sentence one. Senten"; lit "entence two. Sentenc";
          lit "ntence three."] /\
  exists chunks, chunkText (length three_sentences) three_sentences 20 5 = Some chunks.
Proof.
  destruct (chunkText_chunks_trimmed three_sentences 20 5 ltac:(lia) eq_refl)
    as [Hshape Hruns].
  split.
  - exact (proj1 (Hshape 50%nat
                    [lit "Sentence one. Senten"; lit "entence two. Sentenc";
                     lit "ntence three."] eq_refl)).
  - apply Hruns; lia.
Defined.

(** C6, as stated, fails.  A text no longer than [chunkSize] comes back as
    the single chunk, untouched: with white space at both ends when it has
    some, and kept even when it is empty, with [totalChunks = 1]. *)
Lemma chunkText_short_text_untrimmed :
  chunkText 10 padded_hi 1000 200 = Some [padded_hi] /\
  ~ trimmed padded_hi /\
  trim padded_hi <> padded_hi /\
  chunkText 10 [] 1000 200 = Some [[]] /\
  option_map (map (fun m => cm_totalChunks (cwm_metadata m)))
             (chunkTextWithMetadata 10 [] (lit "a.pdf") 1000 200) = Some [1].
Proof.
  split; [reflexivity|]. split; [|split; [|split; reflexivity]].
  - intros [H _]. vm_compute in H. discriminate.
  - vm_compute. discriminate.
Qed.

(* ===================================================================== *)
(** * Computations only extend the log                                     *)
(* ===================================================================== *)

Section Extends.
Context {A B : Type}.

Lemma extends_ret (a : A) : extends (ret a).
Proof. intros t. unfold ret, result_of, events_of, run. simpl. rewrite app_nil_r. reflexivity. Qed.

Lemma extends_throw (e : JsError) : extends (@throw A e).
Proof. intros t. unfold throw, result_of, events_of, run. simpl. rewrite app_nil_r. reflexivity. Qed.

Lemma extends_call (ev : event) (o : outcome A) : extends (call ev o).
Proof. intros t. reflexivity. Qed.

Lemma extends_await (o : outcome A) : extends (await o).
Proof. intros t. unfold await, result_of, events_of, run. simpl. rewrite app_nil_r. reflexivity. Qed.

Lemma extends_bind (m : M A) (k : A -> M B) :
  extends m -> (forall a, extends (k a)) -> extends (bind m k).
Proof.
  intros Hm Hk t. unfold result_of, events_of, run, bind.
  rewrite (Hm t). unfold result_of, events_of, run.
  destruct (m []) as [[a | e] t0]; cbn [fst snd]; [|reflexivity].
  rewrite (Hk a (t ++ t0)), (Hk a t0). cbn [fst snd].
  rewrite app_assoc. reflexivity.
Qed.

Lemma result_of_bind (m : M A) (k : A -> M B) :
  extends m -> (forall a, extends (k a)) ->
  result_of (bind m k) =
  match result_of m with
  | Returned a => result_of (k a)
  | Thrown e => Thrown e
  end.
Proof.
  intros Hm Hk. unfold result_of, run, bind.
  destruct (m []) as [[a | e] t0]; cbn [fst]; [|reflexivity].
  rewrite (Hk a t0). reflexivity.
Qed.

Lemma events_of_bind (m : M A) (k : A -> M B) :
  extends m -> (forall a, extends (k a)) ->
  events_of (bind m k) =
  events_of m ++ match result_of m with
                 | Returned a => events_of (k a)
                 | Thrown e => []
                 end.
Proof.
  intros Hm Hk. unfold events_of, result_of, run, bind.
  destruct (m []) as [[a | e] t0]; cbn [fst snd]; [|rewrite app_nil_r; reflexivity].
  rewrite (Hk a t0). reflexivity.
Qed.

End Extends.

Lemma extends_emit (ev : event) : extends (emit ev).
Proof. intros t. reflexivity. Qed.

Lemma extends_tryCatch {A} (body : M A) (handler : JsError -> M A) :
  extends body -> (forall e, extends (handler e)) -> extends (tryCatch body handler).
Proof.
  intros Hm Hk t. unfold result_of, events_of, run, tryCatch.
  rewrite (Hm t). unfold result_of, events_of, run.
  destruct (body []) as [[a | e] t0]; cbn [fst snd]; [reflexivity|].
  rewrite (Hk e (t ++ t0)), (Hk e t0). cbn [fst snd].
  rewrite app_assoc. reflexivity.
Qed.

Lemma result_of_tryCatch {A} (body : M A) (handler : JsError -> M A) :
  extends body -> (forall e, extends (handler e)) ->
  result_of (tryCatch body handler) =
  match result_of body with
  | Returned a => Returned a
  | Thrown e => result_of (handler e)
  end.
Proof.
  intros Hm Hk. unfold result_of, run, tryCatch.
  destruct (body []) as [[a | e] t0]; cbn [fst]; [reflexivity|].
  rewrite (Hk e t0). reflexivity.
Qed.

Lemma events_of_tryCatch {A} (body : M A) (handler : JsError -> M A) :
  extends body -> (forall e, extends (handler e)) ->
  events_of (tryCatch body handler) =
  events_of body ++ match result_of body with
                    | Returned a => []
                    | Thrown e => events_of (handler e)
                    end.
Proof.
  intros Hm Hk. unfold events_of, result_of, run, tryCatch.
  destruct (body []) as [[a | e] t0]; cbn [fst snd]; [rewrite app_nil_r; reflexivity|].
  rewrite (Hk e t0). reflexivity.
Qed.

Create HintDb js_extends.
#[local] Hint Resolve extends_ret extends_throw extends_call extends_await
  extends_emit : js_extends.

(** Breaks a goal [extends m] along the structure of [m]. *)
Ltac extends_step :=
  first
    [ apply extends_ret | apply extends_throw | apply extends_call
    | apply extends_await | apply extends_emit
    | apply extends_bind | apply extends_tryCatch
    | solve [auto with js_extends]
    | match goal with
      | |- extends (if ?b then _ else _) => destruct b
      | |- extends (match ?x with _ => _ end) => destruct x
      | |- forall _, _ => intro
      end
    | progress cbv zeta ].

Ltac extends_tac := repeat extends_step.

Lemma generateEmbeddings_extends text env : extends (generateEmbeddings text env).
Proof. unfold generateEmbeddings. extends_tac. Qed.
#[local] Hint Resolve generateEmbeddings_extends : js_extends.

Lemma retrieveDocs_extends query topK env : extends (retrieveDocs query topK env).
Proof. unfold retrieveDocs. extends_tac. Qed.
#[local] Hint Resolve retrieveDocs_extends : js_extends.

Lemma callGeminiWithContext_extends sp q ctx env temp maxTok :
  extends (callGeminiWithContext sp q ctx env temp maxTok).
Proof. unfold callGeminiWithContext. extends_tac. Qed.
#[local] Hint Resolve callGeminiWithContext_extends : js_extends.

Lemma callGemini_extends sp q ctx env : extends (callGemini sp q ctx env).
Proof. unfold callGemini. auto with js_extends. Qed.
#[local] Hint Resolve callGemini_extends : js_extends.

Lemma dbQueryTool_extends query topK env : extends (dbQueryTool query topK env).
Proof. unfold dbQueryTool. extends_tac. Qed.
#[local] Hint Resolve dbQueryTool_extends : js_extends.

Lemma googleSearchTool_extends query env : extends (googleSearchTool query env).
Proof. unfold googleSearchTool. extends_tac. Qed.
#[local] Hint Resolve googleSearchTool_extends : js_extends.

Lemma runAgent_extends query mode env : extends (runAgent query mode env).
Proof. unfold runAgent. extends_tac. Qed.
#[local] Hint Resolve runAgent_extends : js_extends.

Lemma answerQuery_extends query mode topK thr env :
  extends (answerQuery query mode topK thr env).
Proof. unfold answerQuery. extends_tac. Qed.
#[local] Hint Resolve answerQuery_extends : js_extends.

Lemma query_route_extends p_text p_mode p_topK p_thr env :
  extends (query_route p_text p_mode p_topK p_thr env).
Proof. unfold query_route. extends_tac. Qed.
#[local] Hint Resolve query_route_extends : js_extends.

(* ===================================================================== *)
(** * What the tools log and return                                        *)
(* ===================================================================== *)

Lemma quiet_nil : quiet [].
Proof. split; reflexivity. Qed.

Lemma completion_prompts_app (a b : trace) :
  completion_prompts (a ++ b) = completion_prompts a ++ completion_prompts b.
Proof. unfold completion_prompts. apply flat_map_app. Qed.

Lemma web_search_attempted_app (a b : trace) :
  web_search_attempted (a ++ b) =
  (web_search_attempted a || web_search_attempted b)%bool.
Proof. unfold web_search_attempted. apply existsb_app. Qed.

Lemma quiet_app (a b : trace) : quiet a -> quiet b -> quiet (a ++ b).
Proof.
  intros [Ha Ha'] [Hb Hb']. split.
  - rewrite web_search_attempted_app, Ha, Hb. reflexivity.
  - rewrite completion_prompts_app, Ha', Hb'. reflexivity.
Qed.

Lemma quiet_ret {A} (a : A) : quiet (events_of (ret a)).
Proof. exact quiet_nil. Qed.

Lemma quiet_throw {A} (e : JsError) : quiet (events_of (@throw A e)).
Proof. exact quiet_nil. Qed.

Lemma quiet_await {A} (o : outcome A) : quiet (events_of (await o)).
Proof. exact quiet_nil. Qed.

Lemma quiet_call {A} (ev : event) (o : outcome A) :
  web_search_event ev = false -> completion_event ev = false ->
  quiet (events_of (call ev o)).
Proof.
  intros H1 H2. split.
  - unfold events_of, run, call, web_search_attempted. simpl. rewrite H1. reflexivity.
  - unfold events_of, run, call, completion_prompts. simpl.
    destruct ev; try reflexivity. discriminate.
Qed.

Lemma quiet_emit (ev : event) :
  web_search_event ev = false -> completion_event ev = false ->
  quiet (events_of (emit ev)).
Proof.
  intros H1 H2. split.
  - unfold events_of, run, emit, web_search_attempted. simpl. rewrite H1. reflexivity.
  - unfold events_of, run, emit, completion_prompts. simpl.
    destruct ev; try reflexivity. discriminate.
Qed.

Lemma quiet_bind {A B} (m : M A) (k : A -> M B) :
  extends m -> (forall a, extends (k a)) ->
  quiet (events_of m) -> (forall a, quiet (events_of (k a))) ->
  quiet (events_of (bind m k)).
Proof.
  intros Hm Hk Qm Qk. rewrite events_of_bind by assumption.
  apply quiet_app; [exact Qm|]. destruct (result_of m); [apply Qk | exact quiet_nil].
Qed.

Lemma quiet_tryCatch {A} (body : M A) (handler : JsError -> M A) :
  extends body -> (forall e, extends (handler e)) ->
  quiet (events_of body) -> (forall e, quiet (events_of (handler e))) ->
  quiet (events_of (tryCatch body handler)).
Proof.
  intros Hm Hk Qm Qk. rewrite events_of_tryCatch by assumption.
  apply quiet_app; [exact Qm|]. destruct (result_of body); [exact quiet_nil | apply Qk].
Qed.

Create HintDb js_quiet.

Ltac quiet_step :=
  first
    [ apply quiet_ret | apply quiet_throw | apply quiet_await
    | apply quiet_call; reflexivity | apply quiet_emit; reflexivity
    | apply quiet_bind; [solve [extends_tac] | solve [extends_tac] | | ]
    | apply quiet_tryCatch; [solve [extends_tac] | solve [extends_tac] | | ]
    | solve [auto with js_quiet]
    | match goal with
      | |- quiet (events_of (if ?b then _ else _)) => destruct b
      | |- quiet (events_of (match ?x with _ => _ end)) => destruct x
      | |- forall _, _ => intro
      end
    | progress cbv zeta ].

Ltac quiet_tac := repeat quiet_step.

Lemma generateEmbeddings_quiet text env :
  quiet (events_of (generateEmbeddings text env)).
Proof. unfold generateEmbeddings. quiet_tac. Qed.
#[local] Hint Resolve generateEmbeddings_quiet : js_quiet.

Lemma retrieveDocs_quiet query topK env :
  quiet (events_of (retrieveDocs query topK env)).
Proof. unfold retrieveDocs. quiet_tac. Qed.
#[local] Hint Resolve retrieveDocs_quiet : js_quiet.

Lemma dbQueryTool_quiet query topK env :
  quiet (events_of (dbQueryTool query topK env)).
Proof. unfold dbQueryTool. quiet_tac. Qed.
#[local] Hint Resolve dbQueryTool_quiet : js_quiet.

(** [dbQueryTool] never throws: a failed retrieval is an empty result. *)
Lemma dbQueryTool_result query topK env :
  result_of (dbQueryTool query topK env) =
  Returned match result_of (retrieveDocs query topK env) with
           | Returned ms => mapi format_result ms
           | Thrown _ => []
           end.
Proof.
  unfold dbQueryTool.
  rewrite result_of_tryCatch by extends_tac.
  rewrite result_of_bind by extends_tac.
  destruct (result_of (retrieveDocs query topK env)); reflexivity.
Qed.

Lemma db_results_eq query env :
  result_of (dbQueryTool query 5 env) = Returned (db_results query env).
Proof.
  unfold db_results. rewrite dbQueryTool_result. reflexivity.
Qed.

(** [googleSearchTool] never throws, and every run of it shows in the log. *)
Lemma googleSearchTool_result query env :
  result_of (googleSearchTool query env) = Returned (web_results query env).
Proof.
  unfold web_results, result_of, run, googleSearchTool, tryCatch, bind, call,
    await, throw, ret, emit.
  destruct (negb (secret_truthy (GOOGLE_SEARCH_API_KEY env)) ||
            negb (secret_truthy (GOOGLE_CSE_ID env)))%bool; [reflexivity|].
  destruct (search_fetch env _ _ query) as [r | e]; [|reflexivity].
  destruct (ok r); cbn [negb]; [|reflexivity].
  destruct (json r) as [[items|] | e]; reflexivity.
Qed.

Lemma googleSearchTool_events query env :
  web_search_attempted (events_of (googleSearchTool query env)) = true /\
  completion_prompts (events_of (googleSearchTool query env)) = [].
Proof.
  unfold events_of, run, googleSearchTool, tryCatch, bind, call,
    await, throw, ret, emit.
  destruct (negb (secret_truthy (GOOGLE_SEARCH_API_KEY env)) ||
            negb (secret_truthy (GOOGLE_CSE_ID env)))%bool;
    [split; reflexivity|].
  destruct (search_fetch env _ _ query) as [r | e]; [|split; reflexivity].
  destruct (ok r); cbn [negb]; [|split; reflexivity].
  destruct (json r) as [[items|] | e]; split; reflexivity.
Qed.

Lemma googleSearchTool_failure query env :
  search_fails env query -> web_results query env = [].
Proof.
  unfold web_results, result_of, run, googleSearchTool, tryCatch, bind, call,
    await, throw, ret, emit.
  intros [H | [H | [[e H] | [r [H H']]]]].
  - rewrite H. reflexivity.
  - rewrite H, orb_true_r. reflexivity.
  - destruct (negb _ || negb _)%bool; [reflexivity|]. rewrite H. reflexivity.
  - destruct (negb _ || negb _)%bool; [reflexivity|]. rewrite H.
    destruct H' as [H' | [e H']].
    + rewrite H'. reflexivity.
    + destruct (ok r); [|reflexivity]. cbn [negb]. rewrite H'. reflexivity.
Qed.

(** The completion call: always exactly one request, with the prompt built
    from the three parts. *)
Lemma callGemini_events sp q ctx env :
  web_search_attempted (events_of (callGemini sp q ctx env)) = false /\
  completion_prompts (events_of (callGemini sp q ctx env)) = [build_prompt sp q ctx].
Proof.
  unfold callGemini, events_of, run, callGeminiWithContext, tryCatch, bind, call,
    await, throw, ret, emit. cbv zeta.
  destruct (completion_fetch env _ _ _) as [r | e]; [|split; reflexivity].
  destruct (ok r); cbn [negb]; [|split; reflexivity].
  destruct (json r) as [data | e]; [|split; reflexivity].
  destruct (completion_text data); split; reflexivity.
Qed.

Lemma callGemini_success sp q ctx env resp data ans :
  completion_fetch env (build_prompt sp q ctx) 0%Q 512 = Returned resp ->
  ok resp = true ->
  json resp = Returned data ->
  completion_text data = Some ans ->
  result_of (callGemini sp q ctx env) = Returned {| text := ans; raw := data |}.
Proof.
  intros H1 H2 H3 H4.
  unfold callGemini, result_of, run, callGeminiWithContext, tryCatch, bind, call,
    await, throw, ret, emit. cbv zeta.
  rewrite H1, H2. cbn [negb]. rewrite H3, H4. reflexivity.
Qed.

(* ===================================================================== *)
(** * The hybrid flow                                                      *)
(* ===================================================================== *)

Lemma mode_hybrid_not_db_only : jsstr_eqb (lit "hybrid") (lit "db-only") = false.
Proof. reflexivity. Qed.

Lemma mode_hybrid_refl : jsstr_eqb (lit "hybrid") (lit "hybrid") = true.
Proof. reflexivity. Qed.

Lemma mode_db_only_refl : jsstr_eqb (lit "db-only") (lit "db-only") = true.
Proof. reflexivity. Qed.

Lemma result_of_ret {A} (a : A) : result_of (ret a) = Returned a.
Proof. reflexivity. Qed.

Lemma events_of_ret {A} (a : A) : events_of (ret a) = [].
Proof. reflexivity. Qed.

(** The hybrid context the agent assembles from the two tool results. *)
Lemma hybrid_context_db_only (dbResults : list DbResult) :
  match dbResults with
  | [] => []
  | _ :: _ => [] ++ database_block dbResults
  end = hybrid_context dbResults [].
Proof. unfold hybrid_context. rewrite app_nil_r. destruct dbResults; reflexivity. Qed.

Lemma hybrid_context_with_web (dbResults : list DbResult) (w : SearchItem) ws :
  match dbResults with
  | [] => []
  | _ :: _ => [] ++ database_block dbResults
  end ++ web_block (w :: ws) = hybrid_context dbResults (w :: ws).
Proof. unfold hybrid_context. destruct dbResults; reflexivity. Qed.

Lemma agent_finish_result sp q ctx env label :
  match result_of (c <- callGemini sp q ctx env ;; ret (text c)) with
  | Returned a => Returned a
  | Thrown e => result_of (emit (ConsoleError label e) ;;; throw e)
  end =
  match result_of (callGemini sp q ctx env) with
  | Returned c => Returned (text c)
  | Thrown e => Thrown e
  end.
Proof.
  rewrite result_of_bind by extends_tac.
  destruct (result_of (callGemini sp q ctx env)); reflexivity.
Qed.

Lemma runAgent_hybrid_result q env :
  result_of (runAgent q (lit "hybrid") env) =
  match result_of (callGemini SYSTEM_PROMPT_HYBRID q
                     (hybrid_context (db_results q env) (hybrid_web q env)) env) with
  | Returned c => Returned (text c)
  | Thrown e => Thrown e
  end.
Proof.
  unfold runAgent.
  rewrite result_of_tryCatch by extends_tac.
  rewrite result_of_bind by extends_tac.
  rewrite db_results_eq, mode_hybrid_not_db_only. cbv zeta.
  rewrite result_of_bind by extends_tac.
  unfold hybrid_web.
  destruct (db_insufficient (db_results q env)).
  - rewrite result_of_bind by extends_tac.
    rewrite googleSearchTool_result.
    destruct (web_results q env) as [|w ws]; rewrite result_of_ret.
    + rewrite hybrid_context_db_only. apply agent_finish_result.
    + rewrite hybrid_context_with_web. apply agent_finish_result.
  - rewrite result_of_ret, hybrid_context_db_only. apply agent_finish_result.
Qed.

Lemma agent_finish_events sp q ctx env label (pre : trace) :
  label <> lit "Error in googleSearchTool:" ->
  completion_prompts pre = [] ->
  let tr := pre ++
            events_of (c <- callGemini sp q ctx env ;; ret (text c)) ++
            match result_of (c <- callGemini sp q ctx env ;; ret (text c)) with
            | Returned a => []
            | Thrown e => events_of (emit (ConsoleError label e) ;;; @throw jsstr e)
            end in
  web_search_attempted tr = web_search_attempted pre /\
  completion_prompts tr = [build_prompt sp q ctx].
Proof.
  intros Hl Hpre tr. subst tr.
  rewrite events_of_bind by extends_tac.
  rewrite result_of_bind by extends_tac.
  destruct (callGemini_events sp q ctx env) as [Hw Hc].
  assert (Hlab : jsstr_eqb label (lit "Error in googleSearchTool:") = false).
  { unfold jsstr_eqb. destruct (list_eq_dec N.eq_dec label _); congruence. }
  rewrite !web_search_attempted_app, !completion_prompts_app, Hw, Hc, Hpre.
  destruct (result_of (callGemini sp q ctx env)) as [c | e].
  - rewrite result_of_ret, events_of_ret. cbn.
    rewrite !orb_false_r. split; reflexivity.
  - change (events_of (emit (ConsoleError label e) ;;; @throw jsstr e))
      with [ConsoleError label e].
    change (web_search_attempted [ConsoleError label e])
      with (jsstr_eqb label (lit "Error in googleSearchTool:") || false)%bool.
    rewrite Hlab. change (web_search_attempted []) with false.
    rewrite !orb_false_r. split; reflexivity.
Qed.

Lemma label_runAgent : lit "Error in runAgent:" <> lit "Error in googleSearchTool:".
Proof. discriminate. Qed.

Lemma label_answerQuery : lit "Error in answerQuery:" <> lit "Error in googleSearchTool:".
Proof. discriminate. Qed.

(** A context computation that returns [ctx], followed by the completion
    call and the [catch] of the agent. *)
Lemma agent_after_context (C : M jsstr) ctx sp q env label (pre : trace) :
  extends C ->
  result_of C = Returned ctx ->
  label <> lit "Error in googleSearchTool:" ->
  completion_prompts (pre ++ events_of C) = [] ->
  let body := context2 <- C ;; c <- callGemini sp q context2 env ;; ret (text c) in
  let tr := (pre ++ events_of body) ++
            match result_of body with
            | Returned a => []
            | Thrown e => events_of (emit (ConsoleError label e) ;;; @throw jsstr e)
            end in
  web_search_attempted tr = web_search_attempted (pre ++ events_of C) /\
  completion_prompts tr = [build_prompt sp q ctx].
Proof.
  intros HC Hres Hl Hpre body tr. subst tr body.
  rewrite events_of_bind, result_of_bind by extends_tac.
  rewrite Hres.
  rewrite (app_assoc pre), <- app_assoc.
  apply agent_finish_events; assumption.
Qed.

Lemma runAgent_hybrid_events q env :
  web_search_attempted (events_of (runAgent q (lit "hybrid") env)) =
    db_insufficient (db_results q env) /\
  completion_prompts (events_of (runAgent q (lit "hybrid") env)) =
    [build_prompt SYSTEM_PROMPT_HYBRID q
       (hybrid_context (db_results q env) (hybrid_web q env))].
Proof.
  unfold runAgent.
  rewrite events_of_tryCatch by extends_tac.
  rewrite result_of_bind by extends_tac.
  rewrite events_of_bind by extends_tac.
  rewrite db_results_eq, mode_hybrid_not_db_only. cbv zeta.
  destruct (dbQueryTool_quiet q 5 env) as [Qw Qc].
  destruct (googleSearchTool_events q env) as [Gw Gc].
  unfold hybrid_web.
  destruct (db_insufficient (db_results q env)).
  - match goal with
    | |- context [events_of (bind ?C _)] =>
        assert (HC : result_of C =
                     Returned (hybrid_context (db_results q env) (web_results q env)) /\
                     events_of C = events_of (googleSearchTool q env))
    end.
    { rewrite result_of_bind, events_of_bind by extends_tac.
      rewrite googleSearchTool_result.
      destruct (web_results q env) as [|w ws];
        rewrite result_of_ret, events_of_ret, app_nil_r.
      - rewrite hybrid_context_db_only. split; reflexivity.
      - rewrite hybrid_context_with_web. split; reflexivity. }
    destruct HC as [HC1 HC2].
    match goal with
    | |- context [events_of (bind ?C _)] =>
        destruct (agent_after_context C _ SYSTEM_PROMPT_HYBRID q env
                    (lit "Error in runAgent:") (events_of (dbQueryTool q 5 env))
                    ltac:(extends_tac) HC1 label_runAgent) as [A B]
    end.
    { rewrite HC2, completion_prompts_app, Qc, Gc. reflexivity. }
    cbv zeta in A, B. rewrite A, B, HC2, web_search_attempted_app, Qw, Gw.
    split; reflexivity.
  - match goal with
    | |- context [events_of (bind (ret ?x) _)] =>
        destruct (agent_after_context (ret x) x SYSTEM_PROMPT_HYBRID q env
                    (lit "Error in runAgent:") (events_of (dbQueryTool q 5 env))
                    ltac:(extends_tac) (result_of_ret x) label_runAgent) as [A B]
    end.
    { rewrite events_of_ret, app_nil_r. exact Qc. }
    cbv zeta in A, B. rewrite A, B, events_of_ret, app_nil_r, Qw.
    rewrite hybrid_context_db_only. split; reflexivity.
Qed.

(* ===================================================================== *)
(** * [answerQuery]                                                        *)
(* ===================================================================== *)

Lemma answerQuery_hybrid_result q topK thr env :
  result_of (answerQuery q (lit "hybrid") topK thr env) =
  match result_of (callGemini SYSTEM_PROMPT_HYBRID q
                     (hybrid_context (db_results q env) (hybrid_web q env)) env) with
  | Returned c => Returned {| answer := text c; qr_provenance := None;
                              qr_raw := None |}
  | Thrown e => Thrown e
  end.
Proof.
  unfold answerQuery.
  rewrite result_of_tryCatch by extends_tac.
  rewrite mode_hybrid_not_db_only, mode_hybrid_refl.
  rewrite result_of_bind by extends_tac.
  rewrite runAgent_hybrid_result.
  destruct (result_of (callGemini _ _ _ _)); reflexivity.
Qed.

Lemma answerQuery_hybrid_events q topK thr env :
  web_search_attempted (events_of (answerQuery q (lit "hybrid") topK thr env)) =
    db_insufficient (db_results q env) /\
  completion_prompts (events_of (answerQuery q (lit "hybrid") topK thr env)) =
    [build_prompt SYSTEM_PROMPT_HYBRID q
       (hybrid_context (db_results q env) (hybrid_web q env))].
Proof.
  unfold answerQuery.
  rewrite events_of_tryCatch by extends_tac.
  rewrite mode_hybrid_not_db_only, mode_hybrid_refl.
  rewrite result_of_bind, events_of_bind by extends_tac.
  destruct (runAgent_hybrid_events q env) as [A B].
  rewrite !web_search_attempted_app, !completion_prompts_app, A, B.
  destruct (result_of (runAgent q (lit "hybrid") env)) as [a | e].
  - rewrite result_of_ret, events_of_ret. cbn [app].
    change (web_search_attempted []) with false.
    change (completion_prompts []) with (@nil jsstr).
    rewrite !orb_false_r. split; reflexivity.
  - split.
    + rewrite orb_false_r. apply orb_false_r.
    + reflexivity.
Qed.

(** The loop of [buildContextSnippet] numbers the blocks from [i + 1] and
    pushes one provenance entry per match, in order. *)
Lemma build_loop_spec (matches : list Match) (cap : Z) :
  forall i parts prov,
    build_loop matches cap i parts prov =
    (parts ++ mapi_from (fun m j => context_part j m cap) i matches,
     prov ++ map provenance_of matches).
Proof.
  induction matches as [|m rest IH]; intros i parts prov; simpl.
  - rewrite !app_nil_r. reflexivity.
  - rewrite IH, <- !app_assoc. reflexivity.
Qed.

Lemma buildContextSnippet_spec (matches : list Match) (cap : Z) :
  buildContextSnippet matches cap =
  {| contextText := join (nl ++ nl) (mapi (fun m j => context_part j m cap) matches);
     provenance := map provenance_of matches |}.
Proof.
  unfold buildContextSnippet. rewrite build_loop_spec. reflexivity.
Qed.

Lemma insufficient_Qltb ms thr top rest :
  ms = top :: rest -> insufficient ms thr -> Qltb (score top) thr = true.
Proof. intros -> H. apply Qltb_lt. exact H. Qed.

Lemma sufficient_Qltb ms thr top rest :
  ms = top :: rest -> sufficient ms thr -> Qltb (score top) thr = false.
Proof. intros -> H. apply Qltb_ge. exact H. Qed.

Lemma sufficient_or_insufficient ms thr :
  (sufficient ms thr /\ ~ insufficient ms thr) \/
  (insufficient ms thr /\ ~ sufficient ms thr).
Proof.
  destruct ms as [|top rest]; simpl; [right; tauto|].
  destruct (Qlt_le_dec (score top) thr) as [H | H].
  - right. split; [exact H|]. intros L. exact (Qlt_not_le _ _ H L).
  - left. split; [exact H|]. intros L. exact (Qlt_not_le _ _ L H).
Qed.

(** The db-only branch, once retrieval has returned. *)
Lemma answerQuery_db_only_result q topK thr env ms :
  result_of (retrieveDocs q topK env) = Returned ms ->
  result_of (answerQuery q (lit "db-only") topK thr env) =
  match ms with
  | [] => Returned {| answer := NOT_IN_DB; qr_provenance := Some [];
                      qr_raw := None |}
  | top :: _ =>
      if Qltb (score top) thr then
        Returned {| answer := NOT_IN_DB;
                    qr_provenance := Some (map provenance_of ms);
                    qr_raw := None |}
      else
        match result_of (callGemini SYSTEM_PROMPT_DB_ONLY q
                (contextText (buildContextSnippet ms CONFIG.MAX_CONTEXT_CHARS)) env) with
        | Returned c => Returned {| answer := text c;
                                    qr_provenance := Some (map provenance_of ms);
                                    qr_raw := Some (raw c) |}
        | Thrown e => Thrown e
        end
  end.
Proof.
  intros Hret. unfold answerQuery.
  rewrite result_of_tryCatch by extends_tac.
  rewrite mode_db_only_refl.
  rewrite result_of_bind by extends_tac.
  rewrite Hret. destruct ms as [|top rest]; [reflexivity|].
  cbv zeta. destruct (Qltb (score top) thr).
  - rewrite buildContextSnippet_spec. reflexivity.
  - rewrite result_of_bind by extends_tac.
    destruct (result_of (callGemini _ _ _ _)) as [c | e].
    + rewrite buildContextSnippet_spec. reflexivity.
    + reflexivity.
Qed.

Lemma answerQuery_db_only_prompts q topK thr env ms :
  result_of (retrieveDocs q topK env) = Returned ms ->
  completion_prompts (events_of (answerQuery q (lit "db-only") topK thr env)) =
  match ms with
  | [] => []
  | top :: _ =>
      if Qltb (score top) thr then []
      else [build_prompt SYSTEM_PROMPT_DB_ONLY q
              (contextText (buildContextSnippet ms CONFIG.MAX_CONTEXT_CHARS))]
  end.
Proof.
  intros Hret. unfold answerQuery.
  rewrite events_of_tryCatch by extends_tac.
  rewrite mode_db_only_refl.
  rewrite result_of_bind, events_of_bind by extends_tac.
  rewrite Hret.
  destruct (retrieveDocs_quiet q topK env) as [_ Qc].
  rewrite !completion_prompts_app, Qc.
  destruct ms as [|top rest]; [reflexivity|].
  cbv zeta. destruct (Qltb (score top) thr); [reflexivity|].
  rewrite result_of_bind, events_of_bind by extends_tac.
  destruct (callGemini_events SYSTEM_PROMPT_DB_ONLY q
              (contextText (buildContextSnippet (top :: rest) CONFIG.MAX_CONTEXT_CHARS))
              env) as [_ Hc].
  rewrite completion_prompts_app, Hc.
  destruct (result_of (callGemini _ _ _ _)); reflexivity.
Qed.

(* ===================================================================== *)
(** * The mode controller                                                  *)
(* ===================================================================== *)

(** C1.  In db-only mode, once retrieval has returned its matches: with
    zero matches, or a top score strictly below the caller's
    [scoreThreshold], [answerQuery] returns the sentinel ["NOT_IN_DB"] with
    the provenance of the matches (empty for zero matches) and never calls
    the completion service; with a top score at or above the threshold it
    calls the completion service once, on the context built from the
    matches, and returns the text that service generated. *)
Theorem answerQuery_db_only_gate (q : jsstr) (topK : Z) (thr : Q) (env : Env)
    (ms : list Match) :
  result_of (retrieveDocs q topK env) = Returned ms ->
  (insufficient ms thr ->
     result_of (answerQuery q (lit "db-only") topK thr env) =
       Returned {| answer := NOT_IN_DB;
                   qr_provenance := Some (map provenance_of ms);
                   qr_raw := None |} /\
     completion_prompts (events_of (answerQuery q (lit "db-only") topK thr env)) = []) /\
  (ms = [] ->
     result_of (answerQuery q (lit "db-only") topK thr env) =
       Returned {| answer := NOT_IN_DB; qr_provenance := Some []; qr_raw := None |}) /\
  (sufficient ms thr ->
     let ctx := contextText (buildContextSnippet ms CONFIG.MAX_CONTEXT_CHARS) in
     completion_prompts (events_of (answerQuery q (lit "db-only") topK thr env)) =
       [build_prompt SYSTEM_PROMPT_DB_ONLY q ctx] /\
     (forall resp data ans,
        completion_fetch env (build_prompt SYSTEM_PROMPT_DB_ONLY q ctx) 0%Q 512
          = Returned resp ->
        ok resp = true -> json resp = Returned data ->
        completion_text data = Some ans ->
        result_of (answerQuery q (lit "db-only") topK thr env) =
          Returned {| answer := ans;
                      qr_provenance := Some (map provenance_of ms);
                      qr_raw := Some data |})).
Proof.
  intros Hret.
  pose proof (answerQuery_db_only_result q topK thr env ms Hret) as R.
  pose proof (answerQuery_db_only_prompts q topK thr env ms Hret) as P.
  split; [|split].
  - intros Hins. destruct ms as [|top rest]; [rewrite R, P; split; reflexivity|].
    rewrite (insufficient_Qltb _ thr top rest eq_refl Hins) in R, P.
    rewrite R, P. split; reflexivity.
  - intros ->. exact R.
  - intros Hsuf. destruct ms as [|top rest]; [destruct Hsuf|].
    rewrite (sufficient_Qltb _ thr top rest eq_refl Hsuf) in R, P.
    cbv zeta. split; [exact P|].
    intros resp data ans H1 H2 H3 H4.
    rewrite R, (callGemini_success _ _ _ _ _ _ _ H1 H2 H3 H4). reflexivity.
Qed.

Lemma answerQuery_db_only_gate_witness :
  (* threshold 0.72, top score 0.70: the sentinel *)
  result_of (answerQuery question (lit "db-only") 8 (72 # 100) (env_score (70 # 100))) =
    Returned {| answer := lit "NOT_IN_DB";
                qr_provenance := Some [provenance_of (mars_match (70 # 100))];
                qr_raw := None |} /\
  (* threshold 0.72, top score 0.75: the generated answer *)
  result_of (answerQuery question (lit "db-only") 8 (72 # 100) (env_score (75 # 100))) =
    Returned {| answer := lit "Two: Phobos and Deimos (doc 7).";
                qr_provenance := Some [provenance_of (mars_match (75 # 100))];
                qr_raw := Some reply_data |}.
Proof.
  split.
  - apply (proj1 (answerQuery_db_only_gate question 8 (72 # 100)
                    (env_score (70 # 100)) [mars_match (70 # 100)] eq_refl)).
    reflexivity.
  - apply (proj2 (proj2 (answerQuery_db_only_gate question 8 (72 # 100)
                    (env_score (75 # 100)) [mars_match (75 # 100)] eq_refl)))
      with (resp := ok_response reply_data).
    + intros H. discriminate H.
    + reflexivity.
    + reflexivity.
    + reflexivity.
    + reflexivity.
Defined.

(** C2, at a failing input.  A hybrid query passes [topK = 8] and
    [scoreThreshold = 0.9]; the database holds one chunk that matches with
    score 0.8, below the caller's threshold, and the web search works and
    has a result.  The agent retrieves with [topK = 5], compares the score
    with the configured 0.72, runs no web search, and prompts the
    completion service with the "Database Results" block alone. *)
Lemma hybrid_ignores_caller_threshold :
  result_of (retrieveDocs question 8 (env_score (8 # 10))) =
    Returned [mars_match (8 # 10)] /\
  (score (mars_match (8 # 10)) < 9 # 10)%Q /\
  web_results question (env_score (8 # 10)) = [moon_item] /\
  web_search_attempted
    (events_of (answerQuery question (lit "hybrid") 8 (9 # 10) (env_score (8 # 10))))
    = false /\
  completion_prompts
    (events_of (answerQuery question (lit "hybrid") 8 (9 # 10) (env_score (8 # 10))))
    = [build_prompt SYSTEM_PROMPT_HYBRID question
         (database_block (mapi format_result [mars_match (8 # 10)]))] /\
  existsb (fun ev => match ev with
                     | CallVectorize _ k => k =? 5
                     | _ => false
                     end)
    (events_of (answerQuery question (lit "hybrid") 8 (9 # 10) (env_score (8 # 10))))
    = true.
Proof.
  split; [reflexivity|]. split; [reflexivity|]. split; [reflexivity|].
  split; [vm_compute; reflexivity|]. split; vm_compute; reflexivity.
Qed.

(** The agent compares the score as rounded to three decimals: a top score
    of 0.7196, below the configured 0.72, rounds to 0.72 and passes. *)
Lemma hybrid_compares_rounded_score :
  (7196 # 10000 < CONFIG.DEFAULT_SCORE_THRESHOLD)%Q /\
  web_search_attempted
    (events_of (answerQuery question (lit "hybrid") 8 (72 # 100)
                  (env_score (7196 # 10000)))) = false.
Proof. split; [reflexivity | vm_compute; reflexivity]. Qed.

(** X25.  The rule the hybrid flow follows, for every query and every
    [topK], [scoreThreshold] passed in: the agent retrieves with
    [topK = 5]; it runs the web search exactly when the database tool
    returned nothing or its top result, with the score rounded to three
    decimals, is below the configured threshold; the context is the
    "Database Results" block when there are database results, followed by
    the "Web Search Results" block when the search ran and found
    something. *)
Lemma hybrid_flow_rule (q : jsstr) (topK : Z) (thr : Q) (env : Env) :
  web_search_attempted (events_of (answerQuery q (lit "hybrid") topK thr env)) =
    db_insufficient (db_results q env) /\
  completion_prompts (events_of (answerQuery q (lit "hybrid") topK thr env)) =
    [build_prompt SYSTEM_PROMPT_HYBRID q
       (hybrid_context (db_results q env) (hybrid_web q env))] /\
  (db_results q env = [] ->
     hybrid_context (db_results q env) (hybrid_web q env) =
     match web_results q env with
     | [] => []
     | _ => web_block (web_results q env)
     end).
Proof.
  destruct (answerQuery_hybrid_events q topK thr env) as [A B].
  split; [exact A|]. split; [exact B|].
  intros E. unfold hybrid_web. rewrite E. reflexivity.
Qed.

(** C3.  When the web search fails for the query (credentials missing,
    request rejected, reply not OK, body unreadable), [googleSearchTool]
    returns the empty list, and a hybrid query goes on: the completion
    service is prompted once, with the database-only context and no web
    block; the outcome of the query is the outcome of that completion
    call, so the query returns the generated text whenever the completion
    service delivers one. *)
Theorem web_search_failure_absorbed (q : jsstr) (topK : Z) (thr : Q) (env : Env) :
  search_fails env q ->
  result_of (googleSearchTool q env) = Returned [] /\
  completion_prompts (events_of (answerQuery q (lit "hybrid") topK thr env)) =
    [build_prompt SYSTEM_PROMPT_HYBRID q (hybrid_context (db_results q env) [])] /\
  result_of (answerQuery q (lit "hybrid") topK thr env) =
    match result_of (callGemini SYSTEM_PROMPT_HYBRID q
                       (hybrid_context (db_results q env) []) env) with
    | Returned c => Returned {| answer := text c; qr_provenance := None;
                                qr_raw := None |}
    | Thrown e => Thrown e
    end /\
  (forall resp data ans,
     completion_fetch env
       (build_prompt SYSTEM_PROMPT_HYBRID q (hybrid_context (db_results q env) []))
       0%Q 512 = Returned resp ->
     ok resp = true -> json resp = Returned data ->
     completion_text data = Some ans ->
     result_of (answerQuery q (lit "hybrid") topK thr env) =
       Returned {| answer := ans; qr_provenance := None; qr_raw := None |}).
Proof.
  intros Hfail.
  pose proof (googleSearchTool_failure q env Hfail) as W.
  assert (HW : hybrid_web q env = []).
  { unfold hybrid_web. rewrite W. destruct (db_insufficient _); reflexivity. }
  split; [|split; [|split]].
  - rewrite googleSearchTool_result, W. reflexivity.
  - destruct (answerQuery_hybrid_events q topK thr env) as [_ B].
    rewrite B, HW. reflexivity.
  - rewrite answerQuery_hybrid_result, HW. reflexivity.
  - intros resp data ans H1 H2 H3 H4.
    rewrite answerQuery_hybrid_result, HW.
    rewrite (callGemini_success _ _ _ _ _ _ _ H1 H2 H3 H4). reflexivity.
Qed.

Lemma web_search_failure_absorbed_witness :
  result_of (googleSearchTool question env_no_credentials) = Returned [] /\
  result_of (answerQuery question (lit "hybrid") 8 (72 # 100) env_no_credentials) =
    Returned {| answer := lit "Two: Phobos and Deimos (doc 7).";
                qr_provenance := None; qr_raw := None |}.
Proof.
  assert (F : search_fails env_no_credentials question) by (left; reflexivity).
  destruct (web_search_failure_absorbed question 8 (72 # 100) env_no_credentials F)
    as [H1 [_ [H3 _]]].
  split; [exact H1|]. rewrite H3. reflexivity.
Defined.

(** C10.  A hybrid query whose database retrieval yields zero matches and
    whose web search yields zero results (or fails) still prompts the
    completion service, with the empty context, and returns the text it
    generated. *)
Theorem hybrid_empty_context_still_generates (q : jsstr) (topK : Z) (thr : Q)
    (env : Env) (resp : Response GeminiData) (data : GeminiData) (ans : jsstr) :
  result_of (retrieveDocs q 5 env) = Returned [] ->
  result_of (googleSearchTool q env) = Returned [] ->
  completion_fetch env (build_prompt SYSTEM_PROMPT_HYBRID q []) 0%Q 512
    = Returned resp ->
  ok resp = true ->
  json resp = Returned data ->
  completion_text data = Some ans ->
  completion_prompts (events_of (answerQuery q (lit "hybrid") topK thr env)) =
    [build_prompt SYSTEM_PROMPT_HYBRID q []] /\
  result_of (answerQuery q (lit "hybrid") topK thr env) =
    Returned {| answer := ans; qr_provenance := None; qr_raw := None |}.
Proof.
  intros Hdb Hweb H1 H2 H3 H4.
  assert (D : db_results q env = []).
  { unfold db_results. rewrite dbQueryTool_result, Hdb. reflexivity. }
  assert (W : hybrid_web q env = []).
  { unfold hybrid_web, web_results. rewrite Hweb.
    destruct (db_insufficient _); reflexivity. }
  destruct (answerQuery_hybrid_events q topK thr env) as [_ B].
  rewrite answerQuery_hybrid_result, B, D, W.
  change (hybrid_context [] []) with (@nil jschar).
  rewrite (callGemini_success _ _ _ _ _ _ _ H1 H2 H3 H4).
  split; reflexivity.
Qed.

Lemma hybrid_empty_context_still_generates_witness :
  result_of (answerQuery question (lit "hybrid") 8 (72 # 100) env_empty) =
    Returned {| answer := lit "Two: Phobos and Deimos (doc 7).";
                qr_provenance := None; qr_raw := None |}.
Proof.
  exact (proj2 (hybrid_empty_context_still_generates question 8 (72 # 100)
                  env_empty (ok_response reply_data) reply_data
                  (lit "Two: Phobos and Deimos (doc 7).")
                  eq_refl eq_refl eq_refl eq_refl eq_refl eq_refl)).
Defined.

(* ===================================================================== *)
(** * The retriever                                                        *)
(* ===================================================================== *)

Lemma combine_matches_spec (rows : list Row) (vmatches : list VMatch) :
  forall acc,
    combine_matches rows vmatches acc = acc ++ flat_map (hydrate rows) vmatches.
Proof.
  induction vmatches as [|m rest IH]; intros acc; simpl.
  - rewrite app_nil_r. reflexivity.
  - unfold hydrate at 1.
    destruct (find _ rows) as [doc|]; rewrite IH; [|reflexivity].
    rewrite <- app_assoc. reflexivity.
Qed.

Lemma hydrate_nil_rows (vmatches : list VMatch) :
  flat_map (hydrate []) vmatches = [].
Proof. induction vmatches as [|m rest IH]; simpl; [reflexivity | exact IH]. Qed.

Lemma hydrate_scores (rows : list Row) (m : VMatch) :
  Forall (fun x => score x = vm_score m) (hydrate rows m).
Proof.
  unfold hydrate. destruct (find _ rows); constructor; [reflexivity | constructor].
Qed.

Lemma hydrate_length (rows : list Row) (vmatches : list VMatch) :
  (length (flat_map (hydrate rows) vmatches) <= length vmatches)%nat.
Proof.
  induction vmatches as [|m rest IH]; simpl; [lia|].
  rewrite length_app. unfold hydrate at 1. destruct (find _ rows); simpl; lia.
Qed.

Lemma hydrate_bounded (rows : list Row) (vmatches : list VMatch) (bound : Q) :
  Forall (fun b => (vm_score b <= bound)%Q) vmatches ->
  Forall (fun x => (score x <= bound)%Q) (flat_map (hydrate rows) vmatches).
Proof.
  induction 1 as [|m rest Hm _ IH]; simpl; [constructor|].
  apply Forall_app. split; [|exact IH].
  eapply Forall_impl; [|apply hydrate_scores].
  intros x ->. exact Hm.
Qed.

Lemma hydrate_descending (rows : list Row) (vmatches : list VMatch) :
  descending vm_score vmatches ->
  descending score (flat_map (hydrate rows) vmatches).
Proof.
  unfold descending. induction 1 as [|m rest _ IH Hm]; simpl; [constructor|].
  pose proof (hydrate_bounded rows rest (vm_score m) Hm) as Hb.
  unfold hydrate at 1. destruct (find _ rows) as [doc|]; simpl; [|exact IH].
  constructor; [exact IH | exact Hb].
Qed.

Lemma retrieveDocs_result q k env v vq :
  result_of (generateEmbeddings q env) = Returned v ->
  VECTORIZE_query env v k = Returned vq ->
  result_of (retrieveDocs q k env) =
  match vq with
  | None | Some [] => Returned []
  | Some vms =>
      match database_run env (query_sql (map vm_id vms)) (map vm_id vms) with
      | Returned (Some rows) => Returned (flat_map (hydrate rows) vms)
      | Returned None => Returned []
      | Thrown e => Thrown e
      end
  end.
Proof.
  intros Hemb Hidx. unfold retrieveDocs.
  rewrite result_of_tryCatch by extends_tac.
  rewrite result_of_bind by extends_tac. rewrite Hemb.
  rewrite result_of_bind by extends_tac.
  change (result_of (call (CallVectorize v k) (VECTORIZE_query env v k)))
    with (VECTORIZE_query env v k).
  rewrite Hidx. destruct vq as [[|vm vms]|]; [reflexivity | | reflexivity].
  cbv zeta. rewrite result_of_bind by extends_tac.
  match goal with
  | |- context [result_of (call ?ev ?o)] =>
      change (result_of (call ev o)) with o
  end.
  destruct (database_run env _ _) as [[rows|] | e]; try reflexivity.
  rewrite result_of_ret, combine_matches_spec. reflexivity.
Qed.

(** C7.  When the query is embedded, the vector index answers with at most
    [k] matches in descending score order, and the document store answers:
    [retrieveDocs] returns, in the index's order, the index matches that
    have a record in the store, each with its record and its score; they
    are at most [k], in descending score order; an index match without a
    record is left out; with zero index matches the result is the empty
    sequence. *)
Theorem retrieveDocs_ranked (q : jsstr) (k : Z) (env : Env)
    (v : option (list Q)) (vq : option (list VMatch)) (vms : list VMatch)
    (rows_opt : option (list Row)) (rows : list Row) :
  result_of (generateEmbeddings q env) = Returned v ->
  VECTORIZE_query env v k = Returned vq ->
  vms = match vq with Some l => l | None => [] end ->
  Z.of_nat (length vms) <= k ->
  descending vm_score vms ->
  database_run env (query_sql (map vm_id vms)) (map vm_id vms) = Returned rows_opt ->
  rows = match rows_opt with Some r => r | None => [] end ->
  exists ms,
    result_of (retrieveDocs q k env) = Returned ms /\
    ms = flat_map (hydrate rows) vms /\
    Z.of_nat (length ms) <= k /\
    descending score ms /\
    (vms = [] -> ms = []).
Proof.
  intros Hemb Hidx Hvms Hlen Hsorted Hdb Hrows.
  exists (flat_map (hydrate rows) vms).
  split; [|split; [reflexivity|split; [|split]]].
  - rewrite (retrieveDocs_result q k env v vq Hemb Hidx).
    destruct vq as [[|vm rest]|]; subst vms; try reflexivity.
    rewrite Hdb. destruct rows_opt as [r|]; subst rows; [reflexivity|].
    rewrite hydrate_nil_rows. reflexivity.
  - pose proof (hydrate_length rows vms). lia.
  - apply hydrate_descending. exact Hsorted.
  - intros ->. reflexivity.
Qed.

Lemma retrieveDocs_ranked_witness :
  result_of (retrieveDocs question 8 env_partial_store) =
    Returned [mars_match (9 # 10); venus_match (6 # 10)] /\
  descending score [mars_match (9 # 10); venus_match (6 # 10)].
Proof.
  assert (S : descending vm_score
                [{| vm_id := lit "7"; vm_score := 9 # 10 |};
                 {| vm_id := lit "8"; vm_score := 8 # 10 |};
                 {| vm_id := lit "9"; vm_score := 6 # 10 |}]).
  { unfold descending.
    repeat (constructor; [| repeat (constructor; [vm_compute; discriminate|]);
                            try constructor ]).
    constructor. }
  destruct (retrieveDocs_ranked question 8 env_partial_store
              (Some [1 # 2; 1 # 4])
              (Some [{| vm_id := lit "7"; vm_score := 9 # 10 |};
                     {| vm_id := lit "8"; vm_score := 8 # 10 |};
                     {| vm_id := lit "9"; vm_score := 6 # 10 |}])
              [{| vm_id := lit "7"; vm_score := 9 # 10 |};
               {| vm_id := lit "8"; vm_score := 8 # 10 |};
               {| vm_id := lit "9"; vm_score := 6 # 10 |}]
              (Some [venus_row; mars_row]) [venus_row; mars_row]
              eq_refl eq_refl eq_refl ltac:(simpl; lia) S eq_refl eq_refl)
    as [ms [H1 [H2 [_ [H4 _]]]]].
  assert (E : ms = [mars_match (9 # 10); venus_match (6 # 10)]).
  { rewrite H2. reflexivity. }
  rewrite <- E. split; [exact H1 | exact H4].
Defined.

(* ===================================================================== *)
(** * The context assembler                                                *)
(* ===================================================================== *)

Lemma NilEmpty_digits (d : Decimal.uint) :
  Forall (fun c => is_digit c = true) (lit (NilEmpty.string_of_uint d)).
Proof.
  induction d; simpl; constructor; try reflexivity; exact IHd.
Qed.

Lemma Z_toString_digits (n : Z) :
  0 <= n -> Forall (fun c => is_digit c = true) (Z_toString n).
Proof.
  intros Hn. unfold Z_toString. destruct n as [|p|p]; [| |lia].
  - repeat constructor.
  - unfold Z.to_int, NilZero.string_of_int, NilZero.string_of_uint.
    destruct (Pos.to_uint p) eqn:E; try (rewrite <- E; apply NilEmpty_digits).
    repeat constructor.
Qed.

Lemma pad_zeros_digits (n : nat) (s : jsstr) :
  Forall (fun c => is_digit c = true) s ->
  Forall (fun c => is_digit c = true) (pad_zeros n s).
Proof.
  intros H. unfold pad_zeros. apply Forall_app. split; [|exact H].
  induction (n - length s)%nat; simpl; constructor; [reflexivity | assumption].
Qed.

Lemma pad_zeros_length (n : nat) (s : jsstr) : (n <= length (pad_zeros n s))%nat.
Proof. unfold pad_zeros. rewrite length_app, repeat_length. unfold jschar. lia. Qed.

Lemma Forall_skipn {A} (P : A -> Prop) (n : nat) (l : list A) :
  Forall P l -> Forall P (skipn n l).
Proof.
  revert l. induction n as [|n IH]; intros l H; simpl; [exact H|].
  destruct l; [constructor|]. apply IH. inversion H; assumption.
Qed.

(** [toFixed(4)] renders a sign and integer part, a point, and exactly
    four decimal digits. *)
Lemma toFixed_4_format (x : Q) :
  exists whole frac,
    toFixed x 4 = whole ++ lit "." ++ frac /\
    whole <> [] /\ length frac = 4%nat /\
    Forall (fun c => is_digit c = true) frac.
Proof.
  unfold toFixed. cbv zeta.
  set (ax := if Qltb x 0 then (- x)%Q else x).
  set (n := Qfloor (ax * inject_Z (10 ^ Z.of_nat 4) + (1 # 2))).
  set (m := pad_zeros 5 (Z_toString n)).
  assert (Hax : (0 <= ax)%Q).
  { unfold ax. destruct (Qltb x 0) eqn:E.
    - apply Qltb_lt in E. apply Qlt_le_weak in E.
      apply Qopp_le_compat in E. exact E.
    - apply Qltb_ge in E. exact E. }
  assert (Hn : 0 <= n).
  { unfold n. change 0 with (Qfloor 0). apply Qfloor_resp_le.
    apply Qle_trans with (ax * inject_Z (10 ^ Z.of_nat 4))%Q.
    - apply Qmult_le_0_compat; [exact Hax | discriminate].
    - rewrite <- (Qplus_0_r (ax * _)) at 1.
      apply Qplus_le_r. discriminate. }
  pose proof (pad_zeros_length 5 (Z_toString n)) as Hlen. fold m in Hlen.
  exists ((if Qltb x 0 then lit "-" else []) ++ firstn (length m - 4) m),
         (skipn (length m - 4) m).
  split; [rewrite <- app_assoc; reflexivity|]. split; [|split].
  - intros H. apply app_eq_nil in H. destruct H as [_ H].
    apply (f_equal (@length jschar)) in H. rewrite length_firstn in H.
    simpl in H. lia.
  - rewrite length_skipn. lia.
  - apply Forall_skipn. apply pad_zeros_digits. apply Z_toString_digits. exact Hn.
Qed.

Lemma context_text_truncated (t : jsstr) (cap : Z) :
  0 <= cap -> cap < strlen (trim t) ->
  context_text t cap = firstn (Z.to_nat cap) (trim t) ++ ELLIPSIS.
Proof.
  intros H0 H. unfold context_text. cbv zeta.
  destruct (strlen (trim t) >? cap) eqn:E;
    [|rewrite Z.gtb_ltb in E; apply Z.ltb_ge in E; lia].
  unfold substring. cbv zeta.
  replace (Z.min (Z.max 0 0) (strlen (trim t))) with 0 by lia.
  replace (Z.min (Z.max cap 0) (strlen (trim t))) with cap by lia.
  replace (Z.max 0 cap - Z.min 0 cap) with cap by lia.
  replace (Z.to_nat (Z.min 0 cap)) with O by lia.
  reflexivity.
Qed.

Lemma context_text_whole (t : jsstr) (cap : Z) :
  strlen (trim t) <= cap -> context_text t cap = trim t.
Proof.
  intros H. unfold context_text. cbv zeta.
  destruct (strlen (trim t) >? cap) eqn:E; [|reflexivity].
  apply Z.gtb_lt in E. lia.
Qed.

(** C8, as amended.  [buildContextSnippet] handles the matches in ranking
    order.  The block of the match at index [i] is the header line
    [--- DOC i+1 (id=..., score=...) ---], the text, and a line break; the
    header carries the ordinal, the chunk id (the word [unknown] in its
    place when the id is 0) and the score rendered by [toFixed(4)], which
    has exactly four decimal digits; the text is the chunk text trimmed,
    cut to its first [cap] characters with the marker appended exactly when
    the trimmed text is longer than [cap]; the blocks are joined by a blank
    line; and the provenance list has one entry [{id, score, source}] per
    match, in the order of the matches. *)
Theorem buildContextSnippet_blocks (matches : list Match) (cap : Z) :
  provenance (buildContextSnippet matches cap) =
    map (fun m => {| pe_id := id (metadata (document m));
                     pe_score := score m;
                     pe_source := source (metadata (document m)) |}) matches /\
  contextText (buildContextSnippet matches cap) =
    join (nl ++ nl)
      (mapi (fun m i =>
               lit "--- DOC " ++ Z_toString (i + 1) ++ lit " (id=" ++
               (if id (metadata (document m)) =? 0 then lit "unknown"
                else Z_toString (id (metadata (document m)))) ++
               lit ", score=" ++ toFixed (score m) 4 ++ lit ") ---" ++ nl ++
               context_text (page_content (document m)) cap ++ nl)
            matches) /\
  (forall t, 0 <= cap -> cap < strlen (trim t) ->
     context_text t cap = firstn (Z.to_nat cap) (trim t) ++ [32%N; 8230%N]) /\
  (forall t, strlen (trim t) <= cap -> context_text t cap = trim t) /\
  (forall m, In m matches ->
     exists whole frac,
       toFixed (score m) 4 = whole ++ lit "." ++ frac /\
       whole <> [] /\ length frac = 4%nat /\
       Forall (fun c => is_digit c = true) frac).
Proof.
  rewrite buildContextSnippet_spec. cbn [provenance contextText].
  split; [reflexivity|]. split; [reflexivity|]. split; [|split].
  - intros t. apply context_text_truncated.
  - intros t. apply context_text_whole.
  - intros m _. apply toFixed_4_format.
Qed.

Lemma buildContextSnippet_blocks_witness :
  (* a chunk of 2000 characters against a cap of 1500 *)
  contextText (buildContextSnippet [match_with_text (repeat 97%N 2000)] 1500) =
    lit "--- DOC 1 (id=3, score=0.5000) ---" ++ nl ++
    repeat 97%N 1500 ++ [32%N; 8230%N] ++ nl /\
  (* a chunk of 1000 characters against the same cap *)
  contextText (buildContextSnippet [match_with_text (repeat 97%N 1000)] 1500) =
    lit "--- DOC 1 (id=3, score=0.5000) ---" ++ nl ++ repeat 97%N 1000 ++ nl /\
  provenance (buildContextSnippet [mars_match (9 # 10); venus_match (6 # 10)] 1500) =
    [{| pe_id := 7; pe_score := 9 # 10; pe_source := Some (lit "mars.pdf") |};
     {| pe_id := 9; pe_score := 6 # 10; pe_source := Some (lit "venus.pdf") |}].
Proof.
  split; [|split].
  - rewrite (proj1 (proj2 (buildContextSnippet_blocks
                             [match_with_text (repeat 97%N 2000)] 1500))).
    vm_compute. reflexivity.
  - rewrite (proj1 (proj2 (buildContextSnippet_blocks
                             [match_with_text (repeat 97%N 1000)] 1500))).
    vm_compute. reflexivity.
  - rewrite (proj1 (buildContextSnippet_blocks
                      [mars_match (9 # 10); venus_match (6 # 10)] 1500)).
    reflexivity.
Defined.

(** C8, as stated, fails.  For a match whose chunk id is the number 0 the
    header reads [id=unknown]: it does not carry the chunk id. *)
Lemma buildContextSnippet_id_zero_unknown :
  id (metadata (document match_id_zero)) = 0 /\
  contextText (buildContextSnippet [match_id_zero] 1500) =
    lit "--- DOC 1 (id=unknown, score=0.9000) ---" ++ nl ++ lit "zero" ++ nl /\
  contextText (buildContextSnippet [match_id_zero] 1500) <>
    lit "--- DOC 1 (id=" ++ Z_toString (id (metadata (document match_id_zero))) ++
    lit ", score=0.9000) ---" ++ nl ++ lit "zero" ++ nl.
Proof.
  split; [reflexivity|]. split; [vm_compute; reflexivity|].
  vm_compute. discriminate.
Qed.

(* ===================================================================== *)
(** * The [/query] route                                                   *)
(* ===================================================================== *)

Lemma query_route_result p_text p_mode p_topK p_thr env :
  result_of (query_route p_text p_mode p_topK p_thr env) =
  let question := param_or p_text (lit "What is the square root of 9?") in
  let mode := param_or p_mode (lit "hybrid") in
  match result_of (answerQuery question mode (int_or p_topK 8)
                     (float_or p_thr (72 # 100)) env) with
  | Returned result => Returned (JsonReply (format_response question mode result env))
  | Thrown e =>
      Returned (JsonErrorReply 500 (lit "Failed to process query") (message e))
  end.
Proof.
  unfold query_route. cbv zeta.
  rewrite result_of_tryCatch by extends_tac.
  rewrite result_of_bind by extends_tac.
  match goal with
  | |- context [result_of (emit ?ev)] =>
      change (result_of (emit ev)) with (Returned tt)
  end.
  cbv iota beta.
  rewrite result_of_bind by extends_tac.
  destruct (result_of (answerQuery _ _ _ _ _)); reflexivity.
Qed.




(* ===================================================================== *)
(** * More on the chunker                                                  *)
(* ===================================================================== *)

Import MoreObservations.

Lemma strlen_app (a b : jsstr) : strlen (a ++ b) = strlen a + strlen b.
Proof. unfold strlen. rewrite length_app. lia. Qed.

Lemma trim_shorter (s : jsstr) : strlen (trim s) <= strlen s.
Proof.
  unfold trim.
  destruct (trimEnd_prefix (trimStart s)) as [post H].
  destruct (trimStart_suffix s) as [pre H'].
  apply (f_equal strlen) in H, H'. rewrite strlen_app in H, H'.
  pose proof (strlen_nonneg post). pose proof (strlen_nonneg pre). lia.
Qed.

Lemma slice_shorter (s : jsstr) (a b : Z) :
  0 <= a -> a <= b -> strlen (slice s a b) <= b - a.
Proof.
  intros Ha Hab. unfold slice, slice_index. cbv zeta.
  destruct (a <? 0) eqn:Ea; [apply Z.ltb_lt in Ea; lia|].
  destruct (b <? 0) eqn:Eb; [apply Z.ltb_lt in Eb; lia|].
  unfold strlen. rewrite length_firstn. lia.
Qed.

Lemma occurs_in_refl (s : jsstr) : occurs_in s s.
Proof. exists [], []. rewrite app_nil_r. reflexivity. Qed.

Lemma occurs_in_trans (a b c : jsstr) :
  occurs_in a b -> occurs_in b c -> occurs_in a c.
Proof.
  intros [p1 [q1 H1]] [p2 [q2 H2]]. exists (p2 ++ p1), (q1 ++ q2).
  rewrite H2, H1, <- !app_assoc. reflexivity.
Qed.

Lemma slice_occurs (s : jsstr) (a b : Z) : occurs_in (slice s a b) s.
Proof.
  unfold slice. cbv zeta.
  set (j := Z.to_nat (slice_index (strlen s) a)).
  set (k := Z.to_nat _).
  exists (firstn j s), (skipn k (skipn j s)).
  rewrite (firstn_skipn k (skipn j s)), (firstn_skipn j s). reflexivity.
Qed.

Lemma trim_occurs (s : jsstr) : occurs_in (trim s) s.
Proof.
  unfold trim.
  destruct (trimEnd_prefix (trimStart s)) as [post H].
  destruct (trimStart_suffix s) as [pre H'].
  exists pre, post. rewrite <- H. exact H'.
Qed.

Lemma cut_occurs (text : jsstr) (w : Z * Z) : occurs_in (cut text w) text.
Proof.
  unfold cut. eapply occurs_in_trans; [apply trim_occurs | apply slice_occurs].
Qed.

Lemma last_position_upper (P : jschar -> bool) s bound p :
  -1 <= bound -> last_position P s bound p -> p <= bound.
Proof. intros Hb [[-> | [H _]] _]; lia. Qed.

Lemma window_end_upper (text : jsstr) (chunkSize start : Z) :
  0 <= start + chunkSize ->
  window_end text chunkSize start <= start + chunkSize + 1.
Proof.
  intros H. unfold window_end. cbv zeta.
  assert (Hb : -1 <= start + chunkSize) by lia.
  pose proof (last_position_upper _ _ _ _ Hb
                (lastSentenceEnd_last_position text (start + chunkSize) H)).
  pose proof (last_position_upper _ _ _ _ Hb
                (lastSpace_last_position text (start + chunkSize) H)).
  destruct (start + chunkSize <? strlen text); [|lia].
  destruct (Qltb _ (inject_Z (lastSentenceEnd _ _))); [lia|].
  destruct (Qltb _ (inject_Z (lastIndexOf _ _ _))); lia.
Qed.

Lemma window_end_above_start (text : jsstr) (chunkSize start : Z) :
  0 < chunkSize -> start < window_end text chunkSize start.
Proof.
  intros H. pose proof (window_end_progress text chunkSize 0 start H ltac:(lia)).
  lia.
Qed.

Section Windows.
Variables (text : jsstr) (chunkSize overlap : Z).
Hypothesis size_positive : 0 < chunkSize.

Lemma windows_bounds (n : nat) :
  10 * overlap <= 7 * chunkSize ->
  forall s, 0 <= s ->
    Forall (fun w => 0 <= fst w /\ fst w < snd w <= fst w + chunkSize + 1)
           (windows n text chunkSize overlap s).
Proof.
  intros Ho. induction n as [|n IH]; intros s Hs; simpl; constructor.
  - cbn [fst snd]. split; [exact Hs|]. split.
    + apply window_end_above_start. exact size_positive.
    + apply window_end_upper. lia.
  - apply IH. pose proof (window_end_progress text chunkSize overlap s
                            size_positive Ho). lia.
Qed.

Lemma windows_cover (n : nat) :
  0 <= overlap ->
  forall s acc,
    strlen text <= fst (state_after n text chunkSize overlap (s, acc)) ->
    forall i, s <= i < strlen text ->
      exists w, In w (windows n text chunkSize overlap s) /\ fst w <= i < snd w.
Proof.
  intros Ho. induction n as [|n IH]; intros s acc Hend i Hi.
  - simpl in Hend. lia.
  - rewrite state_after_S in Hend. unfold chunk_iter in Hend.
    cbn [windows].
    destruct (Z_lt_le_dec i (window_end text chunkSize s)) as [L | L].
    + exists (s, window_end text chunkSize s). split; [left; reflexivity|].
      cbn [fst snd]. lia.
    + destruct (IH _ _ Hend i ltac:(lia)) as [w [Hw Hi']].
      exists w. split; [right; exact Hw | exact Hi'].
Qed.

End Windows.

(** With a positive [chunkSize] and an [overlap] of at most
    [0.7 * chunkSize], [chunkText] returns on every text. *)
Lemma chunkText_returns (text : jsstr) (chunkSize overlap : Z) :
  0 < chunkSize -> 10 * overlap <= 7 * chunkSize ->
  exists chunks, chunkText (length text) text chunkSize overlap = Some chunks.
Proof.
  intros Hc Ho. unfold chunkText.
  destruct (negb (truthy text) || (strlen text <=? chunkSize))%bool; [eauto|].
  apply chunk_loop_terminates; [exact Hc | exact Ho |].
  cbn [fst]. unfold strlen. lia.
Qed.

(** What [chunkText] returns for a text longer than [chunkSize]: the kept
    cuts of the windows of the loop, which was left with [start] at or
    past the end of the text. *)
Lemma chunkText_long_windows (fuel : nat) (text : jsstr) (chunkSize overlap : Z)
    (chunks : list jsstr) :
  0 <= chunkSize -> chunkSize < strlen text ->
  chunkText fuel text chunkSize overlap = Some chunks ->
  exists n,
    chunks = filter nonempty (map (cut text) (windows n text chunkSize overlap 0)) /\
    strlen text <= fst (state_after n text chunkSize overlap (0, [])).
Proof.
  intros Hc Hlong Hrun.
  assert (Hguard : (negb (truthy text) || (strlen text <=? chunkSize))%bool = false).
  { apply orb_false_iff. split.
    - destruct text; [unfold strlen in Hlong; simpl in Hlong; lia | reflexivity].
    - apply Z.leb_gt. exact Hlong. }
  unfold chunkText in Hrun. rewrite Hguard in Hrun.
  destruct (chunk_loop_some _ _ _ _ _ _ Hrun) as [n [_ [H1 [H2 _]]]].
  rewrite state_after_windows in H1. simpl in H1.
  exists n. split; [symmetry; exact H1 | exact H2].
Qed.

(** X1.  With a positive [chunkSize] and an [overlap] of at most
    [0.7 * chunkSize], [chunkText] returns on a text longer than
    [chunkSize], and no chunk has more than [chunkSize + 1] characters (the
    one more is the sentence terminator found right at the candidate
    boundary). *)
Theorem chunkText_chunk_length (text : jsstr) (chunkSize overlap : Z) :
  0 < chunkSize -> 10 * overlap <= 7 * chunkSize ->
  chunkSize < strlen text ->
  (exists chunks, chunkText (length text) text chunkSize overlap = Some chunks) /\
  (forall fuel chunks,
     chunkText fuel text chunkSize overlap = Some chunks ->
     Forall (fun c => strlen c <= chunkSize + 1) chunks).
Proof.
  intros Hc Ho Hlong. split; [apply chunkText_returns; assumption|].
  intros fuel chunks Hrun.
  destruct (chunkText_long_windows fuel text chunkSize overlap chunks
              ltac:(lia) Hlong Hrun) as [n [-> _]].
  pose proof (windows_bounds text chunkSize overlap Hc n Ho 0 ltac:(lia)) as Hb.
  clear Hrun. induction Hb as [|w ws [Hw0 [Hw1 Hw2]] _ IH]; simpl; [constructor|].
  destruct (nonempty (cut text w)); [|exact IH].
  constructor; [|exact IH]. unfold cut.
  pose proof (trim_shorter (slice text (fst w) (snd w))).
  pose proof (slice_shorter text (fst w) (snd w) Hw0 ltac:(lia)). lia.
Qed.

Lemma chunkText_chunk_length_witness :
  Forall (fun c => strlen c <= 10 + 1)
         [lit "aaaaaaaaaa."; lit "aa.aaaaa"; lit "a"].
Proof.
  exact (proj2 (chunkText_chunk_length (lit "aaaaaaaaaa.aaaaa") 10 3
                  ltac:(lia) ltac:(lia) eq_refl)
           20%nat [lit "aaaaaaaaaa."; lit "aa.aaaaa"; lit "a"] eq_refl).
Defined.

(** X2.  With a positive [chunkSize] and an [overlap] between 0 and
    [0.7 * chunkSize], the windows that [chunkText] cuts from a text
    longer than [chunkSize] leave no gap: every position of the text lies
    in one of the windows whose trimmed cuts the chunks are. *)
Theorem chunkText_windows_cover (text : jsstr) (chunkSize overlap : Z) :
  0 < chunkSize -> 0 <= overlap -> 10 * overlap <= 7 * chunkSize ->
  chunkSize < strlen text ->
  exists n chunks,
    chunkText (length text) text chunkSize overlap = Some chunks /\
    chunks = filter nonempty (map (cut text) (windows n text chunkSize overlap 0)) /\
    forall i, 0 <= i < strlen text ->
      exists w, In w (windows n text chunkSize overlap 0) /\ fst w <= i < snd w.
Proof.
  intros Hc Ho0 Ho Hlong.
  destruct (chunkText_returns text chunkSize overlap Hc Ho) as [chunks Hrun].
  assert (Hc0 : 0 <= chunkSize) by lia.
  destruct (chunkText_long_windows _ _ _ _ _ Hc0 Hlong Hrun) as [n [E Hend]].
  exists n, chunks. split; [exact Hrun|]. split; [exact E|].
  intros i Hi. exact (windows_cover text chunkSize overlap n Ho0 0 [] Hend i Hi).
Qed.

Lemma chunkText_windows_cover_witness :
  exists n chunks,
    chunkText (length three_sentences) three_sentences 20 5 = Some chunks /\
    forall i, 0 <= i < strlen three_sentences ->
      exists w, In w (windows n three_sentences 20 5 0) /\ fst w <= i < snd w.
Proof.
  destruct (chunkText_windows_cover three_sentences 20 5
              ltac:(lia) ltac:(lia) ltac:(lia) eq_refl) as [n [chunks [H1 [_ H3]]]].
  exists n, chunks. split; [exact H1 | exact H3].
Defined.

(** X3.  Every chunk that [chunkText] returns is a contiguous part of the
    input text, for every configuration; and [chunkText] does return when
    [chunkSize] is positive and [overlap] is at most [0.7 * chunkSize]. *)
Theorem chunkText_chunks_occur (text : jsstr) (chunkSize overlap : Z) :
  (forall fuel chunks,
     chunkText fuel text chunkSize overlap = Some chunks ->
     Forall (fun c => occurs_in c text) chunks) /\
  (0 < chunkSize -> 10 * overlap <= 7 * chunkSize ->
   exists chunks, chunkText (length text) text chunkSize overlap = Some chunks).
Proof.
  split; [|apply chunkText_returns].
  intros fuel chunks Hrun. unfold chunkText in Hrun.
  destruct (negb (truthy text) || (strlen text <=? chunkSize))%bool.
  - injection Hrun as <-. constructor; [apply occurs_in_refl | constructor].
  - destruct (chunk_loop_some _ _ _ _ _ _ Hrun) as [n [_ [H1 _]]].
    rewrite state_after_windows in H1. simpl in H1. rewrite <- H1. clear H1.
    induction (windows n text chunkSize overlap 0) as [|w ws IH]; simpl;
      [constructor|].
    destruct (nonempty (cut text w)); [|exact IH].
    constructor; [apply cut_occurs | exact IH].
Qed.

Lemma chunkText_chunks_occur_witness :
  Forall (fun c => occurs_in c three_sentences)
         [lit "Sentence one. Senten"; lit "entence two. Sentenc";
          lit "ntence three."].
Proof.
  exact (proj1 (chunkText_chunks_occur three_sentences 20 5) 50%nat
           [lit "Sentence one. Senten"; lit "entence two. Sentenc";
            lit "ntence three."] eq_refl).
Defined.

Lemma mapi_from_nth {A B} (f : A -> Z -> B) (l : list A) :
  forall i j,
    nth_error (mapi_from f i l) j =
    option_map (fun a => f a (i + Z.of_nat j)) (nth_error l j).
Proof.
  induction l as [|a r IH]; intros i j.
  - destruct j; reflexivity.
  - destruct j as [|j]; simpl.
    + rewrite Z.add_0_r. reflexivity.
    + rewrite IH. destruct (nth_error r j); simpl; [|reflexivity].
      do 2 f_equal. lia.
Qed.

(** X4.  The pieces that [chunkTextWithMetadata] returns are numbered from
    0 in order: the piece at position [j] has [chunkIndex = j]; its
    [chunkSize] is the length of its own text, [originalTextLength] the
    length of the whole input, [totalChunks] the number of pieces, and
    [filename] the file name passed in. *)
Theorem chunkTextWithMetadata_fields (fuel : nat) (text filename : jsstr)
    (chunkSize overlap : Z) (pieces : list ChunkWithMetadata) :
  chunkTextWithMetadata fuel text filename chunkSize overlap = Some pieces ->
  forall j piece,
    nth_error pieces j = Some piece ->
    cm_chunkIndex (cwm_metadata piece) = Z.of_nat j /\
    cm_chunkSize (cwm_metadata piece) = strlen (cwm_text piece) /\
    cm_originalTextLength (cwm_metadata piece) = strlen text /\
    cm_totalChunks (cwm_metadata piece) = Z.of_nat (length pieces) /\
    cm_filename (cwm_metadata piece) = filename.
Proof.
  unfold chunkTextWithMetadata.
  destruct (chunkText fuel text chunkSize overlap) as [chunks|]; [|discriminate].
  intros [= <-] j piece Hj.
  unfold decorate, mapi in *. rewrite mapi_from_nth in Hj.
  rewrite mapi_from_length.
  destruct (nth_error chunks j) as [c|]; [|discriminate].
  injection Hj as <-. cbn. repeat split; reflexivity.
Qed.

Lemma chunkTextWithMetadata_fields_witness :
  exists pieces piece,
    chunkTextWithMetadata 50 three_sentences (lit "s.txt") 20 5 = Some pieces /\
    nth_error pieces 2 = Some piece /\
    cm_chunkIndex (cwm_metadata piece) = 2 /\
    cm_totalChunks (cwm_metadata piece) = 3.
Proof.
  destruct (chunkTextWithMetadata 50 three_sentences (lit "s.txt") 20 5)
    as [pieces|] eqn:E; [|vm_compute in E; discriminate E].
  destruct (nth_error pieces 2) as [piece|] eqn:E2.
  - exists pieces, piece.
    destruct (chunkTextWithMetadata_fields _ _ _ _ _ _ E 2%nat piece E2)
      as [H1 [_ [_ [H4 _]]]].
    split; [reflexivity|]. split; [exact E2|]. split; [exact H1|].
    rewrite H4. vm_compute in E. injection E as <-. reflexivity.
  - vm_compute in E. injection E as <-. discriminate E2.
Defined.

(* ===================================================================== *)
(** * What a computation never logs                                        *)
(* ===================================================================== *)

Import MoreSamples.

Section Only.
Variable P : event -> Prop.

Lemma only_ret {A} (a : A) : only P (ret a).
Proof. constructor. Qed.

Lemma only_throw {A} (e : JsError) : only P (@throw A e).
Proof. constructor. Qed.

Lemma only_await {A} (o : outcome A) : only P (await o).
Proof. constructor. Qed.

Lemma only_call {A} (ev : event) (o : outcome A) : P ev -> only P (call ev o).
Proof. intros H. constructor; [exact H | constructor]. Qed.

Lemma only_emit (ev : event) : P ev -> only P (emit ev).
Proof. intros H. constructor; [exact H | constructor]. Qed.

Lemma only_bind {A B} (m : M A) (k : A -> M B) :
  extends m -> (forall a, extends (k a)) ->
  only P m -> (forall a, only P (k a)) -> only P (bind m k).
Proof.
  intros Hm Hk Pm Pk. unfold only. rewrite events_of_bind by assumption.
  apply Forall_app. split; [exact Pm|].
  destruct (result_of m); [apply Pk | constructor].
Qed.

Lemma only_tryCatch {A} (body : M A) (handler : JsError -> M A) :
  extends body -> (forall e, extends (handler e)) ->
  only P body -> (forall e, only P (handler e)) -> only P (tryCatch body handler).
Proof.
  intros Hm Hk Pm Pk. unfold only. rewrite events_of_tryCatch by assumption.
  apply Forall_app. split; [exact Pm|].
  destruct (result_of body); [constructor | apply Pk].
Qed.

End Only.

Create HintDb js_only.

(** Breaks a goal [only P m] along the structure of [m]; [leaf] closes the
    goals [P ev] for the events met on the way. *)
Ltac only_step leaf :=
  first
    [ apply only_ret | apply only_throw | apply only_await
    | apply only_call; solve [leaf] | apply only_emit; solve [leaf]
    | apply only_bind; [solve [extends_tac] | solve [extends_tac] | | ]
    | apply only_tryCatch; [solve [extends_tac] | solve [extends_tac] | | ]
    | solve [auto with js_only]
    | match goal with
      | |- only _ (if ?b then _ else _) => destruct b
      | |- only _ (match ?x with _ => _ end) => destruct x
      | |- forall _, _ => intro
      end
    | progress cbv zeta ].

Ltac only_tac leaf := repeat (only_step leaf).

Ltac leaf_refl := first [exact I | reflexivity | split; reflexivity].

(* ===================================================================== *)
(** * More on retrieval and generation                                     *)
(* ===================================================================== *)

Lemma count_char_app c (a b : jsstr) :
  count_char c (a ++ b) = (count_char c a + count_char c b)%nat.
Proof. unfold count_char. rewrite filter_app, length_app. reflexivity. Qed.

Lemma placeholders_count {A} (ids : list A) :
  count_char 63%N (join (lit ",") (map (fun _ => lit "?") ids)) = length ids.
Proof.
  induction ids as [|i r IH]; [reflexivity|].
  destruct r as [|j r']; [reflexivity|].
  change (join (lit ",") (map (fun _ : A => lit "?") (i :: j :: r')))
    with (lit "?" ++ lit "," ++ join (lit ",") (map (fun _ : A => lit "?") (j :: r'))).
  rewrite !count_char_app, IH. reflexivity.
Qed.

Lemma query_sql_placeholders (ids : list jsstr) :
  count_char 63%N (query_sql ids) = length ids.
Proof.
  unfold query_sql. cbv zeta.
  rewrite !count_char_app, placeholders_count.
  change (count_char 63%N (lit "SELECT * FROM pdfs WHERE id IN (")) with O.
  change (count_char 63%N (lit ") ORDER BY chunk_index ASC")) with O.
  rewrite Nat.add_0_r. reflexivity.
Qed.

(** X5.  Every statement that [retrieveDocs] sends to the database has
    exactly one [?] placeholder per value it binds. *)
Theorem retrieveDocs_binds_match (q : jsstr) (k : Z) (env : Env) :
  only binds_match_placeholders (retrieveDocs q k env).
Proof.
  unfold retrieveDocs, generateEmbeddings.
  only_tac ltac:(first [exact I | apply query_sql_placeholders]).
Qed.

(** X6.  [generateEmbeddings] returns a vector only when the embedding
    service answered OK with that vector in its body; a reply that is not
    OK is thrown as ["Embedding API error: <status> <statusText>"], a
    rejected request is thrown as it is; and the service is called exactly
    once. *)
Theorem generateEmbeddings_outcomes (t : jsstr) (env : Env) :
  (forall v,
     result_of (generateEmbeddings t env) = Returned v <->
     exists resp, embedding_fetch env t = Returned resp /\ ok resp = true /\
                  json resp = Returned (Some v)) /\
  (forall resp,
     embedding_fetch env t = Returned resp -> ok resp = false ->
     result_of (generateEmbeddings t env) =
       Thrown {| message := lit "Embedding API error: " ++
                            Z_toString (status resp) ++ lit " " ++
                            statusText resp |}) /\
  (forall e,
     embedding_fetch env t = Thrown e ->
     result_of (generateEmbeddings t env) = Thrown e) /\
  filter is_outside_call (events_of (generateEmbeddings t env)) =
    [CallEmbedding (GOOGLE_API_KEY env) t].
Proof.
  unfold result_of, events_of, run, generateEmbeddings, tryCatch, bind, call,
    await, throw, ret, emit.
  destruct (embedding_fetch env t) as [resp | e0] eqn:E.
  - destruct (ok resp) eqn:Eok; cbn [negb].
    + destruct (json resp) as [[v0|] | e1] eqn:Ej; cbn.
      * split; [|split; [|split]]; try reflexivity.
        -- intros v. split.
           ++ intros [= <-]. exists resp. auto.
           ++ intros [r [[= <-] [_ H]]]. rewrite Ej in H. congruence.
        -- intros r [= <-] H. congruence.
        -- intros e [=].
      * split; [|split; [|split]]; try reflexivity.
        -- intros v. split; [discriminate|].
           intros [r [[= <-] [_ H]]]. rewrite Ej in H. discriminate.
        -- intros r [= <-] H. congruence.
        -- intros e [=].
      * split; [|split; [|split]]; try reflexivity.
        -- intros v. split; [discriminate|].
           intros [r [[= <-] [_ H]]]. rewrite Ej in H. discriminate.
        -- intros r [= <-] H. congruence.
        -- intros e [=].
    + cbn. split; [|split; [|split]]; try reflexivity.
      * intros v. split; [discriminate|].
        intros [r [[= <-] [H _]]]. congruence.
      * intros r [= <-] _. reflexivity.
      * intros e [=].
  - cbn. split; [|split; [|split]]; try reflexivity.
    + intros v. split; [discriminate|]. intros [r [[=] _]].
    + intros r [=].
    + intros e [= <-]. reflexivity.
Qed.

Lemma generateEmbeddings_outcomes_witness :
  result_of (generateEmbeddings question env_embedding_down) =
    Thrown {| message := lit "Embedding API error: 502 Bad Gateway" |}.
Proof.
  exact (proj1 (proj2 (generateEmbeddings_outcomes question env_embedding_down))
           bad_gateway eq_refl eq_refl).
Defined.

Lemma generateEmbeddings_no_lookup (t : jsstr) (env : Env) :
  only (fun ev => is_vectorize_call ev = false /\ is_database_call ev = false /\
                  web_search_event ev = false /\ completion_event ev = false)
       (generateEmbeddings t env).
Proof. unfold generateEmbeddings. only_tac ltac:(repeat split; reflexivity). Qed.

(** X7.  When the query cannot be embedded, [retrieveDocs] throws the same
    error and queries neither the vector index nor the database. *)
Theorem retrieveDocs_embedding_failure (q : jsstr) (k : Z) (env : Env) (e : JsError) :
  result_of (generateEmbeddings q env) = Thrown e ->
  result_of (retrieveDocs q k env) = Thrown e /\
  Forall (fun ev => is_vectorize_call ev = false /\ is_database_call ev = false)
         (events_of (retrieveDocs q k env)).
Proof.
  intros H. unfold retrieveDocs.
  rewrite result_of_tryCatch, events_of_tryCatch by extends_tac.
  rewrite result_of_bind, events_of_bind by extends_tac.
  rewrite H. split; [reflexivity|].
  rewrite app_nil_r. apply Forall_app. split.
  - eapply Forall_impl; [|apply generateEmbeddings_no_lookup].
    intros ev [H1 [H2 _]]. split; assumption.
  - repeat constructor.
Qed.

Lemma retrieveDocs_embedding_failure_witness :
  result_of (retrieveDocs question 8 env_embedding_unreachable) = Thrown timeout_error.
Proof.
  exact (proj1 (retrieveDocs_embedding_failure question 8 env_embedding_unreachable
                  timeout_error eq_refl)).
Defined.

(** X8.  When the vector index reports no matches ([matches] missing or
    empty), [retrieveDocs] returns the empty list without querying the
    database. *)
Theorem retrieveDocs_no_matches (q : jsstr) (k : Z) (env : Env)
    (v : option (list Q)) (vq : option (list VMatch)) :
  result_of (generateEmbeddings q env) = Returned v ->
  VECTORIZE_query env v k = Returned vq ->
  vq = None \/ vq = Some [] ->
  result_of (retrieveDocs q k env) = Returned [] /\
  Forall (fun ev => is_database_call ev = false) (events_of (retrieveDocs q k env)).
Proof.
  intros Hemb Hidx Hvq. unfold retrieveDocs.
  rewrite result_of_tryCatch, events_of_tryCatch by extends_tac.
  rewrite result_of_bind, events_of_bind by extends_tac.
  rewrite Hemb.
  rewrite result_of_bind, events_of_bind by extends_tac.
  change (result_of (call (CallVectorize v k) (VECTORIZE_query env v k)))
    with (VECTORIZE_query env v k).
  change (events_of (call (CallVectorize v k) (VECTORIZE_query env v k)))
    with [CallVectorize v k].
  rewrite Hidx.
  assert (G : Forall (fun ev => is_database_call ev = false)
                     (events_of (generateEmbeddings q env))).
  { eapply Forall_impl; [|apply generateEmbeddings_no_lookup].
    intros ev [_ [H2 _]]. exact H2. }
  destruct Hvq as [-> | ->]; (split; [reflexivity|]);
    rewrite result_of_ret, events_of_ret, !app_nil_r;
    (apply Forall_app; split; [exact G | repeat constructor]).
Qed.

Lemma retrieveDocs_no_matches_witness :
  result_of (retrieveDocs question 8 env_empty) = Returned [].
Proof.
  exact (proj1 (retrieveDocs_no_matches question 8 env_empty
                  (Some [1 # 2; 1 # 4]) (Some []) eq_refl eq_refl
                  (or_intror eq_refl))).
Defined.



(* ===================================================================== *)
(** * More on the tools                                                    *)
(* ===================================================================== *)

From Stdlib Require Import Lqa.


Lemma substring_shorter (s : jsstr) (n : Z) :
  0 <= n -> strlen (substring s 0 n) <= n.
Proof.
  intros H. unfold substring. cbv zeta. unfold strlen.
  rewrite length_firstn. lia.
Qed.





Lemma map_rebuild_items (items : list SearchItem) :
  map (fun item => {| title := title item; link := link item;
                      snippet := snippet item |}) items = items.
Proof.
  induction items as [|[t l s] r IH]; simpl; [|rewrite IH]; reflexivity.
Qed.

(** X11.  [googleSearchTool] makes no request at all when a search
    credential is missing or empty, and returns the empty list; with both
    credentials set and an OK reply it returns the items of the reply, all
    of them and in order (the empty list when the reply has no items). *)
Theorem googleSearchTool_outcomes (q : jsstr) (env : Env) :
  (secret_truthy (GOOGLE_SEARCH_API_KEY env) = false \/
   secret_truthy (GOOGLE_CSE_ID env) = false ->
   result_of (googleSearchTool q env) = Returned [] /\
   filter is_outside_call (events_of (googleSearchTool q env)) = []) /\
  (forall resp items,
     secret_truthy (GOOGLE_SEARCH_API_KEY env) = true ->
     secret_truthy (GOOGLE_CSE_ID env) = true ->
     search_fetch env (secret_text (GOOGLE_SEARCH_API_KEY env))
                  (secret_text (GOOGLE_CSE_ID env)) q = Returned resp ->
     ok resp = true ->
     json resp = Returned items ->
     result_of (googleSearchTool q env) =
       Returned match items with Some l => l | None => [] end /\
     filter is_outside_call (events_of (googleSearchTool q env)) =
       [CallWebSearch (secret_text (GOOGLE_SEARCH_API_KEY env))
                      (secret_text (GOOGLE_CSE_ID env)) q]).
Proof.
  unfold result_of, events_of, run, googleSearchTool, tryCatch, bind, call,
    await, throw, ret, emit.
  split.
  - intros [H | H]; rewrite H; [|rewrite orb_true_r]; split; reflexivity.
  - intros resp items H1 H2 H3 H4 H5. rewrite H1, H2. cbn [negb orb].
    rewrite H3, H4. cbn [negb]. rewrite H5.
    destruct items as [l|]; cbn; [rewrite map_rebuild_items|]; split; reflexivity.
Qed.

Lemma googleSearchTool_outcomes_witness :
  result_of (googleSearchTool question env_no_credentials) = Returned [] /\
  result_of (googleSearchTool question (env_score (9 # 10))) = Returned [moon_item].
Proof.
  split.
  - exact (proj1 (proj1 (googleSearchTool_outcomes question env_no_credentials)
                    (or_introl eq_refl))).
  - exact (proj1 (proj2 (googleSearchTool_outcomes question (env_score (9 # 10)))
                    (ok_response (Some [moon_item])) (Some [moon_item])
                    eq_refl eq_refl eq_refl eq_refl eq_refl)).
Defined.

(** X12.  The text of a context block never exceeds the cap by more than
    the two characters of the marker. *)
Theorem context_text_bounded (t : jsstr) (cap : Z) :
  0 <= cap -> strlen (context_text t cap) <= cap + 2.
Proof.
  intros H. unfold context_text. cbv zeta.
  destruct (strlen (trim t) >? cap) eqn:E.
  - rewrite strlen_app. pose proof (substring_shorter (trim t) cap H).
    change (strlen ELLIPSIS) with 2. lia.
  - rewrite Z.gtb_ltb in E. apply Z.ltb_ge in E. lia.
Qed.

Lemma context_text_bounded_witness :
  strlen (context_text (repeat 97%N 2000) 1500) <= 1500 + 2.
Proof. exact (context_text_bounded (repeat 97%N 2000) 1500 ltac:(lia)). Defined.

(* ===================================================================== *)
(** * More on [answerQuery] and the route                                  *)
(* ===================================================================== *)

Lemma jsstr_eqb_eq (a b : jsstr) : jsstr_eqb a b = true <-> a = b.
Proof.
  unfold jsstr_eqb. destruct (list_eq_dec N.eq_dec a b); split; congruence.
Qed.

Lemma jsstr_eqb_neq (a b : jsstr) : a <> b -> jsstr_eqb a b = false.
Proof.
  unfold jsstr_eqb. destruct (list_eq_dec N.eq_dec a b); congruence.
Qed.

Lemma Forall_existsb_false {A} (f : A -> bool) (l : list A) :
  Forall (fun x => f x = false) l -> existsb f l = false.
Proof.
  induction 1 as [|x r Hx _ IH]; simpl; [reflexivity|]. rewrite Hx, IH. reflexivity.
Qed.


Lemma answerQuery_db_only_thrown q k thr env e :
  result_of (retrieveDocs q k env) = Thrown e ->
  result_of (answerQuery q (lit "db-only") k thr env) = Thrown e /\
  completion_prompts (events_of (answerQuery q (lit "db-only") k thr env)) = [].
Proof.
  intros H. unfold answerQuery.
  rewrite result_of_tryCatch, events_of_tryCatch by extends_tac.
  rewrite mode_db_only_refl.
  rewrite result_of_bind, events_of_bind by extends_tac.
  rewrite H. split; [reflexivity|].
  destruct (retrieveDocs_quiet q k env) as [_ Qc].
  rewrite !completion_prompts_app, Qc. reflexivity.
Qed.

Lemma answerQuery_other_mode q mode k thr env :
  mode <> lit "db-only" -> mode <> lit "hybrid" ->
  result_of (answerQuery q mode k thr env) =
    Thrown {| message := lit "mode must be 'db-only' or 'hybrid'" |} /\
  events_of (answerQuery q mode k thr env) =
    [ConsoleError (lit "Error in answerQuery:")
       {| message := lit "mode must be 'db-only' or 'hybrid'" |}].
Proof.
  intros H1 H2. unfold answerQuery, result_of, events_of, run, tryCatch.
  rewrite (jsstr_eqb_neq _ _ H1), (jsstr_eqb_neq _ _ H2). split; reflexivity.
Qed.

(** X13.  Any mode other than ["db-only"] and ["hybrid"] makes
    [answerQuery] throw ["mode must be 'db-only' or 'hybrid'"] before any
    service is called; the route answers such a request with status 500
    and that message. *)
Theorem answerQuery_invalid_mode (q mode : jsstr) (k : Z) (thr : Q) (env : Env) :
  mode <> lit "db-only" -> mode <> lit "hybrid" ->
  result_of (answerQuery q mode k thr env) =
    Thrown {| message := lit "mode must be 'db-only' or 'hybrid'" |} /\
  filter is_outside_call (events_of (answerQuery q mode k thr env)) = [] /\
  (truthy mode = true ->
   forall p_text p_topK p_thr,
     result_of (query_route p_text (Some mode) p_topK p_thr env) =
       Returned (JsonErrorReply 500 (lit "Failed to process query")
                   (lit "mode must be 'db-only' or 'hybrid'"))).
Proof.
  intros H1 H2.
  split; [apply answerQuery_other_mode; assumption|]. split.
  - rewrite (proj2 (answerQuery_other_mode q mode k thr env H1 H2)). reflexivity.
  - intros Ht p_text p_topK p_thr. rewrite query_route_result. cbv zeta.
    unfold param_or at 2 4. rewrite Ht.
    rewrite (proj1 (answerQuery_other_mode _ mode _ _ env H1 H2)). reflexivity.
Qed.

Lemma answerQuery_invalid_mode_witness :
  result_of (query_route (Some question) (Some (lit "fast")) None None
               (env_score (9 # 10))) =
    Returned (JsonErrorReply 500 (lit "Failed to process query")
                (lit "mode must be 'db-only' or 'hybrid'")).
Proof.
  assert (H1 : lit "fast" <> lit "db-only") by discriminate.
  assert (H2 : lit "fast" <> lit "hybrid") by discriminate.
  exact (proj2 (proj2 (answerQuery_invalid_mode question (lit "fast") 8 (72 # 100)
                         (env_score (9 # 10)) H1 H2))
           eq_refl (Some question) None None).
Defined.

(** X14.  In db-only mode a failed retrieval is not turned into an answer:
    [answerQuery] throws the retrieval error, the completion service is
    not called, and the route answers with status 500 and the error's
    message. *)
Theorem answerQuery_db_only_retrieval_failure (p_text : option jsstr)
    (p_topK : option Z) (p_thr : option Q) (env : Env) (e : JsError) :
  result_of (retrieveDocs (param_or p_text (lit "What is the square root of 9?"))
               (int_or p_topK 8) env) = Thrown e ->
  result_of (answerQuery (param_or p_text (lit "What is the square root of 9?"))
               (lit "db-only") (int_or p_topK 8) (float_or p_thr (72 # 100)) env)
    = Thrown e /\
  completion_prompts
    (events_of (answerQuery (param_or p_text (lit "What is the square root of 9?"))
                  (lit "db-only") (int_or p_topK 8) (float_or p_thr (72 # 100)) env))
    = [] /\
  result_of (query_route p_text (Some (lit "db-only")) p_topK p_thr env) =
    Returned (JsonErrorReply 500 (lit "Failed to process query") (message e)).
Proof.
  intros H.
  destruct (answerQuery_db_only_thrown _ _ (float_or p_thr (72 # 100)) env e H)
    as [A B].
  split; [exact A|]. split; [exact B|].
  rewrite query_route_result. cbv zeta.
  change (param_or (Some (lit "db-only")) (lit "hybrid")) with (lit "db-only").
  rewrite A. reflexivity.
Qed.

Lemma answerQuery_db_only_retrieval_failure_witness :
  result_of (query_route (Some question) (Some (lit "db-only")) None None
               env_embedding_down) =
    Returned (JsonErrorReply 500 (lit "Failed to process query")
                (lit "Embedding API error: 502 Bad Gateway")).
Proof.
  exact (proj2 (proj2 (answerQuery_db_only_retrieval_failure (Some question)
                         None None env_embedding_down
                         {| message := lit "Embedding API error: 502 Bad Gateway" |}
                         eq_refl))).
Defined.



(* ===================================================================== *)
(** * More on the two modes                                                *)
(* ===================================================================== *)

Lemma generateEmbeddings_no_web text env :
  only no_web_search (generateEmbeddings text env).
Proof. unfold generateEmbeddings. only_tac ltac:(reflexivity). Qed.
#[local] Hint Resolve generateEmbeddings_no_web : js_only.

Lemma retrieveDocs_no_web q k env : only no_web_search (retrieveDocs q k env).
Proof. unfold retrieveDocs. only_tac ltac:(reflexivity). Qed.
#[local] Hint Resolve retrieveDocs_no_web : js_only.

Lemma callGemini_no_web sp q ctx env : only no_web_search (callGemini sp q ctx env).
Proof. unfold callGemini, callGeminiWithContext. only_tac ltac:(reflexivity). Qed.
#[local] Hint Resolve callGemini_no_web : js_only.

(** X16.  A db-only query never touches the web search: whatever the
    services answer, [googleSearchTool] is not run and no search request
    is made. *)
Theorem answerQuery_db_only_no_web (q : jsstr) (k : Z) (thr : Q) (env : Env) :
  web_search_attempted (events_of (answerQuery q (lit "db-only") k thr env)) = false /\
  Forall (fun ev => is_search_call ev = false)
         (events_of (answerQuery q (lit "db-only") k thr env)).
Proof.
  assert (H : only no_web_search (answerQuery q (lit "db-only") k thr env)).
  { unfold answerQuery. rewrite mode_db_only_refl. cbv iota.
    only_tac ltac:(reflexivity). }
  split.
  - apply Forall_existsb_false. exact H.
  - eapply Forall_impl; [|exact H].
    intros ev Hev. destruct ev; try reflexivity. discriminate Hev.
Qed.

(** X17.  A hybrid query survives a failed retrieval: the database tool
    hands the agent an empty list, the web search is run, and the
    completion service is prompted with the web results alone (the empty
    context when the search found nothing); the outcome of the query is
    the outcome of that completion call. *)
Theorem hybrid_survives_retrieval_failure (q : jsstr) (k : Z) (thr : Q)
    (env : Env) (e : JsError) :
  result_of (retrieveDocs q 5 env) = Thrown e ->
  web_search_attempted (events_of (answerQuery q (lit "hybrid") k thr env)) = true /\
  completion_prompts (events_of (answerQuery q (lit "hybrid") k thr env)) =
    [build_prompt SYSTEM_PROMPT_HYBRID q
       match web_results q env with
       | [] => []
       | _ => web_block (web_results q env)
       end] /\
  result_of (answerQuery q (lit "hybrid") k thr env) =
    match result_of (callGemini SYSTEM_PROMPT_HYBRID q
                       match web_results q env with
                       | [] => []
                       | _ => web_block (web_results q env)
                       end env) with
    | Returned c => Returned {| answer := text c; qr_provenance := None;
                                qr_raw := None |}
    | Thrown e' => Thrown e'
    end.
Proof.
  intros H.
  assert (D : db_results q env = []).
  { unfold db_results. rewrite dbQueryTool_result, H. reflexivity. }
  destruct (answerQuery_hybrid_events q k thr env) as [A B].
  rewrite answerQuery_hybrid_result, A, B.
  unfold hybrid_web. rewrite D. cbn [db_insufficient hybrid_context app].
  repeat split; reflexivity.
Qed.

Lemma hybrid_survives_retrieval_failure_witness :
  result_of (answerQuery question (lit "hybrid") 8 (72 # 100)
               env_embedding_unreachable) =
    Returned {| answer := lit "Two: Phobos and Deimos (doc 7).";
                qr_provenance := None; qr_raw := None |}.
Proof.
  destruct (hybrid_survives_retrieval_failure question 8 (72 # 100)
              env_embedding_unreachable timeout_error eq_refl) as [_ [_ H]].
  rewrite H. reflexivity.
Defined.

Lemma relevance_literals :
  lit "High" <> lit "Medium" /\ lit "High" <> lit "Low" /\ lit "Medium" <> lit "Low".
Proof. repeat split; discriminate. Qed.

Lemma relevance_of_spec (s : Q) :
  (relevance_of s = lit "High" <-> (8 # 10 < s)%Q) /\
  (relevance_of s = lit "Medium" <-> (6 # 10 < s /\ s <= 8 # 10)%Q) /\
  (relevance_of s = lit "Low" <-> (s <= 6 # 10)%Q).
Proof.
  unfold relevance_of.
  destruct (Qltb (8 # 10) s) eqn:E8; [apply Qltb_lt in E8 | apply Qltb_ge in E8];
    (destruct (Qltb (6 # 10) s) eqn:E6; [apply Qltb_lt in E6 | apply Qltb_ge in E6]);
    repeat split; intros; try discriminate; try assumption; try reflexivity;
    try (exfalso; lra); try tauto.
  all: try (destruct H; exfalso; lra).
Qed.

(** X18.  The response carries [sourceDetails] exactly when the provenance
    of the result is not empty; it then has one detail per source, in
    order, with the source's id, file and score, rated ["High"] for a
    score above 0.8, ["Medium"] for a score above 0.6 and at most 0.8, and
    ["Low"] otherwise. *)
Theorem format_response_details (question mode : jsstr) (result : QueryResult)
    (env : Env) :
  (resp_sources (format_response question mode result env) = [] <->
   resp_sourceDetails (format_response question mode result env) = None) /\
  (forall details,
     resp_sourceDetails (format_response question mode result env) = Some details ->
     Forall2 (fun s d =>
                docId d = pe_id s /\ sd_source d = pe_source s /\
                sd_score d = pe_score s /\
                (relevance d = lit "High" <-> (8 # 10 < pe_score s)%Q) /\
                (relevance d = lit "Medium" <->
                 (6 # 10 < pe_score s /\ pe_score s <= 8 # 10)%Q) /\
                (relevance d = lit "Low" <-> (pe_score s <= 6 # 10)%Q))
             (resp_sources (format_response question mode result env)) details).
Proof.
  unfold format_response. cbn [resp_sources resp_sourceDetails].
  destruct (qr_provenance result) as [[|p ps]|].
  - split; [split; reflexivity | discriminate].
  - split; [split; discriminate|].
    intros details [= <-].
    change (source_detail p :: map source_detail ps)
      with (map source_detail (p :: ps)).
    generalize (p :: ps). intros l.
    induction l as [|s r IH]; simpl; constructor; [|exact IH].
    cbn [source_detail docId sd_source sd_score relevance].
    split; [reflexivity|]. split; [reflexivity|]. split; [reflexivity|].
    exact (relevance_of_spec (pe_score s)).
  - split; [split; reflexivity | discriminate].
Qed.

Lemma format_response_details_witness :
  exists details,
    resp_sourceDetails
      (format_response question (lit "db-only")
         {| answer := NOT_IN_DB;
            qr_provenance := Some [provenance_of (mars_match (7 # 10))];
            qr_raw := None |} (env_score (7 # 10))) = Some details /\
    map relevance details = [lit "Medium"].
Proof.
  eexists. split; [reflexivity|].
  pose proof (proj2 (format_response_details question (lit "db-only")
                       {| answer := NOT_IN_DB;
                          qr_provenance := Some [provenance_of (mars_match (7 # 10))];
                          qr_raw := None |} (env_score (7 # 10))) _ eq_refl) as H.
  inversion H as [|s d ss ds [_ [_ [_ [_ [Hm _]]]]] _]; subst.
  assert (Hs : (6 # 10 < 7 # 10 /\ 7 # 10 <= 8 # 10)%Q)
    by (split; [reflexivity | discriminate]).
  cbn [map]. rewrite (proj2 Hm Hs). reflexivity.
Defined.

(** X19.  The route never throws: it replies with the formatted result of
    [answerQuery], or, when [answerQuery] throws, with status 500, the
    error ["Failed to process query"] and the message of what was
    thrown. *)
Theorem query_route_never_throws (p_text p_mode : option jsstr)
    (p_topK : option Z) (p_thr : option Q) (env : Env) :
  exists reply,
    result_of (query_route p_text p_mode p_topK p_thr env) = Returned reply /\
    (forall e,
       result_of (answerQuery (param_or p_text (lit "What is the square root of 9?"))
                    (param_or p_mode (lit "hybrid")) (int_or p_topK 8)
                    (float_or p_thr (72 # 100)) env) = Thrown e ->
       reply = JsonErrorReply 500 (lit "Failed to process query") (message e)) /\
    (forall r,
       result_of (answerQuery (param_or p_text (lit "What is the square root of 9?"))
                    (param_or p_mode (lit "hybrid")) (int_or p_topK 8)
                    (float_or p_thr (72 # 100)) env) = Returned r ->
       exists body,
         reply = JsonReply body /\ resp_answer body = answer r /\
         resp_mode body = param_or p_mode (lit "hybrid") /\
         resp_query body = param_or p_text (lit "What is the square root of 9?")).
Proof.
  rewrite query_route_result. cbv zeta.
  destruct (result_of (answerQuery _ _ _ _ _)) as [r | e].
  - eexists. split; [reflexivity|]. split; [discriminate|].
    intros r' [= <-]. eexists. split; [reflexivity|]. repeat split; reflexivity.
  - eexists. split; [reflexivity|]. split; [|discriminate].
    intros e' [= <-]. reflexivity.
Qed.

Lemma query_route_never_throws_witness :
  result_of (query_route (Some question) None None None env_completion_down) =
    Returned (JsonErrorReply 500 (lit "Failed to process query")
                (lit "Gemini API error: 502 Bad Gateway")).
Proof.
  destruct (query_route_never_throws (Some question) None None None
              env_completion_down) as [reply [H1 [H2 _]]].
  rewrite H1. f_equal.
  apply (H2 {| message := lit "Gemini API error: 502 Bad Gateway" |}).
  vm_compute. reflexivity.
Defined.

(* ===================================================================== *)
(** * The ingestion side: the route and the URL helper                     *)
(* ===================================================================== *)

Import Ingestion IngestionObservations.
Local Open Scope w_scope.

Section WExtends.
Context {A B : Type}.

Lemma wextends_ret (a : A) : wextends (wret a).
Proof.
  intros t. unfold wret, w_result, w_events, wrun. simpl.
  rewrite app_nil_r. reflexivity.
Qed.

Lemma wextends_throw (e : JsError) : wextends (@wthrow A e).
Proof.
  intros t. unfold wthrow, w_result, w_events, wrun. simpl.
  rewrite app_nil_r. reflexivity.
Qed.

Lemma wextends_call (ev : wevent) (o : outcome A) : wextends (wcall ev o).
Proof. intros t. reflexivity. Qed.

Lemma wextends_bind (m : W A) (k : A -> W B) :
  wextends m -> (forall a, wextends (k a)) -> wextends (wbind m k).
Proof.
  intros Hm Hk t. unfold w_result, w_events, wrun, wbind.
  rewrite (Hm t). unfold w_result, w_events, wrun.
  destruct (m []) as [[a | e] t0]; cbn [fst snd]; [|reflexivity].
  rewrite (Hk a (t ++ t0)), (Hk a t0). cbn [fst snd].
  rewrite app_assoc. reflexivity.
Qed.

Lemma w_result_bind (m : W A) (k : A -> W B) :
  wextends m -> (forall a, wextends (k a)) ->
  w_result (wbind m k) =
  match w_result m with
  | Returned a => w_result (k a)
  | Thrown e => Thrown e
  end.
Proof.
  intros Hm Hk. unfold w_result, wrun, wbind.
  destruct (m []) as [[a | e] t0]; cbn [fst]; [|reflexivity].
  rewrite (Hk a t0). reflexivity.
Qed.

Lemma w_events_bind (m : W A) (k : A -> W B) :
  wextends m -> (forall a, wextends (k a)) ->
  w_events (wbind m k) =
  w_events m ++ match w_result m with
                | Returned a => w_events (k a)
                | Thrown e => []
                end.
Proof.
  intros Hm Hk. unfold w_events, w_result, wrun, wbind.
  destruct (m []) as [[a | e] t0]; cbn [fst snd]; [|rewrite app_nil_r; reflexivity].
  rewrite (Hk a t0). reflexivity.
Qed.

End WExtends.

Lemma wextends_emit (ev : wevent) : wextends (wemit ev).
Proof. intros t. reflexivity. Qed.

Lemma wextends_try {A} (body : W A) (handler : JsError -> W A) :
  wextends body -> (forall e, wextends (handler e)) -> wextends (wtry body handler).
Proof.
  intros Hm Hk t. unfold w_result, w_events, wrun, wtry.
  rewrite (Hm t). unfold w_result, w_events, wrun.
  destruct (body []) as [[a | e] t0]; cbn [fst snd]; [reflexivity|].
  rewrite (Hk e (t ++ t0)), (Hk e t0). cbn [fst snd].
  rewrite app_assoc. reflexivity.
Qed.

Lemma w_result_try {A} (body : W A) (handler : JsError -> W A) :
  wextends body -> (forall e, wextends (handler e)) ->
  w_result (wtry body handler) =
  match w_result body with
  | Returned a => Returned a
  | Thrown e => w_result (handler e)
  end.
Proof.
  intros Hm Hk. unfold w_result, wrun, wtry.
  destruct (body []) as [[a | e] t0]; cbn [fst]; [reflexivity|].
  rewrite (Hk e t0). reflexivity.
Qed.

Lemma w_events_try {A} (body : W A) (handler : JsError -> W A) :
  wextends body -> (forall e, wextends (handler e)) ->
  w_events (wtry body handler) =
  w_events body ++ match w_result body with
                   | Returned a => []
                   | Thrown e => w_events (handler e)
                   end.
Proof.
  intros Hm Hk. unfold w_events, w_result, wrun, wtry.
  destruct (body []) as [[a | e] t0]; cbn [fst snd]; [rewrite app_nil_r; reflexivity|].
  rewrite (Hk e t0). reflexivity.
Qed.

Create HintDb w_extends.
#[local] Hint Resolve wextends_ret wextends_throw wextends_call wextends_emit
  : w_extends.

Ltac wextends_step :=
  first
    [ apply wextends_ret | apply wextends_throw | apply wextends_call
    | apply wextends_emit | apply wextends_bind | apply wextends_try
    | solve [auto with w_extends]
    | match goal with
      | |- wextends (if ?b then _ else _) => destruct b
      | |- wextends (match ?x with _ => _ end) => destruct x
      | |- forall _, _ => intro
      end
    | progress cbv zeta ].

Ltac wextends_tac := repeat wextends_step.

(** X20.  [/ingest] answers 400 without creating a workflow when the body
    has neither [text] nor [pdfUrl], and when it has a [pdfUrl] but no
    [filename]; otherwise it creates exactly one workflow, with the three
    fields as received, and answers 201 once the workflow is created. *)
Theorem ingest_route_validation (text filename pdfUrl : option jsstr)
    (env : IngestEnv) :
  (present text = false -> present pdfUrl = false ->
   wrun (ingest_route text filename pdfUrl env) =
     (Returned {| reply_body := lit "Missing text or pdfUrl"; reply_status := 400 |},
      [])) /\
  (present pdfUrl = true -> present filename = false ->
   wrun (ingest_route text filename pdfUrl env) =
     (Returned {| reply_body := lit "Missing filename for PDF"; reply_status := 400 |},
      [])) /\
  (forall reply,
     w_result (ingest_route text filename pdfUrl env) = Returned reply ->
     reply_status reply = 201 ->
     w_events (ingest_route text filename pdfUrl env) =
       [WorkflowCreate text filename pdfUrl] /\
     workflow_create env text filename pdfUrl = Returned tt /\
     (present text = true \/ present pdfUrl = true) /\
     (present pdfUrl = true -> present filename = true)) /\
  ((present text = true \/ present pdfUrl = true) ->
   (present pdfUrl = true -> present filename = true) ->
   workflow_create env text filename pdfUrl = Returned tt ->
   wrun (ingest_route text filename pdfUrl env) =
     (Returned {| reply_body := if present pdfUrl
                                then lit "Created PDF note: " ++ text_of filename
                                else lit "Created note";
                  reply_status := 201 |},
      [WorkflowCreate text filename pdfUrl])).
Proof.
  unfold w_result, w_events, wrun, ingest_route, wbind, wcall, wret.
  split; [|split; [|split]].
  - intros -> ->. reflexivity.
  - intros -> ->. rewrite andb_false_r. reflexivity.
  - intros reply.
    destruct (present text) eqn:Et, (present pdfUrl) eqn:Ep,
             (present filename) eqn:Ef; cbn;
      try (intros [= <-]; cbn; discriminate);
      (destruct (workflow_create env text filename pdfUrl) as [[]|]; cbn;
       [|discriminate]);
      intros _ _; repeat split; auto; discriminate.
  - intros H1 H2 H3.
    destruct (present text) eqn:Et, (present pdfUrl) eqn:Ep,
             (present filename) eqn:Ef; cbn;
      try (destruct H1; discriminate);
      try (specialize (H2 eq_refl); discriminate);
      rewrite H3; reflexivity.
Qed.

Lemma ingest_route_validation_witness :
  wrun (ingest_route None (Some (lit "a.pdf")) (Some (lit "https://x/a.pdf"))
          ingest_world) =
    (Returned {| reply_body := lit "Created PDF note: a.pdf"; reply_status := 201 |},
     [WorkflowCreate None (Some (lit "a.pdf")) (Some (lit "https://x/a.pdf"))]) /\
  wrun (ingest_route None (Some (lit "a.pdf")) None ingest_world) =
    (Returned {| reply_body := lit "Missing text or pdfUrl"; reply_status := 400 |}, []).
Proof.
  split.
  - apply (proj2 (proj2 (proj2 (ingest_route_validation None (Some (lit "a.pdf"))
                                  (Some (lit "https://x/a.pdf")) ingest_world)))).
    + right. reflexivity.
    + intros _. reflexivity.
    + reflexivity.
  - apply (proj1 (ingest_route_validation None (Some (lit "a.pdf")) None
                    ingest_world)); reflexivity.
Defined.

Lemma leading_digits_spec (s : jsstr) :
  Forall (fun c => is_digit c = true) (leading_digits s) /\
  exists rest, s = leading_digits s ++ rest.
Proof.
  induction s as [|c r [IH1 [rest IH2]]]; simpl.
  - split; [constructor | exists []; reflexivity].
  - destruct (is_digit c) eqn:E.
    + split; [constructor; assumption|]. exists rest. simpl. f_equal. exact IH2.
    + split; [constructor|]. exists (c :: r). reflexivity.
Qed.

Lemma starts_with_spec (p s : jsstr) :
  starts_with p s = true -> exists rest, s = p ++ rest.
Proof.
  revert s. induction p as [|a p IH]; intros s H; simpl in H.
  - exists s. reflexivity.
  - destruct s as [|b r]; [discriminate|].
    apply andb_true_iff in H. destruct H as [Hab H].
    apply N.eqb_eq in Hab. subst b.
    destruct (IH r H) as [rest ->]. exists rest. reflexivity.
Qed.

Lemma match_PMC_spec (s pmcId : jsstr) :
  match_PMC s = Some pmcId ->
  pmcId <> [] /\ Forall (fun c => is_digit c = true) pmcId /\
  occurs_in (lit "PMC" ++ pmcId) s.
Proof.
  induction s as [|c r IH]; [discriminate|].
  cbn [match_PMC].
  destruct (starts_with (lit "PMC") (c :: r) && _)%bool eqn:E.
  - apply andb_true_iff in E. destruct E as [E1 E2].
    destruct (starts_with_spec _ _ E1) as [rest Hrest].
    clear IH E1. rewrite Hrest in *. clear Hrest.
    change (skipn 3 (lit "PMC" ++ rest)) with rest in *.
    intros [= <-].
    destruct (leading_digits_spec rest) as [Hd [tail Htail]].
    split; [|split].
    + destruct rest as [|d rest']; [discriminate|].
      cbn [leading_digits]. rewrite E2. discriminate.
    + exact Hd.
    + exists [], tail. rewrite <- app_assoc. rewrite <- Htail. reflexivity.
  - intros H. destruct (IH H) as [H1 [H2 [pre [post H3]]]].
    split; [exact H1|]. split; [exact H2|].
    exists (c :: pre), post. simpl. f_equal. exact H3.
Qed.

(** X21.  [getActualPdfUrl] never throws.  For a URL that does not name
    the PMC host, or has no ["PMC"] followed by digits, it returns [null]
    without any request.  A URL it returns is
    [https://europepmc.org/articles/PMC<id>/pdf/PMC<id>.pdf], where [<id>]
    is a non-empty run of digits that follows ["PMC"] in the viewer URL,
    and the HEAD request for it was answered with a [content-type] that
    contains ["application/pdf"]; at most one request is made. *)
Theorem getActualPdfUrl_result (viewerUrl : jsstr) (env : IngestEnv) :
  exists r,
    w_result (getActualPdfUrl viewerUrl env) = Returned r /\
    (includes viewerUrl (lit "pmc.ncbi.nlm.nih.gov") = false \/
     match_PMC viewerUrl = None ->
     r = None /\ w_events (getActualPdfUrl viewerUrl env) = []) /\
    (forall url,
       r = Some url ->
       exists pmcId header,
         url = europepmc_url pmcId /\
         pmcId <> [] /\ Forall (fun c => is_digit c = true) pmcId /\
         occurs_in (lit "PMC" ++ pmcId) viewerUrl /\
         head_fetch env url = Returned (Some header) /\
         includes header (lit "application/pdf") = true) /\
    (length (service_calls (w_events (getActualPdfUrl viewerUrl env))) <= 1)%nat.
Proof.
  unfold w_result, w_events, wrun, getActualPdfUrl, wtry.
  destruct (includes viewerUrl (lit "pmc.ncbi.nlm.nih.gov")) eqn:Ehost.
  - destruct (match_PMC viewerUrl) as [pmcId|] eqn:Em.
    + cbv zeta. unfold try_urls, wbind, wtry, wemit, wcall, wret.
      destruct (head_fetch env (europepmc_url pmcId)) as [header | e] eqn:Eh.
      * set (contentType := match header with
                            | Some h => if truthy h then h else []
                            | None => []
                            end).
        destruct (includes contentType (lit "application/pdf")) eqn:Ei.
        -- exists (Some (europepmc_url pmcId)). cbn.
           split; [reflexivity|]. split; [intros [H | H]; discriminate|].
           split; [|lia].
           intros url [= <-].
           destruct (match_PMC_spec _ _ Em) as [H1 [H2 H3]].
           destruct header as [h|]; [|discriminate Ei].
           exists pmcId, h. repeat split; auto.
           unfold contentType in Ei. destruct (truthy h); [exact Ei | discriminate Ei].
        -- exists None. cbn.
           split; [reflexivity|]. split; [intros [H | H]; discriminate|].
           split; [discriminate | lia].
      * exists None. cbn.
        split; [reflexivity|]. split; [intros [H | H]; discriminate|].
        split; [discriminate | lia].
    + exists None. cbn. split; [reflexivity|]. split; [auto|].
      split; [discriminate | lia].
  - exists None. cbn. split; [reflexivity|]. split; [auto|].
    split; [discriminate | lia].
Qed.

Lemma getActualPdfUrl_result_witness :
  w_result (getActualPdfUrl pmc_viewer_url ingest_world) =
    Returned (Some (lit "https://europepmc.org/articles/PMC1234567/pdf/PMC1234567.pdf")) /\
  exists pmcId,
    lit "https://europepmc.org/articles/PMC1234567/pdf/PMC1234567.pdf" =
      europepmc_url pmcId /\
    Forall (fun c => is_digit c = true) pmcId.
Proof.
  destruct (getActualPdfUrl_result pmc_viewer_url ingest_world)
    as [r [H1 [_ [H3 _]]]].
  assert (E : r = Some (lit "https://europepmc.org/articles/PMC1234567/pdf/PMC1234567.pdf")).
  { assert (H : w_result (getActualPdfUrl pmc_viewer_url ingest_world) =
                Returned (Some (lit "https://europepmc.org/articles/PMC1234567/pdf/PMC1234567.pdf")))
      by reflexivity.
    rewrite H in H1. injection H1 as <-. reflexivity. }
  split; [rewrite H1, E; reflexivity|].
  destruct (H3 _ E) as [pmcId [header [Hu [_ [Hd _]]]]].
  exists pmcId. split; [exact Hu | exact Hd].
Defined.

(* ===================================================================== *)
(** * The ingestion workflow on a text payload                             *)
(* ===================================================================== *)

Section Workflow.
Variable env : IngestEnv.

Lemma wbind_emit {B} (ev : wevent) (k : W B) (t : wtrace) :
  (wemit ev ;;~ k) t = k (t ++ [ev]).
Proof. reflexivity. Qed.

Lemma wbind_returned {A B} (m : W A) (k : A -> W B) t a t' :
  m t = (Returned a, t') -> wbind m k t = k a t'.
Proof. unfold wbind. intros ->. reflexivity. Qed.

Lemma wbind_thrown {A B} (m : W A) (k : A -> W B) t e t' :
  m t = (Thrown e, t') -> wbind m k t = (Thrown e, t').
Proof. unfold wbind. intros ->. reflexivity. Qed.

Lemma wtry_returned {A} (m : W A) h t a t' :
  m t = (Returned a, t') -> wtry m h t = (Returned a, t').
Proof. unfold wtry. intros ->. reflexivity. Qed.

Lemma wtry_thrown {A} (m : W A) h t e t' :
  m t = (Thrown e, t') -> wtry m h t = h e t'.
Proof. unfold wtry. intros ->. reflexivity. Qed.

Lemma service_calls_app (a b : wtrace) :
  service_calls (a ++ b) = service_calls a ++ service_calls b.
Proof. apply filter_app. Qed.

Lemma inserted_functional u pieces : forall recs recs',
  Forall2 (inserted env u) pieces recs ->
  Forall2 (inserted env u) pieces recs' -> recs = recs'.
Proof.
  induction pieces as [|p rest IH]; intros recs recs' H H';
    inversion H as [|? r ? rs [m E] Hr]; inversion H' as [|? r' ? rs' [m' E'] Hr'];
    subst; [reflexivity|].
  f_equal; [congruence | apply IH; assumption].
Qed.

Lemma embedded_functional pieces : forall valss valss',
  Forall2 (embedded env) pieces valss ->
  Forall2 (embedded env) pieces valss' -> valss = valss'.
Proof.
  unfold embedded.
  induction pieces as [|p rest IH]; intros valss valss' H H';
    inversion H as [|? r ? rs E Hr]; inversion H' as [|? r' ? rs' E' Hr'];
    subst; [reflexivity|].
  f_equal; [congruence | apply IH; assumption].
Qed.

(** The loop of the third step: either every piece got its record, or the
    loop threw after the inserts of a prefix of the pieces. *)
Lemma insert_loop_cases u pieces : forall acc t,
  (exists recs evs,
     Forall2 (inserted env u) pieces recs /\
     insert_loop u pieces acc env t = (Returned (acc ++ recs), t ++ evs) /\
     service_calls evs = map (insert_call u) pieces) \/
  (exists e evs k,
     insert_loop u pieces acc env t = (Thrown e, t ++ evs) /\
     service_calls evs = map (insert_call u) (firstn k pieces) /\
     ~ exists recs, Forall2 (inserted env u) pieces recs).
Proof.
  induction pieces as [|p rest IH]; intros acc t.
  - left. exists [], []. rewrite !app_nil_r. repeat split. constructor.
  - cbn [insert_loop]. rewrite wbind_emit. unfold wbind, wcall.
    destruct (database_insert env INSERT_SQL (insert_binds u p))
      as [[[|r more]|]|e] eqn:E; cbv beta iota.
    + right. eexists _, [WLog _; DatabaseInsert _ _], 1%nat.
      split; [unfold wthrow; rewrite <- app_assoc; reflexivity|].
      split; [reflexivity|].
      intros [recs H]. inversion H as [|? r ? rs [m Em] Hr]; subst. congruence.
    + destruct (IH (acc ++ [r])
                  ((t ++ [WLog (lit "Inserting chunk into database:")]) ++
                   [DatabaseInsert INSERT_SQL (insert_binds u p)]))
        as [[recs [evs [H1 [H2 H3]]]] | [e [evs [k [H1 [H2 H3]]]]]].
      * left. exists (r :: recs), ([WLog (lit "Inserting chunk into database:");
                                    DatabaseInsert INSERT_SQL (insert_binds u p)] ++ evs).
        split; [constructor; [exists more; exact E | exact H1]|].
        split.
        -- rewrite H2. rewrite <- !app_assoc. reflexivity.
        -- rewrite service_calls_app, H3. reflexivity.
      * right. exists e, ([WLog (lit "Inserting chunk into database:");
                           DatabaseInsert INSERT_SQL (insert_binds u p)] ++ evs), (S k).
        split; [rewrite H1; rewrite <- !app_assoc; reflexivity|].
        split; [rewrite service_calls_app, H2; reflexivity|].
        intros [recs H]. inversion H as [|? r0 ? rs Hi Hr]; subst.
        apply H3. exists rs. exact Hr.
    + right. eexists _, [WLog _; DatabaseInsert _ _], 1%nat.
      split; [unfold wthrow; rewrite <- app_assoc; reflexivity|].
      split; [reflexivity|].
      intros [recs H]. inversion H as [|? r ? rs [m Em] Hr]; subst. congruence.
    + right. eexists e, [WLog _; DatabaseInsert _ _], 1%nat.
      split; [rewrite <- app_assoc; reflexivity|].
      split; [reflexivity|].
      intros [recs H]. inversion H as [|? r ? rs [m Em] Hr]; subst. congruence.
Qed.

(** The loop of the fourth step, run with one record per piece. *)
Lemma embed_loop_cases total pieces : forall pre recs acc t,
  length recs = length pieces ->
  (exists valss embs evs,
     Forall2 (embedded env) pieces valss /\
     embed_loop pieces (Z.of_nat (length pre)) total (pre ++ recs) acc env t =
       (Returned (acc ++ embs), t ++ evs) /\
     map as_vector embs = vectors_of recs valss /\
     service_calls evs = map embed_call pieces) \/
  (exists e evs k,
     embed_loop pieces (Z.of_nat (length pre)) total (pre ++ recs) acc env t =
       (Thrown e, t ++ evs) /\
     service_calls evs = map embed_call (firstn k pieces) /\
     ~ exists valss, Forall2 (embedded env) pieces valss).
Proof.
  induction pieces as [|p rest IH]; intros pre recs acc t Hlen.
  - left. exists [], [], []. rewrite !app_nil_r.
    destruct recs; [|discriminate]. repeat split. constructor.
  - destruct recs as [|r recs']; [discriminate|].
    cbn [embed_loop]. rewrite wbind_emit. unfold wbind, wcall.
    set (L := WLog _).
    destruct (embedQuery env (cwm_text p)) as [[vals|]|e] eqn:E; cbv beta iota.
    + rewrite Nat2Z.id, nth_error_app2, Nat.sub_diag by lia. cbn [nth_error].
      replace (Z.of_nat (length pre) + 1) with (Z.of_nat (length (pre ++ [r])))
        by (rewrite length_app; simpl; lia).
      replace (pre ++ r :: recs') with ((pre ++ [r]) ++ recs')
        by (rewrite <- app_assoc; reflexivity).
      set (new := {| ce_id := _ |}).
      destruct (IH (pre ++ [r]) recs' (acc ++ [new])
                  ((t ++ [L]) ++ [EmbedQuery (cwm_text p)]))
        as [[valss [embs [evs [H1 [H2 [H3 H4]]]]]] | [e [evs [k [H1 [H2 H3]]]]]];
        [simpl in Hlen; lia | |].
      * left. exists (vals :: valss), (new :: embs),
                     ([L; EmbedQuery (cwm_text p)] ++ evs).
        split; [constructor; [exact E | exact H1]|].
        split; [rewrite H2; rewrite <- !app_assoc; reflexivity|].
        split; [cbn [map vectors_of]; rewrite H3; reflexivity|].
        rewrite service_calls_app, H4. reflexivity.
      * right. exists e, ([L; EmbedQuery (cwm_text p)] ++ evs), (S k).
        split; [rewrite H1; rewrite <- !app_assoc; reflexivity|].
        split; [rewrite service_calls_app, H2; reflexivity|].
        intros [valss H]. inversion H as [|? v ? vs Hi Hr]; subst.
        apply H3. exists vs. exact Hr.
    + right. eexists _, [L; EmbedQuery _], 1%nat.
      split; [unfold wthrow; rewrite <- app_assoc; reflexivity|].
      split; [reflexivity|].
      intros [valss H]. inversion H as [|? v ? vs Hi Hr]; subst.
      unfold embedded in Hi. congruence.
    + right. eexists e, [L; EmbedQuery _], 1%nat.
      split; [rewrite <- app_assoc; reflexivity|].
      split; [reflexivity|].
      intros [valss H]. inversion H as [|? v ? vs Hi Hr]; subst.
      unfold embedded in Hi. congruence.
Qed.

Lemma records_step_cases pieces payload t :
  present (p_pdfUrl payload) = false ->
  (exists recs evs,
     Forall2 (inserted env SqlNull) pieces recs /\
     records_step pieces payload env t = (Returned recs, t ++ evs) /\
     service_calls evs = map (insert_call SqlNull) pieces) \/
  (exists e evs k,
     records_step pieces payload env t = (Thrown e, t ++ evs) /\
     service_calls evs = map (insert_call SqlNull) (firstn k pieces) /\
     ~ exists recs, Forall2 (inserted env SqlNull) pieces recs).
Proof.
  intros Hp. unfold records_step. cbv zeta.
  assert (Hu : match p_pdfUrl payload with
               | Some u => if truthy u then SqlText u else SqlNull
               | None => SqlNull
               end = SqlNull).
  { unfold present in Hp. destruct (p_pdfUrl payload); [rewrite Hp|]; reflexivity. }
  rewrite Hu. clear Hu.
  destruct (insert_loop_cases SqlNull pieces [] t)
    as [[recs [evs [H1 [H2 H3]]]] | [e [evs [k [H1 [H2 H3]]]]]].
  - left. exists recs. eexists. split; [exact H1|]. split.
    + erewrite wtry_returned; [reflexivity|].
      erewrite wbind_returned by exact H2. rewrite wbind_emit.
      unfold wret. rewrite <- app_assoc. reflexivity.
    + rewrite service_calls_app, H3. cbn. apply app_nil_r.
  - right. exists e. eexists. exists k. split; [|split; [|exact H3]].
    + erewrite wtry_thrown by (erewrite wbind_thrown by exact H1; reflexivity).
      rewrite wbind_emit. unfold wthrow. rewrite <- app_assoc. reflexivity.
    + rewrite service_calls_app, H2. cbn. apply app_nil_r.
Qed.

Lemma embeddings_step_cases pieces recs t :
  length recs = length pieces ->
  (exists e evs,
     embedding_client env (lit "text-embedding-004") = Thrown e /\
     embeddings_step pieces recs env t = (Thrown e, t ++ evs) /\
     service_calls evs = [EmbeddingClient (lit "text-embedding-004")]) \/
  (exists e evs k,
     embedding_client env (lit "text-embedding-004") = Returned tt /\
     embeddings_step pieces recs env t = (Thrown e, t ++ evs) /\
     service_calls evs =
       [EmbeddingClient (lit "text-embedding-004")] ++
       map embed_call (firstn k pieces) /\
     ~ exists valss, Forall2 (embedded env) pieces valss) \/
  (exists valss embs evs,
     embedding_client env (lit "text-embedding-004") = Returned tt /\
     Forall2 (embedded env) pieces valss /\
     embeddings_step pieces recs env t = (Returned embs, t ++ evs) /\
     map as_vector embs = vectors_of recs valss /\
     service_calls evs =
       [EmbeddingClient (lit "text-embedding-004")] ++ map embed_call pieces).
Proof.
  intros Hlen. unfold embeddings_step.
  set (L := WLog _).
  set (C := EmbeddingClient _).
  destruct (embedding_client env (lit "text-embedding-004")) as [[]|e] eqn:Ec.
  - pose proof (embed_loop_cases (Z.of_nat (length pieces)) pieces [] recs []
                  ((t ++ [L]) ++ [C]) Hlen) as H.
    cbn [length Z.of_nat app] in H.
    destruct H as [[valss [embs [evs [H1 [H2 [H3 H4]]]]]] | [e [evs [k [H1 [H2 H3]]]]]].
    + right. right. exists valss, embs. eexists.
      split; [reflexivity|]. split; [exact H1|]. split; [|split; [exact H3|]].
      * erewrite wtry_returned; [reflexivity|].
        rewrite wbind_emit. unfold wbind at 1, wcall. cbv beta iota.
        erewrite wbind_returned by exact H2. rewrite wbind_emit.
        unfold wret. rewrite <- !app_assoc. reflexivity.
      * rewrite !service_calls_app, H4. cbn. rewrite app_nil_r. reflexivity.
    + right. left. exists e. eexists. exists k.
      split; [reflexivity|]. split; [|split; [|exact H3]].
      * erewrite wtry_thrown.
        2:{ rewrite wbind_emit. unfold wbind at 1, wcall. cbv beta iota.
            erewrite wbind_thrown by exact H1. reflexivity. }
        rewrite wbind_emit. unfold wthrow. rewrite <- !app_assoc. reflexivity.
      * rewrite !service_calls_app, H2. cbn. rewrite app_nil_r. reflexivity.
  - left. exists e. eexists. split; [reflexivity|]. split.
    + erewrite wtry_thrown.
      2:{ rewrite wbind_emit. unfold wbind at 1, wcall. reflexivity. }
      rewrite wbind_emit. unfold wthrow. rewrite <- !app_assoc. reflexivity.
    + reflexivity.
Qed.

Lemma vectors_step_result embs t :
  exists evs,
    vectors_step embs env t =
      (VECTORIZE_upsert env (map as_vector embs), t ++ evs) /\
    service_calls evs = [VectorizeUpsert (map as_vector embs)].
Proof.
  unfold vectors_step. cbv zeta.
  change (map (fun embedding => {| v_id := ce_id embedding;
                                   v_values := ce_values embedding |}) embs)
    with (map as_vector embs).
  set (L := WLog _).
  destruct (VECTORIZE_upsert env (map as_vector embs)) as [[]|e] eqn:Eu.
  - eexists. split.
    + erewrite wtry_returned; [reflexivity|].
      rewrite wbind_emit. unfold wcall.
      rewrite <- !app_assoc. reflexivity.
    + reflexivity.
  - eexists. split.
    + erewrite wtry_thrown.
      2:{ rewrite wbind_emit. unfold wcall. reflexivity. }
      rewrite wbind_emit. unfold wthrow. rewrite <- !app_assoc. reflexivity.
    + reflexivity.
Qed.

Lemma extract_step_text pdf_branch payload t :
  present (p_pdfUrl payload) = false ->
  extract_step pdf_branch payload t = (Returned (p_text payload), t).
Proof.
  unfold extract_step, present.
  destruct (p_pdfUrl payload); [intros ->|]; reflexivity.
Qed.

(** [run] on a payload without a document: the three steps that call the
    services, after events that call none. *)
Lemma run_text_unfold pdf_branch payload text :
  p_text payload = Some text -> present (p_pdfUrl payload) = false ->
  let pieces := chunk_pieces text (stored_filename payload) in
  exists pre,
    (forall t0,
       run pdf_branch payload env t0 =
         match records_step pieces payload env (t0 ++ pre) with
         | (Returned recs, t1) =>
             match embeddings_step pieces recs env
                     (t1 ++ [StepDo (lit "generate embeddings for chunks")]) with
             | (Returned embs, t2) =>
                 vectors_step embs env
                   (t2 ++ [StepDo (lit "insert vectors for all chunks")])
             | (Thrown e, t2) => (Thrown e, t2)
             end
         | (Thrown e, t1) => (Thrown e, t1)
         end) /\
    service_calls pre = [].
Proof.
  intros Ht Hp pieces. eexists. split.
  - intros t0. unfold run, step_do, wbind, wemit.
    rewrite extract_step_text by exact Hp. rewrite Ht.
    unfold chunk_step, wbind, wemit, wret. cbv beta iota zeta.
    rewrite <- !app_assoc. reflexivity.
  - reflexivity.
Qed.

Lemma run_text_cases pdf_branch payload text :
  p_text payload = Some text -> present (p_pdfUrl payload) = false ->
  let pieces := chunk_pieces text (stored_filename payload) in
  let m := run pdf_branch payload env in
  (exists e k,
     w_result m = Thrown e /\
     service_calls (w_events m) = map (insert_call SqlNull) (firstn k pieces) /\
     ~ exists recs, Forall2 (inserted env SqlNull) pieces recs) \/
  (exists recs e,
     Forall2 (inserted env SqlNull) pieces recs /\
     embedding_client env (lit "text-embedding-004") = Thrown e /\
     w_result m = Thrown e /\
     service_calls (w_events m) =
       map (insert_call SqlNull) pieces ++
       [EmbeddingClient (lit "text-embedding-004")]) \/
  (exists recs e k,
     Forall2 (inserted env SqlNull) pieces recs /\
     embedding_client env (lit "text-embedding-004") = Returned tt /\
     w_result m = Thrown e /\
     service_calls (w_events m) =
       map (insert_call SqlNull) pieces ++
       [EmbeddingClient (lit "text-embedding-004")] ++
       map embed_call (firstn k pieces) /\
     ~ exists valss, Forall2 (embedded env) pieces valss) \/
  (exists recs valss,
     Forall2 (inserted env SqlNull) pieces recs /\
     embedding_client env (lit "text-embedding-004") = Returned tt /\
     Forall2 (embedded env) pieces valss /\
     w_result m = VECTORIZE_upsert env (vectors_of recs valss) /\
     service_calls (w_events m) = workflow_calls pieces recs valss).
Proof.
  intros Ht Hp pieces m.
  destruct (run_text_unfold pdf_branch payload text Ht Hp) as [pre [Hrun Hpre]].
  fold pieces in Hrun.
  unfold w_result, w_events, wrun, m. rewrite Hrun. clear Hrun.
  destruct (records_step_cases pieces payload ([] ++ pre) Hp)
    as [[recs [evs [H1 [H2 H3]]]] | [e [evs [k [H1 [H2 H3]]]]]].
  2:{ left. exists e, k. rewrite H1. cbn [fst snd app].
      rewrite service_calls_app, Hpre, H2. repeat split; auto. }
  right. rewrite H2. cbv beta iota.
  destruct (embeddings_step_cases pieces recs
              ((([] ++ pre) ++ evs) ++ [StepDo (lit "generate embeddings for chunks")])
              (eq_sym (Forall2_length H1)))
    as [[e [evs' [G1 [G2 G3]]]] |
        [[e [evs' [k [G1 [G2 [G3 G4]]]]]] |
         [valss [embs [evs' [G1 [G2 [G3 [G4 G5]]]]]]]]].
  - left. exists recs, e. rewrite G2. cbn [fst snd app].
    rewrite !service_calls_app, Hpre, H3, G3. repeat split; auto.
    cbn. rewrite app_nil_r. reflexivity.
  - right. left. exists recs, e, k. rewrite G2. cbn [fst snd app].
    rewrite !service_calls_app, Hpre, H3, G3. repeat split; auto.
    cbn. rewrite app_nil_r. reflexivity.
  - right. right. exists recs, valss. rewrite G3. cbv beta iota.
    destruct (vectors_step_result embs
                ((((([] ++ pre) ++ evs) ++
                   [StepDo (lit "generate embeddings for chunks")]) ++ evs') ++
                 [StepDo (lit "insert vectors for all chunks")]))
      as [evs'' [V1 V2]].
    rewrite V1. cbn [fst snd app]. rewrite G4 in *.
    rewrite !service_calls_app, Hpre, H3, G5, V2. repeat split; auto.
    unfold workflow_calls. cbn. rewrite !app_nil_r, <- !app_assoc. reflexivity.
Qed.

End Workflow.

Lemma insert_calls_only u l ev :
  In ev (map (insert_call u) l) -> exists s b, ev = DatabaseInsert s b.
Proof.
  intros H. apply in_map_iff in H. destruct H as [p [<- _]].
  unfold insert_call. eauto.
Qed.

Lemma embed_calls_only l ev :
  In ev (map embed_call l) -> exists x, ev = EmbedQuery x.
Proof.
  intros H. apply in_map_iff in H. destruct H as [p [<- _]].
  unfold embed_call. eauto.
Qed.

Lemma in_service_calls ev tr :
  is_service_call ev = true -> In ev tr -> In ev (service_calls tr).
Proof. intros H1 H2. apply filter_In. split; assumption. Qed.

Ltac sort_call Hin :=
  repeat match type of Hin with
  | In _ (_ ++ _) => apply in_app_or in Hin as [Hin | Hin]
  | In _ (map (insert_call _) _) =>
      apply insert_calls_only in Hin as [? [? Hin]]; try discriminate Hin
  | In _ (map embed_call _) =>
      apply embed_calls_only in Hin as [? Hin]; try discriminate Hin
  | In _ [_] => destruct Hin as [Hin | []]; try discriminate Hin
  end.

Lemma chunk_pieces_texts (text filename : jsstr) :
  chunkText (length text) text 8000 500 =
    Some (map cwm_text (chunk_pieces text filename)).
Proof.
  unfold chunk_pieces, chunkTextWithMetadata.
  destruct (chunkText_returns text 8000 500) as [cs Hcs]; [lia | lia |].
  rewrite Hcs. rewrite decorate_texts. reflexivity.
Qed.

(** X22.  [run] on a payload with a text and no [pdfUrl].  The pieces it
    works on are those of [chunkTextWithMetadata(text, filename ||
    'untitled', 8000, 500)], whose loop ends.  The run resolves exactly
    when every piece's insert returned a record, the embedding client was
    built, every piece's text was embedded, and the upsert of the vectors
    (the id of the piece's record, the values of its embedding, in the
    order of the pieces) succeeded.  When the inserts and the embeddings
    succeed, the services are called in this order and no more: one insert
    per piece, the client, one embedding per piece, one upsert of all the
    vectors. *)
Theorem run_text_returns (pdf_branch : jsstr -> W jsstr) (payload : Payload)
    (text : jsstr) (env : IngestEnv) :
  p_text payload = Some text -> present (p_pdfUrl payload) = false ->
  let pieces := chunk_pieces text (stored_filename payload) in
  chunkText (length text) text 8000 500 = Some (map cwm_text pieces) /\
  (w_result (run pdf_branch payload env) = Returned tt <->
   exists recs valss,
     Forall2 (inserted env SqlNull) pieces recs /\
     embedding_client env (lit "text-embedding-004") = Returned tt /\
     Forall2 (embedded env) pieces valss /\
     VECTORIZE_upsert env (vectors_of recs valss) = Returned tt) /\
  (forall recs valss,
     Forall2 (inserted env SqlNull) pieces recs ->
     embedding_client env (lit "text-embedding-004") = Returned tt ->
     Forall2 (embedded env) pieces valss ->
     service_calls (w_events (run pdf_branch payload env)) =
       workflow_calls pieces recs valss).
Proof.
  intros Ht Hp pieces.
  split; [apply chunk_pieces_texts|].
  pose proof (run_text_cases env pdf_branch payload text Ht Hp) as Hc.
  cbv zeta in Hc. fold pieces in Hc.
  destruct Hc as [[e [k [R [S N]]]] |
                  [[recs [e [I [C [R S]]]]] |
                   [[recs [e [k [I [C [R [S N]]]]]]] |
                    [recs [valss [I [C [E [R S]]]]]]]]].
  - split; [split|].
    + rewrite R. discriminate.
    + intros [recs [valss [I _]]]. exfalso. apply N. exists recs. exact I.
    + intros recs valss I _ _. exfalso. apply N. exists recs. exact I.
  - split; [split|].
    + rewrite R. discriminate.
    + intros [recs' [valss [_ [C' _]]]]. congruence.
    + intros recs' valss _ C' _. congruence.
  - split; [split|].
    + rewrite R. discriminate.
    + intros [recs' [valss [_ [_ [E _]]]]]. exfalso. apply N. exists valss. exact E.
    + intros recs' valss _ _ E. exfalso. apply N. exists valss. exact E.
  - split; [split|].
    + intros H. exists recs, valss. rewrite R in H. auto.
    + intros [recs' [valss' [I' [_ [E' U]]]]].
      rewrite (inserted_functional env _ _ _ _ I I'),
              (embedded_functional env _ _ _ E E'), U in R. exact R.
    + intros recs' valss' I' _ E'.
      rewrite <- (inserted_functional env _ _ _ _ I I'),
              <- (embedded_functional env _ _ _ E E'). exact S.
Qed.

Lemma run_text_returns_witness :
  w_result (run no_pdf_branch note_payload ingest_world) = Returned tt /\
  service_calls (w_events (run no_pdf_branch note_payload ingest_world)) =
    [DatabaseInsert INSERT_SQL
       [SqlText (lit "Mars has two moons."); SqlText (lit "mars.txt"); SqlNull;
        SqlInteger 0; SqlInteger 1; SqlInteger 19; SqlInteger 19];
     EmbeddingClient (lit "text-embedding-004");
     EmbedQuery (lit "Mars has two moons.");
     VectorizeUpsert [{| v_id := lit "41"; v_values := [1 # 2; 1 # 4] |}]].
Proof.
  pose proof (run_text_returns no_pdf_branch note_payload
                (lit "Mars has two moons.") ingest_world eq_refl eq_refl) as H.
  cbv zeta in H. destruct H as [_ [H1 H2]].
  set (pieces := chunk_pieces (lit "Mars has two moons.")
                   (stored_filename note_payload)) in *.
  assert (I : Forall2 (inserted ingest_world SqlNull) pieces
                (map (fun p => stored_row 41 (insert_binds SqlNull p)) pieces)).
  { vm_compute. repeat constructor. exists []. reflexivity. }
  assert (E : Forall2 (embedded ingest_world) pieces
                (map (fun _ => [1 # 2; 1 # 4]) pieces)).
  { vm_compute. repeat constructor. }
  split.
  - apply (proj2 H1). eexists. eexists.
    split; [exact I|]. split; [reflexivity|]. split; [exact E|]. reflexivity.
  - rewrite (H2 _ _ I eq_refl E). reflexivity.
Defined.

(** X23.  [run] on a payload with a text and no [pdfUrl] keeps its steps in
    order.  It builds the embedding client only after every piece's insert
    returned a record; it asks for an embedding only after that and after
    the client was built; and what it upserts is, for every piece in
    order, the id of the record its insert returned (as a string) with
    the values its embedding returned: no vector is sent for a piece that
    was not stored and embedded. *)
Theorem run_text_steps_in_order (pdf_branch : jsstr -> W jsstr) (payload : Payload)
    (text : jsstr) (env : IngestEnv) :
  p_text payload = Some text -> present (p_pdfUrl payload) = false ->
  let pieces := chunk_pieces text (stored_filename payload) in
  let events := w_events (run pdf_branch payload env) in
  (forall model,
     In (EmbeddingClient model) events ->
     exists recs, Forall2 (inserted env SqlNull) pieces recs) /\
  (forall x,
     In (EmbedQuery x) events ->
     embedding_client env (lit "text-embedding-004") = Returned tt /\
     exists recs, Forall2 (inserted env SqlNull) pieces recs) /\
  (forall vectors,
     In (VectorizeUpsert vectors) events ->
     exists recs valss,
       Forall2 (inserted env SqlNull) pieces recs /\
       Forall2 (embedded env) pieces valss /\
       vectors = vectors_of recs valss).
Proof.
  intros Ht Hp pieces events.
  pose proof (run_text_cases env pdf_branch payload text Ht Hp) as Hc.
  cbv zeta in Hc. fold pieces in Hc. fold events in Hc.
  split; [|split].
  - intros model Hin. apply in_service_calls in Hin; [|reflexivity].
    destruct Hc as [[e [k [R [S N]]]] |
                    [[recs [e [I [C [R S]]]]] |
                     [[recs [e [k [I [C [R [S N]]]]]]] |
                      [recs [valss [I [C [E [R S]]]]]]]]];
      try (exists recs; exact I).
    rewrite S in Hin. sort_call Hin.
  - intros x Hin. apply in_service_calls in Hin; [|reflexivity].
    destruct Hc as [[e [k [R [S N]]]] |
                    [[recs [e [I [C [R S]]]]] |
                     [[recs [e [k [I [C [R [S N]]]]]]] |
                      [recs [valss [I [C [E [R S]]]]]]]]];
      try (split; [exact C | exists recs; exact I]);
      rewrite S in Hin; sort_call Hin.
  - intros vectors Hin. apply in_service_calls in Hin; [|reflexivity].
    destruct Hc as [[e [k [R [S N]]]] |
                    [[recs [e [I [C [R S]]]]] |
                     [[recs [e [k [I [C [R [S N]]]]]]] |
                      [recs [valss [I [C [E [R S]]]]]]]]];
      rewrite S in Hin; try unfold workflow_calls in Hin; sort_call Hin.
    injection Hin as <-. exists recs, valss. auto.
Qed.

Lemma run_text_steps_in_order_witness :
  exists recs valss,
    Forall2 (inserted ingest_world SqlNull)
      (chunk_pieces (lit "Mars has two moons.") (lit "mars.txt")) recs /\
    Forall2 (embedded ingest_world)
      (chunk_pieces (lit "Mars has two moons.") (lit "mars.txt")) valss /\
    [{| v_id := lit "41"; v_values := [1 # 2; 1 # 4] |}] = vectors_of recs valss.
Proof.
  pose proof (run_text_steps_in_order no_pdf_branch note_payload
                (lit "Mars has two moons.") ingest_world eq_refl eq_refl) as H.
  cbv zeta in H. destruct H as [_ [_ H]].
  apply (H [{| v_id := lit "41"; v_values := [1 # 2; 1 # 4] |}]).
  vm_compute. repeat (try (left; reflexivity); right).
Defined.

(** X24.  [run] on a payload with neither a text nor a [pdfUrl] throws a
    [TypeError] in its second step, before any service is called: nothing
    is inserted, embedded or upserted. *)
Theorem run_missing_text (pdf_branch : jsstr -> W jsstr) (payload : Payload)
    (env : IngestEnv) :
  p_text payload = None -> present (p_pdfUrl payload) = false ->
  w_result (run pdf_branch payload env) = Thrown TypeError_undefined /\
  service_calls (w_events (run pdf_branch payload env)) = [] /\
  In (StepDo (lit "chunk text")) (w_events (run pdf_branch payload env)).
Proof.
  intros Ht Hp.
  unfold w_result, w_events, wrun, run, step_do, wbind, wemit.
  rewrite extract_step_text by exact Hp. rewrite Ht.
  cbn. repeat split. right. right. left. reflexivity.
Qed.

Lemma run_missing_text_witness :
  w_result (run no_pdf_branch
              {| p_text := None; p_filename := Some (lit "a.txt"); p_pdfUrl := None |}
              ingest_world_no_row) = Thrown TypeError_undefined.
Proof.
  apply (proj1 (run_missing_text no_pdf_branch
                  {| p_text := None; p_filename := Some (lit "a.txt");
                     p_pdfUrl := None |}
                  ingest_world_no_row eq_refl eq_refl)).
Defined.
